(** * Sevaflow: response validation, data-URL codec, edit history and batch apply

    A shallow embedding of the TypeScript sources
      - services/geminiService (fileToPart, handleApiResponse,
        generateRandomPrompt),
      - App (dataURLtoFile, addImageToHistory, handleUndo, handleRedo,
        handleReset, handleApplyBatchOperation),
    followed by the properties the specification states about them.

    Conventions.  A JavaScript string is a sequence of code units; the model
    keeps the code units below 256, so a string is a [string] of the Standard
    Library.  A JavaScript number that is used as an index or a cursor is a
    [Z].  [undefined]/[null] is [None].  A function that may throw returns a
    [result]; React state is an explicit record threaded through the
    handlers. *)

From Stdlib Require Import ZArith NArith Ascii String DecimalString.
From stdpp Require Import base tactics option list strings.

Local Open Scope Z_scope.

(* ================================================================== *)
(** * Part I.  The program                                             *)
(* ================================================================== *)

(** ** JavaScript values and exceptions *)
Module Js.

(** What a [throw] carries: an [Error] object with its message, or any other
    value (the handlers test [err instanceof Error]). *)
Inductive exn : Type :=
| Error (message : string)
| NonError.

Inductive result (A : Type) : Type :=
| Ok (a : A)
| Throw (e : exn).
Global Arguments Ok {A} a.
Global Arguments Throw {A} e.

Definition bind {A B} (r : result A) (k : A -> result B) : result B :=
  match r with
  | Ok a => k a
  | Throw e => Throw e
  end.

(** [err instanceof Error ? err.message : fallback] *)
Definition messageOr (fallback : string) (e : exn) : string :=
  match e with
  | Error m => m
  | NonError => fallback
  end.

(** Truthiness of an optional string: [undefined] and the empty string are falsy. *)
Definition truthy (o : option string) : bool :=
  match o with
  | Some s => negb (String.eqb s EmptyString)
  | None => false
  end.

(** [${x}] inside a template literal. *)
Definition tmpl (o : option string) : string :=
  match o with
  | Some s => s
  | None => "undefined"
  end.

(** [arr[i]] for a number [i] that is an integer. *)
Definition index {A} (l : list A) (i : Z) : option A :=
  if i <? 0 then None else l !! Z.to_nat i.

(** [arr.slice(0, end)] *)
Definition slice0 {A} (l : list A) (end_ : Z) : list A :=
  let len := Z.of_nat (length l) in
  let final := if end_ <? 0 then Z.max (len + end_) 0 else Z.min end_ len in
  take (Z.to_nat final) l.

(** Decimal rendering of a non-negative integer, as [${n}] prints it. *)
Definition showNat (n : nat) : string :=
  NilEmpty.string_of_uint (Nat.to_uint n).
Definition showZ (z : Z) : string :=
  NilZero.string_of_int (Z.to_int z).

(** *** Characters *)
Definition isComma (c : ascii) : bool := Ascii.eqb c ",".
Definition isColon (c : ascii) : bool := Ascii.eqb c ":".
Definition isSemi (c : ascii) : bool := Ascii.eqb c ";".

(** Line terminators: what [.] of a regular expression does not match
    (LF and CR; U+2028 and U+2029 lie outside the modelled range). *)
Definition isLineTerminator (c : ascii) : bool :=
  Ascii.eqb c "010" || Ascii.eqb c "013".

(** White space and line terminators removed by [String.prototype.trim]:
    TAB, LF, VT, FF, CR, SPACE and NBSP (the others lie above 255). *)
Definition isTrimSpace (c : ascii) : bool :=
  let n := N_of_ascii c in
  ((9 <=? n) && (n <=? 13) || (n =? 32) || (n =? 160))%N.

(** *** [s.split(',')] : the segments between commas, at least one. *)
Fixpoint split_comma (s : string) : list string :=
  match s with
  | EmptyString => [EmptyString]
  | String c s' =>
      if isComma c then EmptyString :: split_comma s'
      else match split_comma s' with
           | seg :: segs => String c seg :: segs
           | [] => [String c EmptyString]
           end
  end.

(** *** [s.match(/:(.*?);/)] : group 1 of the leftmost match.
    [lazy_to_semi s] is the shortest run of non-terminator characters of [s]
    that is followed by [;]. *)
Fixpoint lazy_to_semi (s : string) : option string :=
  match s with
  | EmptyString => None
  | String c s' =>
      if isSemi c then Some EmptyString
      else if isLineTerminator c then None
      else option_map (String c) (lazy_to_semi s')
  end.

Fixpoint match_colon_semi (s : string) : option string :=
  match s with
  | EmptyString => None
  | String c s' =>
      if isColon c then
        match lazy_to_semi s' with
        | Some g => Some g
        | None => match_colon_semi s'
        end
      else match_colon_semi s'
  end.

(** *** [s.trim()] *)
Fixpoint trimStart (s : string) : string :=
  match s with
  | EmptyString => EmptyString
  | String c s' => if isTrimSpace c then trimStart s' else s
  end.

(** [trimEnd] keeps a character when it is not a space or when something
    is kept after it. *)
Fixpoint trimEnd (s : string) : string :=
  match s with
  | EmptyString => EmptyString
  | String c s' =>
      match trimEnd s' with
      | EmptyString => if isTrimSpace c then EmptyString else String c EmptyString
      | t => String c t
      end
  end.

Definition trim (s : string) : string := trimEnd (trimStart s).

(** *** [s.replace(/[QUOTES]/g, EMPTY)], where the class holds the double
    and the single quote: every quote character is deleted. *)
Definition isQuote (c : ascii) : bool :=
  Ascii.eqb c "034" || Ascii.eqb c "039".

Fixpoint stripQuotes (s : string) : string :=
  match s with
  | EmptyString => EmptyString
  | String c s' => if isQuote c then stripQuotes s' else String c (stripQuotes s')
  end.

Fixpoint allChars (p : ascii -> bool) (s : string) : bool :=
  match s with
  | EmptyString => true
  | String c s' => p c && allChars p s'
  end.

End Js.

(** ** Base64, as the platform computes it

    [FileReader.readAsDataURL] writes the payload in the base64 alphabet of
    RFC 4648 with padding ([btoa] below); [atob] is the forgiving base64
    decoder of the WHATWG Infra standard. *)
Module Base64.

Definition alphabet : string :=
  "ABCDEFGHIJKLMNOPQRSTUVWXYZabcdefghijklmnopqrstuvwxyz0123456789+/".

(** The character of a sextet. *)
Definition b64char (v : N) : ascii :=
  match String.get (N.to_nat v) alphabet with
  | Some c => c
  | None => "/"%char
  end.

(** The sextet of a character of the alphabet. *)
Definition b64val (c : ascii) : option N :=
  let n := N_of_ascii c in
  (if (65 <=? n) && (n <=? 90) then Some (n - 65)
   else if (97 <=? n) && (n <=? 122) then Some (n - 71)
   else if (48 <=? n) && (n <=? 57) then Some (n + 4)
   else if n =? 43 then Some 62
   else if n =? 47 then Some 63
   else None)%N.

Definition isOctet (v : N) : Prop := (v < 256)%N.

Definition pad : ascii := "="%char.
Definition isPad (c : ascii) : bool := Ascii.eqb c pad.

(** Three octets make four sextets. *)
Definition sextet0 (a : N) : N := (a / 4)%N.
Definition sextet1 (a b : N) : N := ((a mod 4) * 16 + b / 16)%N.
Definition sextet2 (b c : N) : N := ((b mod 16) * 4 + c / 64)%N.
Definition sextet3 (c : N) : N := (c mod 64)%N.

(** The sextets of an octet string; a last group of one or two octets is
    completed with zero bits. *)
Fixpoint sextetsOf (octets : list N) : list N :=
  match octets with
  | a :: b :: c :: rest =>
      sextet0 a :: sextet1 a b :: sextet2 b c :: sextet3 c :: sextetsOf rest
  | [a; b] => [sextet0 a; sextet1 a b; sextet2 b 0]
  | [a] => [sextet0 a; sextet1 a 0]
  | [] => []
  end.

(** The padding after the sextets of [n] octets. *)
Definition padding (n : nat) : list ascii :=
  match (n mod 3)%nat with
  | 1%nat => [pad; pad]
  | 2%nat => [pad]
  | _ => []
  end.

Definition btoa (octets : list N) : string :=
  string_of_list_ascii ((b64char <$> sextetsOf octets) ++ padding (length octets)).

(** ASCII white space: TAB, LF, FF, CR, SPACE. *)
Definition isAsciiWhitespace (c : ascii) : bool :=
  let n := N_of_ascii c in
  ((n =? 9) || (n =? 10) || (n =? 12) || (n =? 13) || (n =? 32))%N.

(** Remove one or two trailing [=]. *)
Definition removePadding (d : list ascii) : list ascii :=
  match rev d with
  | c1 :: r1 =>
      if isPad c1 then
        match r1 with
        | c2 :: r2 => if isPad c2 then rev r2 else rev r1
        | [] => rev r1
        end
      else d
  | [] => d
  end.

(** Four sextets make three octets; a final group of three sextets makes
    two (its last two bits are dropped), a final group of two makes one
    (its last four bits are dropped). *)
Definition octet0 (s0 s1 : N) : N := ((s0 * 4 + s1 / 16) mod 256)%N.
Definition octet1 (s1 s2 : N) : N := (((s1 mod 16) * 16 + s2 / 4) mod 256)%N.
Definition octet2 (s2 s3 : N) : N := (((s2 mod 4) * 64 + s3) mod 256)%N.

Fixpoint decodeSextets (vs : list N) : list N :=
  match vs with
  | s0 :: s1 :: s2 :: s3 :: rest =>
      octet0 s0 s1 :: octet1 s1 s2 :: octet2 s2 s3 :: decodeSextets rest
  | [s0; s1; s2] => [octet0 s0 s1; octet1 s1 s2]
  | [s0; s1] => [octet0 s0 s1]
  | _ => []
  end.

(** [atob data]: the octets, or [None] where the platform throws
    [InvalidCharacterError]. *)
Definition atob (data : string) : option (list N) :=
  let d := filter (fun c => negb (isAsciiWhitespace c)) (list_ascii_of_string data) in
  let d := if (length d mod 4 =? 0)%nat then removePadding d else d in
  if (length d mod 4 =? 1)%nat then None
  else decodeSextets <$> mapM b64val d.

End Base64.

(** ** The request encoder: files, data URLs *)
Module Encoder.
Import Js.

(** A [File]: a name, a media type and the octets of the blob. *)
Record File : Type := mkFile {
  name : string;
  type : string;
  bytes : list Byte.byte
}.

(** The [type] a [File] constructor stores: the empty string when a
    character lies outside U+0020..U+007E, the ASCII lower case of the
    argument otherwise. *)
Definition isPrintable (c : ascii) : bool :=
  let n := N_of_ascii c in ((32 <=? n) && (n <=? 126))%N.

Definition toLower (c : ascii) : ascii :=
  let n := N_of_ascii c in
  if ((65 <=? n) && (n <=? 90))%N then ascii_of_N (n + 32) else c.

Fixpoint mapChars (f : ascii -> ascii) (s : string) : string :=
  match s with
  | EmptyString => EmptyString
  | String c s' => String (f c) (mapChars f s')
  end.

Definition normalizeType (t : string) : string :=
  if allChars isPrintable t then mapChars toLower t else EmptyString.

(** [new File([u8arr], filename, {type: mime})] *)
Definition newFile (u8arr : list Byte.byte) (filename mime : string) : File :=
  {| name := filename; type := normalizeType mime; bytes := u8arr |}.

(** [reader.readAsDataURL(file)] resolving with [reader.result]: the media
    type of the file, then the base64 of its octets; for a file whose type
    is empty, browsers write [application/octet-stream].  Reading an
    in-memory blob does not fail. *)
Definition readAsDataURL (file : File) : string :=
  let mediaType :=
    if String.eqb (type file) EmptyString then "application/octet-stream"
    else type file in
  "data:" +:+ mediaType +:+ ";base64," +:+ Base64.btoa (Byte.to_N <$> bytes file).

(** A media type that the parser of a data URL gives back: not empty, in
    the form a [File] stores (printable, lower case), and free of the two
    separators of a data URL. *)
Definition isTypeChar (c : ascii) : bool :=
  isPrintable c && Ascii.eqb (toLower c) c && negb (isComma c) && negb (isSemi c).

Definition parseableType (t : string) : bool :=
  negb (String.eqb t EmptyString) && allChars isTypeChar t.

(** A string that carries the exact prefix of a data URL. *)
Definition hasDataUrlPrefix (s : string) : Prop :=
  exists mime payload, s = "data:" +:+ mime +:+ ";base64," +:+ payload.

(** No comma in a string. *)
Definition noComma (s : string) : bool := allChars (fun c => negb (isComma c)) s.

Record InlineData : Type := mkInlineData {
  mimeType : string;
  data : string
}.

Definition fileToPart (file : File) : result InlineData :=
  let dataUrl := readAsDataURL file in
  let arr := split_comma dataUrl in
  if (length arr <? 2)%nat then Throw (Error "Invalid data URL")
  else
    match match_colon_semi (default EmptyString (arr !! 0%nat)) with
    | None => Throw (Error "Could not parse MIME type from data URL")
    | Some g =>
        if String.eqb g EmptyString
        then Throw (Error "Could not parse MIME type from data URL")
        else Ok {| mimeType := g; data := default EmptyString (arr !! 1%nat) |}
    end.

(** The loop [while (n--) u8arr[n] = bstr.charCodeAt(n)] over an array
    that starts zeroed; an octet read outside [bstr] would store 0. *)
Fixpoint fillFromEnd (bstr : list N) (n : nat) (u8arr : list Byte.byte)
  : list Byte.byte :=
  match n with
  | O => u8arr
  | S n' =>
      let code := default 0%N (bstr !! n') in
      let octet := default Byte.x00 (Byte.of_N (code mod 256)%N) in
      fillFromEnd bstr n' (<[n' := octet]> u8arr)
  end.

(** What [atob] throws, a [DOMException], which is an [Error]; the text
    of the message is the engine's, here Chromium's. *)
Definition InvalidCharacterError : exn :=
  Error "Failed to execute 'atob' on 'Window': The string to be decoded is not correctly encoded.".

Definition dataURLtoFile (dataurl filename : string) : result File :=
  let arr := split_comma dataurl in
  if (length arr <? 2)%nat then Throw (Error "Invalid data URL")
  else
    match match_colon_semi (default EmptyString (arr !! 0%nat)) with
    | None => Throw (Error "Could not parse MIME type from data URL")
    | Some mime =>
        if String.eqb mime EmptyString
        then Throw (Error "Could not parse MIME type from data URL")
        else
          match Base64.atob (default EmptyString (arr !! 1%nat)) with
          | None => Throw InvalidCharacterError
          | Some bstr =>
              let n := length bstr in
              let u8arr := fillFromEnd bstr n (replicate n Byte.x00) in
              Ok (newFile u8arr filename mime)
          end
    end.

End Encoder.

(** ** The response validator *)
Module Validator.
Import Js.

(** The shape of [GenerateContentResponse] that the validator reads.  Every
    field is optional in the service's declarations. *)
Record Blob : Type := mkBlob {
  mimeType : option string;
  data : option string
}.

Record Part : Type := mkPart {
  inlineData : option Blob;
  partText : option string
}.

Record Content : Type := mkContent {
  parts : option (list Part)
}.

Record Candidate : Type := mkCandidate {
  content : option Content;
  finishReason : option string
}.

Record PromptFeedback : Type := mkPromptFeedback {
  blockReason : option string;
  blockReasonMessage : option string
}.

Record GenerateContentResponse : Type := mkResponse {
  promptFeedback : option PromptFeedback;
  candidates : option (list Candidate);
  text : option string
}.

Definition dquote : string := String "034" EmptyString.

(** The three messages, as the source builds them. *)
Definition blockedMessage (blockReason : string) (blockReasonMessage : option string)
  : string :=
  let userMessage :=
    "Permintaan Anda tidak dapat diproses karena diblokir oleh kebijakan keamanan ("
      +:+ blockReason +:+ ")." in
  let userMessage :=
    if truthy blockReasonMessage
    then userMessage +:+ " Detail: " +:+ tmpl blockReasonMessage
    else userMessage in
  userMessage +:+ " Coba ubah deskripsi Anda agar lebih umum.".

Definition refusedMessage (context finishReason : string) : string :=
  "Pembuatan gambar untuk " +:+ context +:+ " gagal karena kebijakan keamanan ("
    +:+ finishReason
    +:+ "). Coba ulangi perintah Anda agar lebih lugas atau kurang spesifik tentang perubahan pada orang.".

Definition noImageMessage (context : string) (textFeedback : option string) : string :=
  "Model AI tidak mengembalikan gambar untuk " +:+ context +:+ ". " +:+
    (if truthy textFeedback
     then "Model merespons dengan teks: " +:+ dquote +:+ tmpl textFeedback +:+ dquote
     else "Ini bisa terjadi karena filter keamanan atau jika permintaan terlalu rumit. Coba ulangi perintah Anda agar lebih lugas.").

(** [response.candidates?.[0]] *)
Definition firstCandidate (response : GenerateContentResponse) : option Candidate :=
  candidates response ≫= head.

(** [response.candidates?.[0]?.content?.parts?.find(part => part.inlineData)] *)
Definition imagePartFromResponse (response : GenerateContentResponse) : option Part :=
  ((firstCandidate response ≫= content) ≫= parts)
    ≫= List.find (fun part => bool_decide (is_Some (inlineData part))).

Definition handleApiResponse (response : GenerateContentResponse) (context : string)
  : result string :=
  (* 1. Check for prompt blocking first *)
  if truthy (promptFeedback response ≫= blockReason) then
    let br := tmpl (promptFeedback response ≫= blockReason) in
    let brm := promptFeedback response ≫= blockReasonMessage in
    Throw (Error (blockedMessage br brm))
  else
    (* 2. Try to find the image part *)
    match imagePartFromResponse response ≫= inlineData with
    | Some blob =>
        Ok ("data:" +:+ tmpl (mimeType blob) +:+ ";base64," +:+ tmpl (data blob))
    | None =>
        (* 3. If no image, check for other reasons *)
        let finishReason := firstCandidate response ≫= finishReason in
        if truthy finishReason
           && negb (String.eqb (tmpl finishReason) "STOP")
        then Throw (Error (refusedMessage context (tmpl finishReason)))
        else
          let textFeedback := trim <$> text response in
          Throw (Error (noImageMessage context textFeedback))
    end.

(** What the validator reads off a response. *)
Definition blockReasonOf (response : GenerateContentResponse) : option string :=
  promptFeedback response ≫= blockReason.

Definition blockReasonMessageOf (response : GenerateContentResponse) : option string :=
  promptFeedback response ≫= blockReasonMessage.

Definition inlineImageOf (response : GenerateContentResponse) : option Blob :=
  imagePartFromResponse response ≫= inlineData.

Definition finishReasonOf (response : GenerateContentResponse) : option string :=
  firstCandidate response ≫= finishReason.

Definition dataUrlOf (blob : Blob) : string :=
  "data:" +:+ tmpl (mimeType blob) +:+ ";base64," +:+ tmpl (data blob).

(** A response is blocked when it carries a block reason (a non-empty one:
    the reasons of the service are non-empty tags). *)
Definition isBlocked (response : GenerateContentResponse) : bool :=
  truthy (blockReasonOf response).

(** The first candidate holds a part with inline data. *)
Definition firstCandidateHasImage (response : GenerateContentResponse) : Prop :=
  exists c rest ps p,
    candidates response = Some (c :: rest) /\
    content c ≫= parts = Some ps /\
    p ∈ ps /\ is_Some (inlineData p).

End Validator.

(** ** The idea-suggestion operation *)
Module Suggest.
Import Js.

Inductive Context : Type := retouch | filter | adjustment | background.

(** What [await ai.models.generateContent(...)] does for the request of a
    given context: it rejects, or it resolves with a response whose [text]
    is a string or is missing. *)
Inductive Remote : Type :=
| Rejects (e : exn)
| Resolves (text : option string).

(** Reading [.trim] of [undefined] throws a [TypeError]; the text of its
    message is the engine's. *)
Definition TypeError : exn :=
  Error "Cannot read properties of undefined (reading 'trim')".

(** The body of the [try] block. *)
Definition suggestion (remote : Remote) : result string :=
  match remote with
  | Rejects e => Throw e
  | Resolves None => Throw TypeError
  | Resolves (Some t) =>
      let text := stripQuotes (trim t) in
      if String.eqb text EmptyString
      then Throw (Error "AI tidak mengembalikan saran.")
      else Ok text
  end.

(** [generateRandomPrompt context], given what the remote capability
    answers to the instruction built for [context]; the instruction is a
    fixed text around the tag of the context. *)
Definition generateRandomPrompt (context : Context) (remote : Context -> Remote)
  : result string :=
  match suggestion (remote context) with
  | Ok text => Ok text
  | Throw err =>
      let errorMessage := messageOr "Terjadi kesalahan tidak dikenal." err in
      Throw (Error ("Gagal mendapatkan ide dari AI. " +:+ errorMessage))
  end.

End Suggest.

(** ** The application state and its handlers *)
Module App.
Import Js.
Export Encoder.

Record ImageState : Type := mkImageState {
  original : File;
  history : list File;
  historyIndex : Z
}.

(** [Partial<ImageState>] and the spread [{ ...img, ...updates }]. *)
Record PartialImageState : Type := mkPartial {
  original_opt : option File;
  history_opt : option (list File);
  historyIndex_opt : option Z
}.

Definition spread (img : ImageState) (updates : PartialImageState) : ImageState :=
  {| original := default (original img) (original_opt updates);
     history := default (history img) (history_opt updates);
     historyIndex := default (historyIndex img) (historyIndex_opt updates) |}.

Definition onlyHistoryIndex (i : Z) : PartialImageState :=
  {| original_opt := None; history_opt := None; historyIndex_opt := Some i |}.

Inductive Tab : Type := TabRetouch | TabAdjust | TabFilters | TabCrop.

Record Crop : Type := mkCrop { cropX : Z; cropY : Z; cropWidth : Z; cropHeight : Z }.

(** The [useState] cells of [App] that the modelled handlers read or write. *)
Record AppState : Type := mkAppState {
  images : list ImageState;
  activeImageIndex : Z;
  prompt : string;
  loadingMessage : option string;
  error : option string;
  editHotspots : list (Z * Z);
  displayHotspots : list (Z * Z);
  activeTab : Tab;
  crop : option Crop;
  completedCrop : option Crop;
  generatedBackground : option File;
  generatedBackgroundUrl : option string
}.

(** The state of a fresh [App]. *)
Definition initialState : AppState :=
  {| images := []; activeImageIndex := -1; prompt := EmptyString;
     loadingMessage := None; error := None;
     editHotspots := []; displayHotspots := []; activeTab := TabRetouch;
     crop := None; completedCrop := None;
     generatedBackground := None; generatedBackgroundUrl := None |}.

(** Setters, one per cell. *)
Definition setImages (f : list ImageState -> list ImageState) (st : AppState) : AppState :=
  {| images := f (images st); activeImageIndex := activeImageIndex st;
     prompt := prompt st; loadingMessage := loadingMessage st; error := error st;
     editHotspots := editHotspots st; displayHotspots := displayHotspots st;
     activeTab := activeTab st; crop := crop st; completedCrop := completedCrop st;
     generatedBackground := generatedBackground st;
     generatedBackgroundUrl := generatedBackgroundUrl st |}.

Definition setActiveImageIndex (i : Z) (st : AppState) : AppState :=
  {| images := images st; activeImageIndex := i;
     prompt := prompt st; loadingMessage := loadingMessage st; error := error st;
     editHotspots := editHotspots st; displayHotspots := displayHotspots st;
     activeTab := activeTab st; crop := crop st; completedCrop := completedCrop st;
     generatedBackground := generatedBackground st;
     generatedBackgroundUrl := generatedBackgroundUrl st |}.

Definition setLoadingMessage (m : option string) (st : AppState) : AppState :=
  {| images := images st; activeImageIndex := activeImageIndex st;
     prompt := prompt st; loadingMessage := m; error := error st;
     editHotspots := editHotspots st; displayHotspots := displayHotspots st;
     activeTab := activeTab st; crop := crop st; completedCrop := completedCrop st;
     generatedBackground := generatedBackground st;
     generatedBackgroundUrl := generatedBackgroundUrl st |}.

Definition setError (e : option string) (st : AppState) : AppState :=
  {| images := images st; activeImageIndex := activeImageIndex st;
     prompt := prompt st; loadingMessage := loadingMessage st; error := e;
     editHotspots := editHotspots st; displayHotspots := displayHotspots st;
     activeTab := activeTab st; crop := crop st; completedCrop := completedCrop st;
     generatedBackground := generatedBackground st;
     generatedBackgroundUrl := generatedBackgroundUrl st |}.

(** [setEditHotspots([]); setDisplayHotspots([])] *)
Definition clearHotspots (st : AppState) : AppState :=
  {| images := images st; activeImageIndex := activeImageIndex st;
     prompt := prompt st; loadingMessage := loadingMessage st; error := error st;
     editHotspots := []; displayHotspots := [];
     activeTab := activeTab st; crop := crop st; completedCrop := completedCrop st;
     generatedBackground := generatedBackground st;
     generatedBackgroundUrl := generatedBackgroundUrl st |}.

(** [setCrop(undefined); setCompletedCrop(undefined)] *)
Definition clearCrop (st : AppState) : AppState :=
  {| images := images st; activeImageIndex := activeImageIndex st;
     prompt := prompt st; loadingMessage := loadingMessage st; error := error st;
     editHotspots := editHotspots st; displayHotspots := displayHotspots st;
     activeTab := activeTab st; crop := None; completedCrop := None;
     generatedBackground := generatedBackground st;
     generatedBackgroundUrl := generatedBackgroundUrl st |}.

(** [setGeneratedBackground(null); setGeneratedBackgroundUrl(null)] *)
Definition clearGeneratedBackground (st : AppState) : AppState :=
  {| images := images st; activeImageIndex := activeImageIndex st;
     prompt := prompt st; loadingMessage := loadingMessage st; error := error st;
     editHotspots := editHotspots st; displayHotspots := displayHotspots st;
     activeTab := activeTab st; crop := crop st; completedCrop := completedCrop st;
     generatedBackground := None; generatedBackgroundUrl := None |}.

Definition setActiveTab (t : Tab) (st : AppState) : AppState :=
  {| images := images st; activeImageIndex := activeImageIndex st;
     prompt := prompt st; loadingMessage := loadingMessage st; error := error st;
     editHotspots := editHotspots st; displayHotspots := displayHotspots st;
     activeTab := t; crop := crop st; completedCrop := completedCrop st;
     generatedBackground := generatedBackground st;
     generatedBackgroundUrl := generatedBackgroundUrl st |}.

Definition setPrompt (p : string) (st : AppState) : AppState :=
  {| images := images st; activeImageIndex := activeImageIndex st;
     prompt := p; loadingMessage := loadingMessage st; error := error st;
     editHotspots := editHotspots st; displayHotspots := displayHotspots st;
     activeTab := activeTab st; crop := crop st; completedCrop := completedCrop st;
     generatedBackground := generatedBackground st;
     generatedBackgroundUrl := generatedBackgroundUrl st |}.

(** Values derived at each render. *)
Definition activeImageState (st : AppState) : option ImageState :=
  index (images st) (activeImageIndex st).

Definition currentImage (st : AppState) : option File :=
  activeImageState st ≫= fun s => index (history s) (historyIndex s).

Definition canUndo (st : AppState) : bool :=
  match activeImageState st with
  | Some s => 0 <? historyIndex s
  | None => false
  end.

Definition canRedo (st : AppState) : bool :=
  match activeImageState st with
  | Some s => historyIndex s <? Z.of_nat (length (history s)) - 1
  | None => false
  end.

Definition updateImageState (idx : Z) (updates : PartialImageState) (st : AppState)
  : AppState :=
  setImages (imap (fun i img => if Z.of_nat i =? idx then spread img updates else img)) st.

(** [addImageToHistory], with the [activeImageIndex] its closure holds. *)
Definition addImageToHistory (closureActiveIndex : Z)
    (newImageFile : File) (idx : Z) (st : AppState) : AppState :=
  let st :=
    setImages (fun prevImages =>
      match index prevImages idx with
      | None => prevImages
      | Some targetImage =>
          let newHistory :=
            slice0 (history targetImage) (historyIndex targetImage + 1)
              ++ [newImageFile] in
          <[Z.to_nat idx :=
              {| original := original targetImage;
                 history := newHistory;
                 historyIndex := Z.of_nat (length newHistory) - 1 |}]> prevImages
      end) st in
  if idx =? closureActiveIndex then clearCrop st else st.

Definition handleImageUpload (files : list File) (st : AppState) : AppState :=
  let st := setError None st in
  let newImages :=
    (fun file => {| original := file; history := [file]; historyIndex := 0 |}) <$> files in
  let st := setImages (fun _ => newImages) st in
  let st := setActiveImageIndex 0 st in
  let st := clearHotspots st in
  let st := setActiveTab TabRetouch st in
  let st := clearCrop st in
  clearGeneratedBackground st.

Definition handleUndo (st : AppState) : AppState :=
  match activeImageState st with
  | Some s =>
      if canUndo st
      then clearHotspots
             (updateImageState (activeImageIndex st) (onlyHistoryIndex (historyIndex s - 1)) st)
      else st
  | None => st
  end.

Definition handleRedo (st : AppState) : AppState :=
  match activeImageState st with
  | Some s =>
      if canRedo st
      then clearHotspots
             (updateImageState (activeImageIndex st) (onlyHistoryIndex (historyIndex s + 1)) st)
      else st
  | None => st
  end.

Definition handleReset (st : AppState) : AppState :=
  match activeImageState st with
  | Some _ =>
      let st := updateImageState (activeImageIndex st) (onlyHistoryIndex 0) st in
      let st := setError None st in
      let st := clearHotspots st in
      clearGeneratedBackground st
  | None => st
  end.

Definition handleUploadNew (st : AppState) : AppState :=
  let st := setImages (fun _ => []) st in
  let st := setActiveImageIndex (-1) st in
  let st := setError None st in
  let st := setPrompt EmptyString st in
  let st := clearHotspots st in
  clearGeneratedBackground st.

Definition handleSelectImage (idx : Z) (st : AppState) : AppState :=
  clearCrop (clearHotspots (setActiveImageIndex idx st)).

End App.

(** ** The batch controller *)
Module Batch.
Import Js.
Export App.

(** One invocation of the remote operation: the image and the prompt it was
    given. *)
Record Call : Type := mkCall { callImage : File; callPrompt : string }.

(** How one run of the loop ends: normally, or with the value thrown. *)
Record LoopEnd : Type := mkLoopEnd {
  endState : AppState;
  endCalls : list Call;
  endThrown : option exn
}.

Section Controller.
(** [operation i image prompt] is what the awaited call of iteration [i]
    settles to (the remote service need not answer twice alike);
    [now i] is [Date.now()] read in iteration [i]. *)
Variable operation : nat -> File -> string -> result string.
Variable now : nat -> Z.
Variable promptArg : string.
Variable operationName : string.
Variable applyToAll : bool.

(** [applyToAll ? images.map((_, i) => i) : [activeImageIndex]] *)
Definition batchTargets (st : AppState) : list Z :=
  if applyToAll then imap (fun i _ => Z.of_nat i) (images st)
  else [activeImageIndex st].

(** [targets.some(i => i < 0 || !images[i])] *)
Definition someInvalidTarget (st : AppState) : bool :=
  existsb (fun i => (i <? 0) || negb (bool_decide (is_Some (index (images st) i))))
          (batchTargets st).

Definition noTargetMessage : string :=
  "Tidak ada gambar yang dipilih untuk menerapkan " +:+ operationName +:+ ".".

Definition progressMessage (i total : nat) : string :=
  if applyToAll
  then "Menerapkan " +:+ operationName +:+ " ke gambar " +:+ showNat (i + 1)
         +:+ " dari " +:+ showNat total +:+ "..."
  else "AI sedang menerapkan " +:+ operationName +:+ "...".

Definition resultFileName (i : nat) : string :=
  operationName +:+ "-" +:+ showZ (now i) +:+ ".png".

(** Reading [.history] of [undefined] throws; the guard before the loop
    rules it out.  The text of the message is the engine's. *)
Definition TypeError : exn :=
  Error "Cannot read properties of undefined (reading 'history')".

(** The [for] loop from iteration [i] on; [snap] is the state the handler
    closed over, [cur] the state the queued updates have produced. *)
Fixpoint batchLoop (snap : AppState) (total : nat) (targets : list Z) (i : nat)
    (cur : AppState) (calls : list Call) : LoopEnd :=
  match targets with
  | [] => mkLoopEnd cur calls None
  | imageIndex :: rest =>
      match index (images snap) imageIndex with
      | None => mkLoopEnd cur calls (Some TypeError)
      | Some imageState =>
          match index (history imageState) (historyIndex imageState) with
          | None => batchLoop snap total rest (S i) cur calls
          | Some imageToProcess =>
              let cur := setLoadingMessage (Some (progressMessage i total)) cur in
              let calls := calls ++ [mkCall imageToProcess promptArg] in
              match operation i imageToProcess promptArg with
              | Throw err => mkLoopEnd cur calls (Some err)
              | Ok resultUrl =>
                  match dataURLtoFile resultUrl (resultFileName i) with
                  | Throw err => mkLoopEnd cur calls (Some err)
                  | Ok newImageFile =>
                      batchLoop snap total rest (S i)
                        (addImageToHistory (activeImageIndex snap)
                           newImageFile imageIndex cur)
                        calls
                  end
              end
          end
      end
  end.

(** What iteration [i] obtains from [imageToProcess]: the file decoded
    from the URL the operation resolves with, or what either of the two
    throws. *)
Definition settle (i : nat) (imageToProcess : File) : result File :=
  bind (operation i imageToProcess promptArg)
       (fun resultUrl => dataURLtoFile resultUrl (resultFileName i)).

(** [images[t].history[images[t].historyIndex]] *)
Definition shownAt (st : AppState) (t : Z) : option File :=
  index (images st) t ≫= fun s => index (history s) (historyIndex s).

(** The image that iteration [j] hands to the operation. *)
Definition targetInput (st : AppState) (j : nat) : option File :=
  batchTargets st !! j ≫= shownAt st.

Definition failureMessage (err : exn) : string :=
  "Gagal menerapkan " +:+ operationName +:+ ". "
    +:+ messageOr "Terjadi kesalahan tidak dikenal." err.

(** The handler: the state it leaves and the remote calls it made. *)
Definition handleApplyBatchOperation (st : AppState) : AppState * list Call :=
  let targets := batchTargets st in
  if someInvalidTarget st then (setError (Some noTargetMessage) st, [])
  else
    let e := batchLoop st (length targets) targets 0 (setError None st) [] in
    let cur :=
      match endThrown e with
      | Some err => setError (Some (failureMessage err)) (endState e)
      | None => endState e
      end in
    (setLoadingMessage None cur, endCalls e).

End Controller.

(** The two users of the controller. *)
Definition handleApplyFilter
    (generateFilteredImage : nat -> File -> string -> result string) (now : nat -> Z)
    (filterPrompt : string) (applyToAll : bool) :=
  handleApplyBatchOperation generateFilteredImage now filterPrompt "filter" applyToAll.

Definition handleApplyAdjustment
    (generateAdjustedImage : nat -> File -> string -> result string) (now : nat -> Z)
    (adjustmentPrompt : string) (applyToAll : bool) :=
  handleApplyBatchOperation generateAdjustedImage now adjustmentPrompt "penyesuaian" applyToAll.

End Batch.

(** ** Sequences of user actions on the history *)
Module Session.
Export App.

Inductive Action : Type :=
| AppendHistory (newImageFile : File) (idx : Z)
| Undo
| Redo
| Reset
| SelectImage (idx : Z).

(** Each handler runs against the state of the latest render, so the
    closure of [addImageToHistory] holds the current [activeImageIndex]. *)
Definition step (st : AppState) (a : Action) : AppState :=
  match a with
  | AppendHistory f idx => addImageToHistory (activeImageIndex st) f idx st
  | Undo => handleUndo st
  | Redo => handleRedo st
  | Reset => handleReset st
  | SelectImage idx => handleSelectImage idx st
  end.

Definition run (st : AppState) (actions : list Action) : AppState :=
  fold_left step actions st.

(** The invariant of one image, and of the collection. *)
Definition cursorInRange (s : ImageState) : Prop :=
  0 <= historyIndex s < Z.of_nat (length (history s)).

Definition wellFormed (st : AppState) : Prop :=
  Forall cursorInRange (images st).

(** The same image with the cursor elsewhere. *)
Definition withCursor (s : ImageState) (i : Z) : ImageState :=
  {| original := original s; history := history s; historyIndex := i |}.

(** What [addImageToHistory] is specified to do to one image: keep the
    entries up to the cursor, append the new one, point at it. *)
Definition appended (s : ImageState) (newImageFile : File) : ImageState :=
  {| original := original s;
     history := take (Z.to_nat (historyIndex s) + 1) (history s) ++ [newImageFile];
     historyIndex := historyIndex s + 1 |}.

End Session.

(** ** Concrete inputs, used to run the model *)
Module Samples.
Import Js.
Export Session Batch.

Definition fileA : File :=
  {| name := "a.png"; type := "image/png"; bytes := [Byte.x41; Byte.x42; Byte.x43] |}.
Definition fileB : File :=
  {| name := "b.jpg"; type := "image/jpeg"; bytes := [Byte.xff; Byte.xd8] |}.
Definition fileC : File :=
  {| name := "c.webp"; type := "image/webp"; bytes := [Byte.x52] |}.

(** Three uploaded images. *)
Definition threeImages : AppState :=
  handleImageUpload [fileA; fileB; fileC] initialState.

(** One image, edited once, then undone: history [A; B], cursor 0. *)
Definition editedThenUndone : AppState :=
  run (handleImageUpload [fileA] initialState) [AppendHistory fileB 0; Undo].

(** One image, edited twice: history [A; B; C], cursor 2. *)
Definition editedTwice : AppState :=
  run (handleImageUpload [fileA] initialState)
      [AppendHistory fileB 0; AppendHistory fileC 0].

(** A remote operation that answers the first call with an image and
    rejects every later call. *)
Definition firstCallOnly : nat -> File -> string -> result string :=
  fun i _ _ =>
    match i with
    | O => Ok "data:image/png;base64,QUJD"
    | S _ => Throw (Error "quota exceeded")
    end.

Definition clock : nat -> Z := fun i => 1700000000000 + Z.of_nat i.

(** The file decoded from the answer to the first call. *)
Definition firstResult : File :=
  {| name := "filter-1700000000000.png"; type := "image/png";
     bytes := [Byte.x41; Byte.x42; Byte.x43] |}.

(** Responses of the service. *)
Definition imagePart : Validator.Part :=
  Validator.mkPart (Some (Validator.mkBlob (Some "image/png") (Some "QUJD"))) None.

Definition textPart : Validator.Part :=
  Validator.mkPart None (Some "I cannot do that.").

Definition candidateWith (ps : list Validator.Part) (reason : string)
  : Validator.Candidate :=
  Validator.mkCandidate (Some (Validator.mkContent (Some ps))) (Some reason).

(** Blocked, and an image all the same. *)
Definition blockedWithImage : Validator.GenerateContentResponse :=
  Validator.mkResponse
    (Some (Validator.mkPromptFeedback (Some "SAFETY") None))
    (Some [candidateWith [imagePart] "STOP"]) None.

(** An image, and a finish reason that is not STOP. *)
Definition imageWithRefusal : Validator.GenerateContentResponse :=
  Validator.mkResponse None (Some [candidateWith [textPart; imagePart] "SAFETY"]) None.

(** The image is in the second candidate only. *)
Definition imageInSecondCandidate : Validator.GenerateContentResponse :=
  Validator.mkResponse None
    (Some [candidateWith [textPart] "STOP"; candidateWith [imagePart] "STOP"]) None.

(** A string that decodes although it is no data URL. *)
Definition looseUrl : string := "x:image/png;,QUJD".

End Samples.

(** ** The operations of the service module *)
Module Service.
Import Js.
Export Encoder.

(** A part of a request: inline data, or text. *)
Inductive RequestPart : Type :=
| InlinePart (inlineData : InlineData)
| TextPart (text : string).

(** [{ model, contents: { parts } }] *)
Record Request : Type := mkRequest {
  model : string;
  requestParts : list RequestPart
}.

(** What [await ai.models.generateContent(request)] settles to. *)
Definition ContentService : Type :=
  Request -> result Validator.GenerateContentResponse.

Definition nl : string := String "010" EmptyString.
Definition dquote : string := String "034" EmptyString.

(** [parts.join(sep)] *)
Fixpoint join (sep : string) (parts : list string) : string :=
  match parts with
  | [] => EmptyString
  | [p] => p
  | p :: rest => p +:+ sep +:+ join sep rest
  end.

(** A hotspot: pixel coordinates, integers made by [Math.round] from a
    position inside the image, so that the template literal prints every
    digit of them. *)
Definition hotspotString (hotspots : list (Z * Z)) : string :=
  join ", " ((fun p => "(x: " +:+ showZ p.1 +:+ ", y: " +:+ showZ p.2 +:+ ")") <$> hotspots).

Definition editPrompt (userPrompt hotspotString : string) : string :=
  "You are an expert photo editor AI. Your task is to perform a natural, localized edit on the provided image based on the user's request. The edit should intelligently incorporate all specified locations." +:+ nl
    +:+ "User Request: " +:+ dquote +:+ userPrompt +:+ dquote +:+ nl
    +:+ "Edit Locations: Focus on the areas around these pixel coordinates: " +:+ hotspotString +:+ ". For edits affecting a single object (e.g., changing shirt color), treat these points as markers on that object. For edits adding elements, consider these points as placement guides." +:+ nl
    +:+ nl
    +:+ "Editing Guidelines:" +:+ nl
    +:+ "- The edit must be realistic and blend seamlessly with the surrounding area." +:+ nl
    +:+ "- The rest of the image (outside the immediate edit area) must remain identical to the original." +:+ nl
    +:+ "- CRITICAL: Preserve the subject's identity. Do not alter core facial features or change their fundamental ethnicity. Edits should enhance, not replace. Even if a point is on a person's face for an unrelated edit (e.g., changing hair color), you must ONLY perform the requested edit and leave the face unchanged. The subject's identity and facial features must be preserved perfectly." +:+ nl
    +:+ nl
    +:+ "Output: Return ONLY the final edited image. Do not return text.".

Definition filterPromptText (filterPrompt : string) : string :=
  "You are an expert photo editor AI. Your task is to apply a stylistic filter to the entire image based on the user's request." +:+ nl
    +:+ "Filter Request: " +:+ dquote +:+ filterPrompt +:+ dquote +:+ nl
    +:+ nl
    +:+ "Filter Guidelines:" +:+ nl
    +:+ "- Do not change the composition or content, only apply the style." +:+ nl
    +:+ "- The filter must not alter a person's fundamental ethnicity or core identity." +:+ nl
    +:+ nl
    +:+ "Output: Return ONLY the final filtered image. Do not return text.".

Definition adjustmentPromptText (adjustmentPrompt : string) : string :=
  "You are an expert photo editor AI. Your task is to perform a natural, global adjustment to the entire image based on the user's request." +:+ nl
    +:+ "User Request: " +:+ dquote +:+ adjustmentPrompt +:+ dquote +:+ nl
    +:+ nl
    +:+ "Editing Guidelines:" +:+ nl
    +:+ "- The adjustment must be applied across the entire image." +:+ nl
    +:+ "- The result must be photorealistic." +:+ nl
    +:+ "- Preserve the subject's identity. Do not change their fundamental ethnicity. Global adjustments like lighting or color temperature should be applied naturally without altering a person's core characteristics." +:+ nl
    +:+ nl
    +:+ "Output: Return ONLY the final adjusted image. Do not return text.".

Definition compositePromptText : string :=
  "You are an expert photo editor AI. Your task is to perfectly composite the main subject from the first image onto the second image (the new background)." +:+ nl
    +:+ nl
    +:+ "Instructions:" +:+ nl
    +:+ "1. Identify and isolate the main subject(s) in the first image." +:+ nl
    +:+ "2. Place the isolated subject(s) onto the second image, which serves as the new background." +:+ nl
    +:+ "3. The final image dimensions must match the background image." +:+ nl
    +:+ "4. Seamlessly blend the subject with the new background. Adjust lighting, shadows, and color grading on the subject to match the environment of the background image for a photorealistic result." +:+ nl
    +:+ "5. Do not include any part of the original background from the first image." +:+ nl
    +:+ nl
    +:+ "Output: Return ONLY the final composited image. Do not return text.".

Definition imageModel : string := "gemini-2.5-flash-image-preview".

Definition generateEditedImage (generateContent : ContentService)
    (originalImage : File) (userPrompt : string) (hotspots : list (Z * Z))
  : result string :=
  bind (fileToPart originalImage) (fun originalImagePart =>
    let prompt := editPrompt userPrompt (hotspotString hotspots) in
    bind (generateContent
            {| model := imageModel;
               requestParts := [InlinePart originalImagePart; TextPart prompt] |})
         (fun response => Validator.handleApiResponse response "edit")).

Definition generateFilteredImage (generateContent : ContentService)
    (originalImage : File) (filterPrompt : string) : result string :=
  bind (fileToPart originalImage) (fun originalImagePart =>
    let prompt := filterPromptText filterPrompt in
    bind (generateContent
            {| model := imageModel;
               requestParts := [InlinePart originalImagePart; TextPart prompt] |})
         (fun response => Validator.handleApiResponse response "filter")).

Definition generateAdjustedImage (generateContent : ContentService)
    (originalImage : File) (adjustmentPrompt : string) : result string :=
  bind (fileToPart originalImage) (fun originalImagePart =>
    let prompt := adjustmentPromptText adjustmentPrompt in
    bind (generateContent
            {| model := imageModel;
               requestParts := [InlinePart originalImagePart; TextPart prompt] |})
         (fun response => Validator.handleApiResponse response "adjustment")).

Definition applyBackgroundToImage (generateContent : ContentService)
    (subjectImage backgroundImage : File) : result string :=
  bind (fileToPart subjectImage) (fun subjectImagePart =>
    bind (fileToPart backgroundImage) (fun backgroundImagePart =>
      bind (generateContent
              {| model := imageModel;
                 requestParts := [InlinePart subjectImagePart;
                                  InlinePart backgroundImagePart;
                                  TextPart compositePromptText] |})
           (fun response =>
              Validator.handleApiResponse response "background replacement"))).

(** *** Background generation *)
Inductive AspectRatio : Type := Ratio1x1 | Ratio3x4 | Ratio4x3 | Ratio9x16 | Ratio16x9.

Definition aspectTag (a : AspectRatio) : string :=
  match a with
  | Ratio1x1 => "1:1"
  | Ratio3x4 => "3:4"
  | Ratio4x3 => "4:3"
  | Ratio9x16 => "9:16"
  | Ratio16x9 => "16:9"
  end.

Record ImagesRequest : Type := mkImagesRequest {
  imagesModel : string;
  imagesPrompt : string;
  numberOfImages : nat;
  outputMimeType : string;
  aspectRatio : string
}.

(** The response of [generateImages]; each field is optional in the
    service's declarations. *)
Record Image : Type := mkImage { imageBytes : option string }.
Record GeneratedImage : Type := mkGeneratedImage { image : option Image }.
Record GenerateImagesResponse : Type := mkImagesResponse {
  generatedImages : option (list GeneratedImage)
}.

Definition ImagesService : Type := ImagesRequest -> result GenerateImagesResponse.

(** Reading [.imageBytes] of [undefined] throws a [TypeError]; the text of
    its message is the engine's. *)
Definition ImageTypeError : exn :=
  Error "Cannot read properties of undefined (reading 'imageBytes')".

Definition backgroundPromptText (prompt : string) : string :=
  "Generate a high-quality, photorealistic background image. The scene should be: " +:+ prompt +:+ ". The image should not contain any primary subjects, people, or animals; it should be a background scene.".

(** The body of the [try] block. *)
Definition generateBackgroundBody (generateImages : ImagesService)
    (prompt : string) (aspect : AspectRatio) : result string :=
  bind (generateImages
          {| imagesModel := "imagen-4.0-generate-001";
             imagesPrompt := backgroundPromptText prompt;
             numberOfImages := 1;
             outputMimeType := "image/png";
             aspectRatio := aspectTag aspect |})
       (fun response =>
          match generatedImages response with
          | Some (first :: _) =>
              match image first with
              | Some img => Ok ("data:image/png;base64," +:+ tmpl (imageBytes img))
              | None => Throw ImageTypeError
              end
          | _ =>
              Throw (Error "Pembuatan latar belakang gagal: Model AI tidak mengembalikan gambar.")
          end).

Definition generateBackgroundImage (generateImages : ImagesService)
    (prompt : string) (aspect : AspectRatio) : result string :=
  match generateBackgroundBody generateImages prompt aspect with
  | Ok url => Ok url
  | Throw err =>
      Throw (Error (messageOr
                      "Terjadi kesalahan tidak dikenal saat pembuatan latar belakang." err))
  end.

End Service.

(** ** The remaining handlers of the application *)
Module Editor.
Import Js.
Export Batch Session.

(** One invocation of [generateEditedImage]. *)
Record EditCall : Type := mkEditCall {
  editedImage : File;
  editedPrompt : string;
  editedHotspots : list (Z * Z)
}.

(** [handleFileSelect]; [files] is [None] for a [null] list. *)
Definition handleFileSelect (files : option (list File)) (st : AppState) : AppState :=
  match files with
  | Some (f :: fs) => handleImageUpload (f :: fs) st
  | _ => st
  end.

(** [handleGenerate]: the state it leaves and the calls of
    [generateEditedImage] it made; [now] is [Date.now()] read after the
    call. *)
Definition handleGenerate (generateContent : Service.ContentService) (now : Z)
    (st : AppState) : AppState * list EditCall :=
  match currentImage st with
  | None => (setError (Some "Tidak ada gambar yang dimuat untuk diedit.") st, [])
  | Some image =>
      if String.eqb (trim (prompt st)) EmptyString then
        (setError (Some "Silakan masukkan deskripsi untuk editan Anda.") st, [])
      else if (length (editHotspots st) =? 0)%nat then
        (setError (Some "Silakan klik pada gambar untuk memilih area yang akan diedit.") st, [])
      else
        let call := mkEditCall image (prompt st) (editHotspots st) in
        let attempt :=
          bind (Service.generateEditedImage generateContent image (prompt st) (editHotspots st))
               (fun editedImageUrl =>
                  dataURLtoFile editedImageUrl ("edited-" +:+ showZ now +:+ ".png")) in
        let started := setError None (setLoadingMessage (Some "AI sedang bekerja...") st) in
        let settled :=
          match attempt with
          | Ok newImageFile =>
              clearHotspots
                (addImageToHistory (activeImageIndex st) newImageFile (activeImageIndex st)
                   started)
          | Throw err =>
              setError (Some ("Gagal menghasilkan gambar. "
                                +:+ messageOr "Terjadi kesalahan tidak dikenal." err))
                       started
          end in
        (setLoadingMessage None settled, [call])
  end.

(** *** Applying the generated background *)
Record BackgroundCall : Type := mkBackgroundCall {
  subjectOfCall : File;
  backgroundOfCall : File
}.

Record BackgroundLoopEnd : Type := mkBackgroundLoopEnd {
  bgEndState : AppState;
  bgEndCalls : list BackgroundCall;
  bgEndThrown : option exn
}.

Section ApplyBackground.
(** [generateContent i] is the remote service as it answers in iteration
    [i]; [now i] is [Date.now()] read in iteration [i]. *)
Variable generateContent : nat -> Service.ContentService.
Variable now : nat -> Z.
Variable applyToAll : bool.

Definition backgroundProgress (i total : nat) : string :=
  if applyToAll
  then "Menerapkan latar belakang ke gambar " +:+ showNat (i + 1)
         +:+ " dari " +:+ showNat total +:+ "..."
  else "AI sedang menerapkan latar belakang...".

Fixpoint backgroundLoop (generatedBackground : File) (snap : AppState) (total : nat)
    (targets : list Z) (i : nat) (cur : AppState) (calls : list BackgroundCall)
  : BackgroundLoopEnd :=
  match targets with
  | [] => mkBackgroundLoopEnd cur calls None
  | imageIndex :: rest =>
      match index (images snap) imageIndex with
      | None => mkBackgroundLoopEnd cur calls (Some Batch.TypeError)
      | Some imageState =>
          match index (history imageState) (historyIndex imageState) with
          | None => backgroundLoop generatedBackground snap total rest (S i) cur calls
          | Some imageToProcess =>
              let cur := setLoadingMessage (Some (backgroundProgress i total)) cur in
              let calls := calls ++ [mkBackgroundCall imageToProcess generatedBackground] in
              match Service.applyBackgroundToImage (generateContent i)
                      imageToProcess generatedBackground with
              | Throw err => mkBackgroundLoopEnd cur calls (Some err)
              | Ok resultUrl =>
                  match dataURLtoFile resultUrl
                          ("bg-applied-" +:+ showZ (now i) +:+ ".png") with
                  | Throw err => mkBackgroundLoopEnd cur calls (Some err)
                  | Ok newImageFile =>
                      backgroundLoop generatedBackground snap total rest (S i)
                        (addImageToHistory (activeImageIndex snap)
                           newImageFile imageIndex cur)
                        calls
                  end
              end
          end
      end
  end.

Definition handleApplyBackground (st : AppState) : AppState * list BackgroundCall :=
  match generatedBackground st with
  | None =>
      (setError (Some "Tidak ada latar belakang yang dibuat untuk diterapkan.") st, [])
  | Some background =>
      let targets := batchTargets applyToAll st in
      if someInvalidTarget applyToAll st then
        (setError (Some "Tidak ada gambar yang dipilih untuk menerapkan latar belakang.") st,
         [])
      else
        let e := backgroundLoop background st (length targets) targets 0
                   (setError None st) [] in
        let cur :=
          match bgEndThrown e with
          | Some err =>
              setError (Some ("Gagal menerapkan latar belakang. "
                                +:+ messageOr "Terjadi kesalahan tidak dikenal." err))
                       (bgEndState e)
          | None => bgEndState e
          end in
        (setLoadingMessage None cur, bgEndCalls e)
  end.

(** What iteration [i] obtains from [imageToProcess]. *)
Definition settleBackground (background : File) (i : nat) (imageToProcess : File)
  : result File :=
  bind (Service.applyBackgroundToImage (generateContent i) imageToProcess background)
       (fun resultUrl => dataURLtoFile resultUrl ("bg-applied-" +:+ showZ (now i) +:+ ".png")).

End ApplyBackground.

(** *** The idea for the retouch prompt *)

(** The cells of [App] next to [AppState] that the idea handler uses. *)
Record IdeaState : Type := mkIdeaState {
  app : AppState;
  isGeneratingIdea : bool
}.

(** [handleGenerateRandomRetouchPrompt], run to its end. *)
Definition handleGenerateRandomRetouchPrompt (remote : Suggest.Context -> Suggest.Remote)
    (st : IdeaState) : IdeaState :=
  if isGeneratingIdea st then st
  else
    let a := setError None (app st) in
    let a :=
      match Suggest.generateRandomPrompt Suggest.retouch remote with
      | Ok idea => setPrompt idea a
      | Throw err => setError (Some (messageOr "Terjadi kesalahan tidak dikenal." err)) a
      end in
    {| app := a; isGeneratingIdea := false |}.

(** The operations the two batch handlers pass to the controller, with the
    remote service as it answers in each iteration. *)
Definition filterOperation (generateContent : nat -> Service.ContentService)
  : nat -> File -> string -> result string :=
  fun i image filterPrompt =>
    Service.generateFilteredImage (generateContent i) image filterPrompt.

Definition adjustmentOperation (generateContent : nat -> Service.ContentService)
  : nat -> File -> string -> result string :=
  fun i image adjustmentPrompt =>
    Service.generateAdjustedImage (generateContent i) image adjustmentPrompt.

End Editor.

(** ** The filter panel and the adjustment panel *)
Module Panels.
Import Js.

(** The cells the two panels share; [AdjustmentPanel] has the prompt of the
    background and its idea flag besides. *)
Record PanelState : Type := mkPanelState {
  selectedPresetPrompt : option string;
  customPrompt : string;
  backgroundPrompt : string;
  isGeneratingIdea : bool;
  isGeneratingBgIdea : bool
}.

Definition initialPanel : PanelState :=
  {| selectedPresetPrompt := None; customPrompt := EmptyString;
     backgroundPrompt := EmptyString;
     isGeneratingIdea := false; isGeneratingBgIdea := false |}.

(** [selectedPresetPrompt || customPrompt] *)
Definition activePrompt (p : PanelState) : string :=
  if truthy (selectedPresetPrompt p) then tmpl (selectedPresetPrompt p)
  else customPrompt p.

Definition handlePresetClick (prompt : string) (p : PanelState) : PanelState :=
  {| selectedPresetPrompt := Some prompt; customPrompt := EmptyString;
     backgroundPrompt := backgroundPrompt p;
     isGeneratingIdea := isGeneratingIdea p; isGeneratingBgIdea := isGeneratingBgIdea p |}.

Definition handleCustomChange (value : string) (p : PanelState) : PanelState :=
  {| selectedPresetPrompt := None; customPrompt := value;
     backgroundPrompt := backgroundPrompt p;
     isGeneratingIdea := isGeneratingIdea p; isGeneratingBgIdea := isGeneratingBgIdea p |}.

Definition setBackgroundPrompt (value : string) (p : PanelState) : PanelState :=
  {| selectedPresetPrompt := selectedPresetPrompt p; customPrompt := customPrompt p;
     backgroundPrompt := value;
     isGeneratingIdea := isGeneratingIdea p; isGeneratingBgIdea := isGeneratingBgIdea p |}.

(** [handleApply]: the call of [onApply] it makes, if any. *)
Definition handleApply (applyToAll : bool) (p : PanelState) : option (string * bool) :=
  if String.eqb (activePrompt p) EmptyString then None
  else Some (activePrompt p, applyToAll).

(** [handleGenerateBackground] of the panel: the call of
    [onGenerateBackground] it makes, if any. *)
Definition handleGenerateBackground (p : PanelState) : option string :=
  if String.eqb (backgroundPrompt p) EmptyString then None
  else Some (backgroundPrompt p).

(** A call of the [setError] the panel was given. *)
Inductive ErrorUpdate : Type :=
| KeepError
| SetError (e : option string).

(** [handleGenerateRandomPrompt] of the filter panel and
    [handleGenerateRandomAdjustPrompt] of the adjustment panel, run to the
    end; [context] is [filter] in the one and [adjustment] in the other.
    The result holds the last [setError] made. *)
Definition handleGenerateRandomPrompt (context : Suggest.Context)
    (remote : Suggest.Context -> Suggest.Remote) (p : PanelState)
  : PanelState * ErrorUpdate :=
  if isGeneratingIdea p then (p, KeepError)
  else
    match Suggest.generateRandomPrompt context remote with
    | Ok idea =>
        ({| selectedPresetPrompt := None; customPrompt := idea;
            backgroundPrompt := backgroundPrompt p;
            isGeneratingIdea := false; isGeneratingBgIdea := isGeneratingBgIdea p |},
         SetError None)
    | Throw err =>
        ({| selectedPresetPrompt := selectedPresetPrompt p; customPrompt := customPrompt p;
            backgroundPrompt := backgroundPrompt p;
            isGeneratingIdea := false; isGeneratingBgIdea := isGeneratingBgIdea p |},
         SetError (Some (messageOr "Terjadi kesalahan tidak dikenal." err)))
    end.

(** [handleGenerateRandomBgPrompt] of the adjustment panel. *)
Definition handleGenerateRandomBgPrompt
    (remote : Suggest.Context -> Suggest.Remote) (p : PanelState)
  : PanelState * ErrorUpdate :=
  if isGeneratingBgIdea p then (p, KeepError)
  else
    match Suggest.generateRandomPrompt Suggest.background remote with
    | Ok idea =>
        ({| selectedPresetPrompt := selectedPresetPrompt p; customPrompt := customPrompt p;
            backgroundPrompt := idea;
            isGeneratingIdea := isGeneratingIdea p; isGeneratingBgIdea := false |},
         SetError None)
    | Throw err =>
        ({| selectedPresetPrompt := selectedPresetPrompt p; customPrompt := customPrompt p;
            backgroundPrompt := backgroundPrompt p;
            isGeneratingIdea := isGeneratingIdea p; isGeneratingBgIdea := false |},
         SetError (Some (messageOr "Terjadi kesalahan tidak dikenal." err)))
    end.

(** What the user does to the prompt of a panel. *)
Inductive PromptInput : Type :=
| PresetClick (prompt : string)
| CustomChange (value : string).

Definition inputValue (a : PromptInput) : string :=
  match a with
  | PresetClick prompt => prompt
  | CustomChange value => value
  end.

Definition panelStep (p : PanelState) (a : PromptInput) : PanelState :=
  match a with
  | PresetClick prompt => handlePresetClick prompt p
  | CustomChange value => handleCustomChange value p
  end.

End Panels.

(** ** More concrete inputs *)
Module MoreSamples.
Import Js.
Export Samples.

(** A service that sends back the first inline part of the request as the
    image of its only candidate. *)
Definition echoService : Service.ContentService :=
  fun request =>
    match Service.requestParts request with
    | Service.InlinePart d :: _ =>
        Ok (Validator.mkResponse None
              (Some [Validator.mkCandidate
                       (Some (Validator.mkContent
                                (Some [Validator.mkPart
                                         (Some (Validator.mkBlob
                                                  (Some (Encoder.mimeType d))
                                                  (Some (Encoder.data d))))
                                         None])))
                       (Some "STOP")])
              None)
    | _ => Ok (Validator.mkResponse None None None)
    end.

(** A service that blocks every prompt. *)
Definition blockingService : Service.ContentService :=
  fun _ =>
    Ok (Validator.mkResponse
          (Some (Validator.mkPromptFeedback (Some "SAFETY") None)) None None).

(** An image service with no image to give. *)
Definition noImages : Service.ImagesService :=
  fun _ => Ok (Service.mkImagesResponse (Some [])).

(** A file with no media type. *)
Definition untyped : File :=
  {| name := "blob"; type := EmptyString; bytes := [Byte.x00] |}.

End MoreSamples.

(** ** What the further properties observe *)
Module Observations.
Import Js.
Export Editor.

(** Of each image, the original and the first entry of the history. *)
Definition anchors (st : AppState) : list (File * option File) :=
  (fun s => (original s, head (history s))) <$> images st.

(** The anchors right after an upload. *)
Definition uploadAnchors (files : list File) : list (File * option File) :=
  (fun f => (f, Some f)) <$> files.

(** A string that [trim] empties. *)
Definition blank (s : string) : bool := allChars isTrimSpace s.

(** What [handleGenerate] obtains inside its [try] block. *)
Definition editAttempt (generateContent : Service.ContentService) (now : Z)
    (st : AppState) (image : File) : result File :=
  bind (Service.generateEditedImage generateContent image (prompt st) (editHotspots st))
       (fun editedImageUrl =>
          dataURLtoFile editedImageUrl ("edited-" +:+ showZ now +:+ ".png")).

(** Every image but the one at [idx] is the same in two states. *)
Definition sameElsewhere (idx : Z) (st st' : AppState) : Prop :=
  forall j, j <> idx -> index (images st') j = index (images st) j.

(** In the prompt of a panel, the preset and the custom text exclude each
    other. *)
Definition exclusive (p : Panels.PanelState) : Prop :=
  Panels.selectedPresetPrompt p = None \/ Panels.customPrompt p = EmptyString.

End Observations.

(** ** From a panel to the history: what the end-to-end properties name *)
Module Pipeline.
Import Js.
Export Observations.

(** The request that generateFilteredImage sends for an encoded image. *)
Definition filterRequest (part : Encoder.InlineData) (filterPrompt : string)
  : Service.Request :=
  {| Service.model := Service.imageModel;
     Service.requestParts :=
       [Service.InlinePart part;
        Service.TextPart (Service.filterPromptText filterPrompt)] |}.

(** The file that iteration [j] of a batch named [operationName] stores when
    the service sends the image back as it got it. *)
Definition echoed (operationName : string) (now : nat -> Z) (j : nat) (img : File)
  : File :=
  {| name := operationName +:+ "-" +:+ showZ (now j) +:+ ".png";
     type := type img; bytes := bytes img |}.

(** The file of iteration [j], read off the state the batch starts in. *)
Definition echoedAt (operationName : string) (now : nat -> Z) (applyToAll : bool)
    (st : AppState) (j : nat) : File :=
  match targetInput applyToAll st j with
  | Some img => echoed operationName now j img
  | None => {| name := EmptyString; type := EmptyString; bytes := [] |}
  end.

(** The operation that the loop of handleApplyBackground applies, in the
    form the batch controller takes. *)
Definition compositeOperation (generateContent : nat -> Service.ContentService)
    (background : File) : nat -> File -> string -> result string :=
  fun i image _ => Service.applyBackgroundToImage (generateContent i) image background.

End Pipeline.

(** ** Concrete inputs for the further properties *)
Module RunInputs.
Import Js.
Export MoreSamples Pipeline.

(** The encoded form of [fileA]. *)
Definition partA : InlineData := {| mimeType := "image/png"; data := "QUJD" |}.

(** A response with no candidate and a text of white space. *)
Definition emptyAnswer : Validator.GenerateContentResponse :=
  Validator.mkResponse None None (Some "  ").

(** A response whose only candidate holds the image. *)
Definition imageOnly : Validator.GenerateContentResponse :=
  Validator.mkResponse None (Some [candidateWith [imagePart] "STOP"]) None.

(** A response that is blocked and nothing else. *)
Definition blockedAnswer : Validator.GenerateContentResponse :=
  Validator.mkResponse
    (Some (Validator.mkPromptFeedback (Some "SAFETY") None)) None None.

(** An image service that gives one image. *)
Definition oneImage : Service.ImagesService :=
  fun _ =>
    Ok (Service.mkImagesResponse
          (Some [Service.mkGeneratedImage (Some (Service.mkImage (Some "QUJD")))])).

(** Remote answers to the request for an idea. *)
Definition quotedIdea : Suggest.Context -> Suggest.Remote :=
  fun _ => Suggest.Resolves (Some " 'neon glow' ").

Definition offline : Suggest.Context -> Suggest.Remote :=
  fun _ => Suggest.Rejects NonError.

(** An error thrown by the construction of the client; the text stands for
    the library's. *)
Definition noApiKey : exn := Error "API key is missing".

(** Three images, the first active, with a prompt and a hotspot. *)
Definition readyToEdit : AppState :=
  {| images := images threeImages; activeImageIndex := 0; prompt := "add a hat";
     loadingMessage := None; error := None;
     editHotspots := [(10, 20)]; displayHotspots := [(5, 10)];
     activeTab := TabRetouch; crop := None; completedCrop := None;
     generatedBackground := None; generatedBackgroundUrl := None |}.

(** The same, with a prompt of white space. *)
Definition blankPrompt : AppState := setPrompt "  " readyToEdit.

(** Three images and a generated background. *)
Definition withBackground : AppState :=
  {| images := images threeImages; activeImageIndex := 0; prompt := EmptyString;
     loadingMessage := None; error := None;
     editHotspots := []; displayHotspots := [];
     activeTab := TabAdjust; crop := None; completedCrop := None;
     generatedBackground := Some fileC;
     generatedBackgroundUrl := Some "blob:background" |}.

(** An operation that answers every call with the same image. *)
Definition alwaysImage : nat -> File -> string -> result string :=
  fun _ _ _ => Ok "data:image/png;base64,QUJD".

(** The file decoded from that answer in iteration [j]. *)
Definition resultAt (j : nat) : File :=
  {| name := "filter-" +:+ showZ (clock j) +:+ ".png"; type := "image/png";
     bytes := [Byte.x41; Byte.x42; Byte.x43] |}.

(** A service that echoes in the first iteration and rejects afterwards. *)
Definition echoOnce : nat -> Service.ContentService :=
  fun i =>
    match i with
    | O => echoService
    | S _ => fun _ => Throw (Error "quota exceeded")
    end.

(** The composition stored for [fileA] in the first iteration. *)
Definition composedA : File :=
  {| name := "bg-applied-1700000000000.png"; type := "image/png";
     bytes := [Byte.x41; Byte.x42; Byte.x43] |}.

(** The edit stored for [fileA] when the service echoes. *)
Definition editedA : File :=
  {| name := "edited-1700000000000.png"; type := "image/png";
     bytes := [Byte.x41; Byte.x42; Byte.x43] |}.

End RunInputs.

(** ** The client of the remote service *)
Module Client.
Import Js.

(** [new GoogleGenAI({ apiKey: process.env.API_KEY! })], the statement of
    generateRandomPrompt that runs before its [try] block: it yields a
    client, or it throws (the engine, where [process] is not defined; the
    library, where it refuses the key). *)
Inductive Construction : Type :=
| Constructed
| ConstructionThrows (e : exn).

(** [generateRandomPrompt context] from its first statement on: what the
    construction throws leaves the function as it is; with a client, the
    function goes on as [Suggest.generateRandomPrompt] has it. *)
Definition generateRandomPrompt (client : Construction) (context : Suggest.Context)
    (remote : Suggest.Context -> Suggest.Remote) : result string :=
  match client with
  | ConstructionThrows e => Throw e
  | Constructed => Suggest.generateRandomPrompt context remote
  end.

End Client.

(* ================================================================== *)
(** * Part II.  Properties                                             *)
(* ================================================================== *)

#[local] Arguments String.append !s1 s2 : simpl nomatch.

(** ** Strings *)
Module JsFacts.
Import Js.

Lemma append_assoc (s t u : string) : (s +:+ t) +:+ u = s +:+ (t +:+ u).
Proof. induction s as [|c s IH]; simpl; [done | by f_equal]. Qed.

Lemma length_append (s t : string) :
  String.length (s +:+ t) = (String.length s + String.length t)%nat.
Proof. induction s as [|c s IH]; simpl; [done | by f_equal]. Qed.

(** Cancellation on the right. *)
Lemma append_cancel_r (s1 s2 t : string) : s1 +:+ t = s2 +:+ t -> s1 = s2.
Proof.
  revert s2. induction s1 as [|c s1 IH]; intros [|d s2] H; simpl in H.
  - done.
  - apply (f_equal String.length) in H. simpl in H.
    rewrite length_append in H. lia.
  - apply (f_equal String.length) in H. simpl in H.
    rewrite length_append in H. lia.
  - injection H as -> H. f_equal. by apply IH.
Qed.

Lemma append_cancel_l (s t1 t2 : string) : s +:+ t1 = s +:+ t2 -> t1 = t2.
Proof. induction s as [|c s IH]; simpl; intros H; [done |]. injection H. auto. Qed.

Lemma Throw_Error_inj {A} (m m' : string) :
  @Throw A (Error m) = Throw (Error m') -> m = m'.
Proof. congruence. Qed.

Lemma eqb_empty_false (s : string) : s <> EmptyString -> String.eqb s EmptyString = false.
Proof. intros H. by apply String.eqb_neq. Qed.

Lemma truthy_Some (s : string) : truthy (Some s) = true <-> s <> EmptyString.
Proof.
  unfold truthy. rewrite negb_true_iff, String.eqb_neq. done.
Qed.

End JsFacts.

(** ** The response validator *)
Module ValidatorFacts.
Import Js JsFacts Validator.

(** The messages start differently, so they tell the errors apart. *)
Lemma blocked_not_refused br brm ctx fr :
  blockedMessage br brm <> refusedMessage ctx fr.
Proof.
  unfold blockedMessage, refusedMessage.
  destruct (truthy brm); simpl; discriminate.
Qed.

Lemma noImage_not_refused ctx tf ctx' fr :
  noImageMessage ctx tf <> refusedMessage ctx' fr.
Proof. unfold noImageMessage, refusedMessage. simpl. discriminate. Qed.

(** For one context, the refusal message determines the finish reason. *)
Lemma refusedMessage_inj ctx fr fr' :
  refusedMessage ctx fr = refusedMessage ctx fr' -> fr = fr'.
Proof.
  unfold refusedMessage. intros H.
  apply append_cancel_l, append_cancel_l, append_cancel_l in H.
  by apply append_cancel_r in H.
Qed.

(** The validator, case by case. *)
Lemma handleApiResponse_blocked response ctx :
  isBlocked response = true ->
  handleApiResponse response ctx =
    Throw (Error (blockedMessage (tmpl (blockReasonOf response))
                                 (blockReasonMessageOf response))).
Proof.
  unfold isBlocked, blockReasonOf, blockReasonMessageOf, handleApiResponse.
  by intros ->.
Qed.

Lemma handleApiResponse_image response ctx blob :
  isBlocked response = false ->
  inlineImageOf response = Some blob ->
  handleApiResponse response ctx = Ok (dataUrlOf blob).
Proof.
  unfold isBlocked, blockReasonOf, inlineImageOf, handleApiResponse, dataUrlOf.
  by intros -> ->.
Qed.

Lemma handleApiResponse_refused response ctx fr :
  isBlocked response = false ->
  inlineImageOf response = None ->
  finishReasonOf response = Some fr ->
  fr <> EmptyString -> fr <> "STOP" ->
  handleApiResponse response ctx = Throw (Error (refusedMessage ctx fr)).
Proof.
  unfold isBlocked, blockReasonOf, inlineImageOf, finishReasonOf, handleApiResponse.
  intros -> -> -> Hne Hstop. simpl.
  by rewrite (eqb_empty_false _ Hne), (proj2 (String.eqb_neq _ _) Hstop).
Qed.

Lemma handleApiResponse_noImage response ctx :
  isBlocked response = false ->
  inlineImageOf response = None ->
  (forall fr, finishReasonOf response = Some fr -> fr = EmptyString \/ fr = "STOP") ->
  handleApiResponse response ctx =
    Throw (Error (noImageMessage ctx (trim <$> text response))).
Proof.
  unfold isBlocked, blockReasonOf, inlineImageOf, finishReasonOf, handleApiResponse.
  intros -> -> Hfr.
  destruct (firstCandidate response ≫= finishReason) as [fr|]; simpl; [|done].
  destruct (Hfr fr eq_refl) as [-> | ->]; done.
Qed.

(** The image the validator finds is a part of the first candidate. *)
Lemma inlineImageOf_Some response :
  is_Some (inlineImageOf response) <-> firstCandidateHasImage response.
Proof.
  unfold inlineImageOf, imagePartFromResponse, firstCandidate, firstCandidateHasImage.
  split.
  - intros [blob H].
    destruct (candidates response) as [[|c rest]|]; simpl in H; try done.
    destruct (content c ≫= parts) as [ps|] eqn:Hps; simpl in H; [|done].
    destruct (find _ ps) as [p|] eqn:Hfind; simpl in H; [|done].
    apply find_some in Hfind as [Hin Hp].
    exists c, rest, ps, p.
    split; [done | split; [done | split]].
    + by apply list_elem_of_In.
    + by apply bool_decide_eq_true in Hp.
  - intros (c & rest & ps & p & -> & Hps & Hin & Hp). simpl. rewrite Hps. simpl.
    destruct (find _ ps) as [q|] eqn:Hfind; simpl.
    + apply find_some in Hfind as [_ Hq]. by apply bool_decide_eq_true in Hq.
    + exfalso. apply list_elem_of_In in Hin.
      pose proof (find_none _ _ Hfind p Hin) as Hn. simpl in Hn.
      by apply bool_decide_eq_false in Hn.
Qed.

Lemma handleApiResponse_same_head r r' ctx :
  promptFeedback r' = promptFeedback r ->
  firstCandidate r' = firstCandidate r ->
  text r' = text r ->
  handleApiResponse r' ctx = handleApiResponse r ctx.
Proof.
  unfold handleApiResponse, imagePartFromResponse. by intros -> -> ->.
Qed.

(** C1.  The validator decides in a fixed order.  A response that carries a
    block reason fails with the blocked-request error, whatever else it
    holds (an inline image included).  A response that is not blocked and
    holds an inline image succeeds with the data URL
    data:MIME;base64,DATA, whatever its finish reason.  The refusal error is
    raised exactly when the response is not blocked, holds no inline image
    and has a finish reason other than STOP.  In the remaining case the
    no-image error is raised. *)
Theorem handleApiResponse_priority (response : GenerateContentResponse) (context : string) :
  (forall br, blockReasonOf response = Some br -> br <> EmptyString ->
     handleApiResponse response context =
       Throw (Error (blockedMessage br (blockReasonMessageOf response))))
  /\ (forall blob, isBlocked response = false -> inlineImageOf response = Some blob ->
       handleApiResponse response context =
         Ok ("data:" +:+ tmpl (mimeType blob) +:+ ";base64," +:+ tmpl (data blob)))
  /\ (forall fr,
       handleApiResponse response context = Throw (Error (refusedMessage context fr))
       <-> isBlocked response = false /\ inlineImageOf response = None /\
           finishReasonOf response = Some fr /\ fr <> EmptyString /\ fr <> "STOP")
  /\ (isBlocked response = false -> inlineImageOf response = None ->
      (forall fr, finishReasonOf response = Some fr -> fr = EmptyString \/ fr = "STOP") ->
      handleApiResponse response context =
        Throw (Error (noImageMessage context (trim <$> text response)))).
Proof.
  split; [|split; [|split]].
  - intros br Hbr Hne.
    rewrite handleApiResponse_blocked.
    + by rewrite Hbr.
    + unfold isBlocked. rewrite Hbr. by apply truthy_Some.
  - intros blob Hnb Himg. by rewrite (handleApiResponse_image _ _ _ Hnb Himg).
  - intros fr. split.
    + intros H.
      destruct (isBlocked response) eqn:Hb.
      { rewrite handleApiResponse_blocked in H by done.
        apply Throw_Error_inj in H. by apply blocked_not_refused in H. }
      destruct (inlineImageOf response) as [blob|] eqn:Himg.
      { by rewrite (handleApiResponse_image _ _ _ Hb Himg) in H. }
      destruct (finishReasonOf response) as [fr'|] eqn:Hfr.
      * destruct (decide (fr' = EmptyString)) as [->|Hne].
        { exfalso. rewrite handleApiResponse_noImage in H.
          - apply Throw_Error_inj in H. by apply noImage_not_refused in H.
          - done.
          - done.
          - rewrite Hfr. intros ? [= <-]. by left. }
        destruct (decide (fr' = "STOP")) as [->|Hstop].
        { exfalso. rewrite handleApiResponse_noImage in H.
          - apply Throw_Error_inj in H. by apply noImage_not_refused in H.
          - done.
          - done.
          - rewrite Hfr. intros ? [= <-]. by right. }
        rewrite (handleApiResponse_refused _ _ fr') in H by done.
        apply Throw_Error_inj, refusedMessage_inj in H. by subst.
      * exfalso. rewrite handleApiResponse_noImage in H.
        -- apply Throw_Error_inj in H. by apply noImage_not_refused in H.
        -- done.
        -- done.
        -- by rewrite Hfr.
    + intros (Hb & Himg & Hfr & Hne & Hstop). by apply handleApiResponse_refused.
  - apply handleApiResponse_noImage.
Qed.

(** C10.  For a response that is not blocked, the validator succeeds exactly
    when the first candidate holds a part with inline data.  When it does
    not, the call fails with the refusal error built from the finish reason
    of the first candidate, or with the no-image error.  Nothing but the
    first candidate is read: two responses that agree on the prompt
    feedback, the first candidate and the text are validated alike, so an
    image or a finish reason in a later candidate changes nothing. *)
Theorem handleApiResponse_first_candidate_only
    (response : GenerateContentResponse) (context : string) :
  isBlocked response = false ->
  ((exists url, handleApiResponse response context = Ok url)
     <-> firstCandidateHasImage response)
  /\ (~ firstCandidateHasImage response ->
      (exists fr, (candidates response ≫= head) ≫= finishReason = Some fr /\
                  handleApiResponse response context
                    = Throw (Error (refusedMessage context fr)))
      \/ handleApiResponse response context
           = Throw (Error (noImageMessage context (trim <$> text response))))
  /\ (forall response',
        promptFeedback response' = promptFeedback response ->
        candidates response' ≫= head = candidates response ≫= head ->
        text response' = text response ->
        handleApiResponse response' context = handleApiResponse response context).
Proof.
  intros Hb. split; [|split].
  - rewrite <- inlineImageOf_Some. split.
    + intros [url H].
      destruct (inlineImageOf response) as [blob|] eqn:Himg; [done |].
      exfalso. revert H. unfold handleApiResponse.
      fold (blockReasonOf response) (isBlocked response) (inlineImageOf response).
      rewrite Hb, Himg. by case_match.
    + intros [blob Himg]. eexists. by apply handleApiResponse_image.
  - intros Hno.
    assert (inlineImageOf response = None) as Himg.
    { destruct (inlineImageOf response) eqn:E; [|done].
      exfalso. apply Hno, inlineImageOf_Some. by rewrite E. }
    destruct (finishReasonOf response) as [fr|] eqn:Hfr.
    + destruct (decide (fr = EmptyString)) as [->|Hne].
      { right. apply handleApiResponse_noImage; try done.
        rewrite Hfr. intros ? [= <-]. by left. }
      destruct (decide (fr = "STOP")) as [->|Hstop].
      { right. apply handleApiResponse_noImage; try done.
        rewrite Hfr. intros ? [= <-]. by right. }
      left. exists fr. split; [done |]. by apply handleApiResponse_refused.
    + right. apply handleApiResponse_noImage; try done. by rewrite Hfr.
  - intros r' H1 H2 H3. by apply handleApiResponse_same_head.
Qed.

End ValidatorFacts.

(** ** The idea-suggestion operation *)
Module SuggestFacts.
Import Js JsFacts Suggest.

Lemma trimStart_all_space (s : string) :
  allChars isTrimSpace s = true -> trimStart s = EmptyString.
Proof.
  induction s as [|c s IH]; simpl; [done |].
  intros [Hc Hs]%andb_true_iff. rewrite Hc. auto.
Qed.

Lemma trim_all_space (s : string) :
  allChars isTrimSpace s = true -> trim s = EmptyString.
Proof. intros H. unfold trim. by rewrite trimStart_all_space. Qed.

(** [trim] keeps a run of the characters of its argument. *)
Lemma allChars_trimStart (p : ascii -> bool) (s : string) :
  allChars p s = true -> allChars p (trimStart s) = true.
Proof.
  induction s as [|c s IH]; simpl; [done |].
  intros H. destruct (isTrimSpace c); [|done].
  apply andb_true_iff in H as [_ H]. auto.
Qed.

Lemma allChars_trimEnd (p : ascii -> bool) (s : string) :
  allChars p s = true -> allChars p (trimEnd s) = true.
Proof.
  induction s as [|c s IH]; simpl; [done |].
  intros [Hc Hs]%andb_true_iff. specialize (IH Hs).
  destruct (trimEnd s) as [|d t].
  - destruct (isTrimSpace c); simpl; [done | by rewrite Hc].
  - simpl in *. by rewrite Hc, IH.
Qed.

Lemma allChars_trim (p : ascii -> bool) (s : string) :
  allChars p s = true -> allChars p (trim s) = true.
Proof. intros H. by apply allChars_trimEnd, allChars_trimStart. Qed.

Lemma stripQuotes_all_quotes (s : string) :
  allChars isQuote s = true -> stripQuotes s = EmptyString.
Proof.
  induction s as [|c s IH]; simpl; [done |].
  intros [Hc Hs]%andb_true_iff. rewrite Hc. auto.
Qed.

(** C9.  In each of the four contexts, when the remote capability answers
    with a string that is all white space, or with a string made of quote
    characters only, generateRandomPrompt raises the empty-suggestion error
    and returns no string.  The string that is tested for emptiness, and
    returned when it is not empty, is the answer trimmed and with its quote
    characters deleted. *)
Theorem generateRandomPrompt_empty_suggestion
    (context : Context) (remote : Context -> Remote) (answer : string) :
  remote context = Resolves (Some answer) ->
  (allChars isTrimSpace answer = true \/ allChars isQuote answer = true ->
     generateRandomPrompt context remote
       = Throw (Error ("Gagal mendapatkan ide dari AI. " +:+ "AI tidak mengembalikan saran.")))
  /\ (forall text, generateRandomPrompt context remote = Ok text
        <-> text = stripQuotes (trim answer) /\ text <> EmptyString).
Proof.
  intros Hr. unfold generateRandomPrompt, suggestion. rewrite Hr. split.
  - intros [Hs|Hq].
    + by rewrite trim_all_space.
    + by rewrite stripQuotes_all_quotes by by apply allChars_trim.
  - intros text.
    destruct (String.eqb (stripQuotes (trim answer)) EmptyString) eqn:E; simpl.
    + apply String.eqb_eq in E. split; [done |]. intros [-> H]. done.
    + apply String.eqb_neq in E. split.
      * intros [= <-]. done.
      * by intros [-> _].
Qed.

(** The order matters for an answer that mixes the two: a space between
    two quotes is not trimmed away, and the suggestion returned is a
    space. *)
Example generateRandomPrompt_quoted_space :
  generateRandomPrompt filter
    (fun _ => Resolves (Some (String "034" (String " " (String "034" EmptyString)))))
  = Ok " ".
Proof. reflexivity. Qed.

End SuggestFacts.

(** ** The history of one image *)
Module HistoryFacts.
Import Js Session.

Lemma index_Some {A} (l : list A) (i : Z) (x : A) :
  index l i = Some x <-> 0 <= i /\ l !! Z.to_nat i = Some x.
Proof.
  unfold index. destruct (Z.ltb_spec i 0) as [Hlt|Hge].
  - split; [done | intros [? _]; lia].
  - split; [by intros ? | by intros [_ ?]].
Qed.

Lemma index_lt {A} (l : list A) (i : Z) (x : A) :
  index l i = Some x -> 0 <= i < Z.of_nat (length l).
Proof.
  intros [H0 H]%index_Some. apply lookup_lt_Some in H. lia.
Qed.

Lemma index_is_Some {A} (l : list A) (i : Z) :
  is_Some (index l i) <-> 0 <= i < Z.of_nat (length l).
Proof.
  split.
  - intros [x H]. by eapply index_lt.
  - intros [H0 H1]. unfold index. destruct (Z.ltb_spec i 0); [lia |].
    apply lookup_lt_is_Some. lia.
Qed.

(** [slice(0, i + 1)] of a history whose cursor [i] is in range. *)
Lemma slice0_in_range {A} (l : list A) (i : Z) :
  0 <= i < Z.of_nat (length l) ->
  slice0 l (i + 1) = take (Z.to_nat i + 1) l.
Proof.
  intros H. unfold slice0. destruct (Z.ltb_spec (i + 1) 0); [lia |].
  f_equal. lia.
Qed.

(** *** updateImageState *)
Lemma images_updateImageState idx upd st :
  images (updateImageState idx upd st)
  = imap (fun i img => if Z.of_nat i =? idx then spread img upd else img) (images st).
Proof. done. Qed.

Lemma index_updateImageState idx upd st j :
  index (images (updateImageState idx upd st)) j
  = (fun img => if j =? idx then spread img upd else img) <$> index (images st) j.
Proof.
  rewrite images_updateImageState. unfold index.
  destruct (Z.ltb_spec j 0); [done |].
  rewrite list_lookup_imap. by rewrite Z2Nat.id by done.
Qed.

Lemma history_updateImageState_cursor idx i st :
  history <$> images (updateImageState idx (onlyHistoryIndex i) st)
  = history <$> images st.
Proof.
  rewrite images_updateImageState.
  apply list_eq. intros n. rewrite !list_lookup_fmap, list_lookup_imap.
  destruct (images st !! n) as [img|]; simpl; [|done].
  by destruct (Z.of_nat n =? idx).
Qed.

Lemma wellFormed_updateImageState idx i st s :
  wellFormed st ->
  index (images st) idx = Some s ->
  0 <= i < Z.of_nat (length (history s)) ->
  wellFormed (updateImageState idx (onlyHistoryIndex i) st).
Proof.
  unfold wellFormed. rewrite images_updateImageState.
  intros Hwf [Hidx Hs]%index_Some Hi.
  apply Forall_lookup. intros n img' [img [Himg ->]]%list_lookup_imap_Some.
  destruct (Z.eqb_spec (Z.of_nat n) idx) as [<-|Hne].
  - rewrite Nat2Z.id in Hs. assert (img = s) as -> by congruence. done.
  - by eapply Forall_lookup_1.
Qed.

(** *** addImageToHistory *)
Lemma images_addImageToHistory closure f idx st :
  images (addImageToHistory closure f idx st)
  = match index (images st) idx with
    | None => images st
    | Some s =>
        <[Z.to_nat idx :=
            {| original := original s;
               history := slice0 (history s) (historyIndex s + 1) ++ [f];
               historyIndex :=
                 Z.of_nat (length (slice0 (history s) (historyIndex s + 1) ++ [f])) - 1 |}]>
          (images st)
    end.
Proof. unfold addImageToHistory. by destruct (idx =? closure). Qed.

Lemma length_images_addImageToHistory closure f idx st :
  length (images (addImageToHistory closure f idx st)) = length (images st).
Proof.
  rewrite images_addImageToHistory. destruct (index _ _); [|done].
  by rewrite length_insert.
Qed.

Lemma index_addImageToHistory_ne closure f idx st j :
  j <> idx ->
  index (images (addImageToHistory closure f idx st)) j = index (images st) j.
Proof.
  intros Hne. rewrite images_addImageToHistory.
  destruct (index (images st) idx) as [s|] eqn:Hs; [|done].
  apply index_Some in Hs as [H0 _].
  unfold index. destruct (Z.ltb_spec j 0); [done |].
  rewrite list_lookup_insert_ne; [done | lia].
Qed.

Lemma index_addImageToHistory_eq closure f idx st s :
  index (images st) idx = Some s ->
  cursorInRange s ->
  index (images (addImageToHistory closure f idx st)) idx = Some (appended s f).
Proof.
  intros Hs Hc. rewrite images_addImageToHistory, Hs.
  pose proof Hs as [H0 Hl]%index_Some.
  unfold index. destruct (Z.ltb_spec idx 0); [lia |].
  rewrite list_lookup_insert_eq by by eapply lookup_lt_Some.
  unfold appended. rewrite slice0_in_range by done.
  do 2 f_equal. rewrite length_app, length_take. simpl.
  unfold cursorInRange in Hc. lia.
Qed.

Lemma wellFormed_addImageToHistory closure f idx st :
  wellFormed st -> wellFormed (addImageToHistory closure f idx st).
Proof.
  unfold wellFormed. intros Hwf. rewrite images_addImageToHistory.
  destruct (index (images st) idx) as [s|]; [|done].
  apply Forall_insert; [done |].
  unfold cursorInRange. simpl. rewrite length_app. simpl. lia.
Qed.

End HistoryFacts.

(** ** Undo, redo, reset and sequences of actions *)
Module SessionFacts.
Import Js Session HistoryFacts.

Lemma canUndo_true st s :
  activeImageState st = Some s -> canUndo st = true <-> 0 < historyIndex s.
Proof. unfold canUndo. intros ->. apply Z.ltb_lt. Qed.

Lemma canRedo_true st s :
  activeImageState st = Some s ->
  canRedo st = true <-> historyIndex s < Z.of_nat (length (history s)) - 1.
Proof. unfold canRedo. intros ->. apply Z.ltb_lt. Qed.

(** Undo and redo at the bounds leave the state as it is. *)
Lemma handleUndo_at_first st s :
  activeImageState st = Some s -> historyIndex s = 0 -> handleUndo st = st.
Proof.
  intros Hs H0. unfold handleUndo, canUndo. rewrite Hs, H0. done.
Qed.

Lemma handleRedo_at_last st s :
  activeImageState st = Some s ->
  historyIndex s = Z.of_nat (length (history s)) - 1 ->
  handleRedo st = st.
Proof.
  intros Hs H0. unfold handleRedo, canRedo. rewrite Hs, H0.
  by rewrite Z.ltb_irrefl.
Qed.

(** Undo, redo and reset move a cursor and leave every history list as it
    is. *)
Lemma histories_handleUndo st :
  history <$> images (handleUndo st) = history <$> images st.
Proof.
  unfold handleUndo. destruct (activeImageState st); [|done].
  destruct (canUndo st); [|done]. apply history_updateImageState_cursor.
Qed.

Lemma histories_handleRedo st :
  history <$> images (handleRedo st) = history <$> images st.
Proof.
  unfold handleRedo. destruct (activeImageState st); [|done].
  destruct (canRedo st); [|done]. apply history_updateImageState_cursor.
Qed.

Lemma histories_handleReset st :
  history <$> images (handleReset st) = history <$> images st.
Proof.
  unfold handleReset. destruct (activeImageState st); [|done].
  apply history_updateImageState_cursor.
Qed.

(** Each handler keeps every cursor in range. *)
Lemma wellFormed_handleUndo st : wellFormed st -> wellFormed (handleUndo st).
Proof.
  intros Hwf. unfold handleUndo.
  destruct (activeImageState st) as [s|] eqn:Hs; [|done].
  destruct (canUndo st) eqn:Hu; [|done].
  apply (canUndo_true _ _ Hs) in Hu.
  apply (wellFormed_updateImageState _ _ st s); [done | done |].
  assert (cursorInRange s) as Hc.
  { apply index_Some in Hs as [_ Hs]. by eapply Forall_lookup_1. }
  unfold cursorInRange in Hc. lia.
Qed.

Lemma wellFormed_handleRedo st : wellFormed st -> wellFormed (handleRedo st).
Proof.
  intros Hwf. unfold handleRedo.
  destruct (activeImageState st) as [s|] eqn:Hs; [|done].
  destruct (canRedo st) eqn:Hr; [|done].
  apply (canRedo_true _ _ Hs) in Hr.
  apply (wellFormed_updateImageState _ _ st s); [done | done |].
  assert (cursorInRange s) as Hc.
  { apply index_Some in Hs as [_ Hs]. by eapply Forall_lookup_1. }
  unfold cursorInRange in Hc. lia.
Qed.

Lemma wellFormed_handleReset st : wellFormed st -> wellFormed (handleReset st).
Proof.
  intros Hwf. unfold handleReset.
  destruct (activeImageState st) as [s|] eqn:Hs; [|done].
  apply (wellFormed_updateImageState _ _ st s); [done | done |].
  assert (cursorInRange s) as Hc.
  { apply index_Some in Hs as [_ Hs]. by eapply Forall_lookup_1. }
  unfold cursorInRange in Hc. lia.
Qed.

Lemma wellFormed_handleImageUpload files st :
  wellFormed (handleImageUpload files st).
Proof.
  unfold wellFormed, handleImageUpload. simpl.
  apply Forall_fmap, Forall_forall. intros file _.
  unfold cursorInRange. simpl. lia.
Qed.

Lemma wellFormed_step st a : wellFormed st -> wellFormed (step st a).
Proof.
  intros Hwf. destruct a; simpl.
  - by apply wellFormed_addImageToHistory.
  - by apply wellFormed_handleUndo.
  - by apply wellFormed_handleRedo.
  - by apply wellFormed_handleReset.
  - done.
Qed.

Lemma wellFormed_run actions : forall st, wellFormed st -> wellFormed (run st actions).
Proof.
  unfold run. induction actions as [|a actions IH]; intros st Hwf; simpl; [done |].
  by apply IH, wellFormed_step.
Qed.

(** C2.  Start from an upload, where every image has a one-entry history and
    cursor 0, and apply any finite sequence of appendHistory, undo and redo
    (reset and a change of the active image are allowed too).  After every
    step, each image has 0 <= historyIndex < length(history).  In the state
    reached, undo is a no-op when the active cursor is 0, redo is a no-op
    when it is at the last entry, and neither undo nor redo changes any
    history list: only appendHistory does. *)
Theorem history_cursor_invariant
    (files : list File) (st0 : AppState) (actions : list Action) :
  (forall done_, done_ `prefix_of` actions ->
     Forall cursorInRange (images (run (handleImageUpload files st0) done_)))
  /\ (let st := run (handleImageUpload files st0) actions in
      (forall s, activeImageState st = Some s -> historyIndex s = 0 ->
                 handleUndo st = st)
      /\ (forall s, activeImageState st = Some s ->
                    historyIndex s = Z.of_nat (length (history s)) - 1 ->
                    handleRedo st = st)
      /\ history <$> images (handleUndo st) = history <$> images st
      /\ history <$> images (handleRedo st) = history <$> images st).
Proof.
  split.
  - intros done_ _. apply wellFormed_run, wellFormed_handleImageUpload.
  - simpl. split; [|split; [|split]].
    + apply handleUndo_at_first.
    + apply handleRedo_at_last.
    + apply histories_handleUndo.
    + apply histories_handleRedo.
Qed.

(** C3.  For an image with history h and cursor i in range, appendHistory of
    a new image leaves the history h[0..i] followed by the new image, and
    sets the cursor to the new last index i + 1; the entries of h after the
    cursor are gone.  The other images are not touched. *)
Theorem addImageToHistory_truncates_then_appends
    (closureActiveIndex : Z) (newImageFile : File) (idx : Z)
    (st : AppState) (s : ImageState) :
  index (images st) idx = Some s ->
  cursorInRange s ->
  let st' := addImageToHistory closureActiveIndex newImageFile idx st in
  (exists s',
      index (images st') idx = Some s' /\
      original s' = original s /\
      history s' = take (Z.to_nat (historyIndex s) + 1) (history s) ++ [newImageFile] /\
      Z.of_nat (length (history s')) = historyIndex s + 2 /\
      historyIndex s' = Z.of_nat (length (history s')) - 1)
  /\ (forall j, j <> idx -> index (images st') j = index (images st) j)
  /\ length (images st') = length (images st).
Proof.
  intros Hs Hc st'. split; [|split].
  - exists (appended s newImageFile). split; [by apply index_addImageToHistory_eq |].
    unfold appended; simpl. rewrite length_app, length_take. simpl.
    unfold cursorInRange in Hc. repeat split; lia.
  - intros j Hj. by apply index_addImageToHistory_ne.
  - apply length_images_addImageToHistory.
Qed.

(** *** Reset, then redo *)
Lemma withCursor_same s : withCursor s (historyIndex s) = s.
Proof. by destruct s. Qed.

Lemma activeImageState_handleReset st s :
  activeImageState st = Some s ->
  activeImageState (handleReset st) = Some (withCursor s 0).
Proof.
  intros Hs. unfold handleReset. rewrite Hs.
  unfold activeImageState in *.
  change (index (images (updateImageState (activeImageIndex st) (onlyHistoryIndex 0) st))
                (activeImageIndex st) = Some (withCursor s 0)).
  rewrite index_updateImageState, Hs. simpl. by rewrite Z.eqb_refl.
Qed.

Lemma activeImageState_handleRedo st s :
  activeImageState st = Some s ->
  historyIndex s < Z.of_nat (length (history s)) - 1 ->
  activeImageState (handleRedo st) = Some (withCursor s (historyIndex s + 1)).
Proof.
  intros Hs Hlt. unfold handleRedo.
  rewrite Hs, (proj2 (canRedo_true _ _ Hs) Hlt).
  unfold activeImageState in *.
  change (index (images (updateImageState (activeImageIndex st)
                           (onlyHistoryIndex (historyIndex s + 1)) st))
                (activeImageIndex st) = Some (withCursor s (historyIndex s + 1))).
  rewrite index_updateImageState, Hs. simpl. by rewrite Z.eqb_refl.
Qed.

Lemma activeImageState_redo_iter st s (k : nat) :
  activeImageState st = Some s ->
  historyIndex s = 0 ->
  Z.of_nat k < Z.of_nat (length (history s)) ->
  activeImageState (Nat.iter k handleRedo st) = Some (withCursor s (Z.of_nat k)).
Proof.
  intros Hs H0 Hk. induction k as [|k IH]; simpl.
  - rewrite Hs. replace (Z.of_nat 0) with (historyIndex s) by lia.
    by rewrite withCursor_same.
  - rewrite (activeImageState_handleRedo _ (withCursor s (Z.of_nat k))).
    + unfold withCursor. simpl. do 2 f_equal. lia.
    + apply IH. lia.
    + simpl. lia.
Qed.

(** C8.  Let the active image have its cursor at p, in range.  Reset sets
    the cursor to 0 and deletes no history entry.  Redo performed k times
    after it, for any k <= p, leaves the cursor at k with the history still
    as it was; so for k = p the active image is again what it was before
    the reset, and the entry shown is the one that was shown. *)
Theorem reset_then_redo (st : AppState) (s : ImageState) :
  activeImageState st = Some s ->
  cursorInRange s ->
  (activeImageState (handleReset st) = Some (withCursor s 0)
   /\ history <$> images (handleReset st) = history <$> images st)
  /\ (forall k : nat, Z.of_nat k <= historyIndex s ->
        let st' := Nat.iter k handleRedo (handleReset st) in
        activeImageState st' = Some (withCursor s (Z.of_nat k))
        /\ history <$> images st' = history <$> images st)
  /\ (let st' := Nat.iter (Z.to_nat (historyIndex s)) handleRedo (handleReset st) in
      activeImageState st' = Some s /\ currentImage st' = currentImage st).
Proof.
  intros Hs Hc. unfold cursorInRange in Hc.
  pose proof (activeImageState_handleReset _ _ Hs) as Hreset.
  assert (forall k : nat, Z.of_nat k <= historyIndex s ->
            activeImageState (Nat.iter k handleRedo (handleReset st))
            = Some (withCursor s (Z.of_nat k))) as Hiter.
  { intros k Hk.
    rewrite (activeImageState_redo_iter _ (withCursor s 0)); simpl; try done; lia. }
  split; [|split].
  - split; [done | apply histories_handleReset].
  - intros k Hk. split; [by apply Hiter |].
    clear Hk. induction k as [|k IH]; simpl.
    + apply histories_handleReset.
    + by rewrite histories_handleRedo.
  - assert (activeImageState
              (Nat.iter (Z.to_nat (historyIndex s)) handleRedo (handleReset st))
            = Some s) as Hback.
    { rewrite Hiter by lia. rewrite Z2Nat.id by lia. by rewrite withCursor_same. }
    split; [done |]. unfold currentImage. by rewrite Hback, Hs.
Qed.

End SessionFacts.

(** ** The batch controller *)
Module BatchFacts.
Import Js Batch Session HistoryFacts.

Section Controller.
Variable operation : nat -> File -> string -> result string.
Variable now : nat -> Z.
Variable promptArg : string.
Variable operationName : string.

(** *** The guard *)
Lemma batchTargets_all st :
  batchTargets true st = Z.of_nat <$> seq 0 (length (images st)).
Proof. unfold batchTargets. apply imap_seq_0. Qed.

Lemma someInvalidTarget_false all st :
  someInvalidTarget all st = false <->
  forall t, t ∈ batchTargets all st -> is_Some (index (images st) t).
Proof.
  unfold someInvalidTarget. split.
  - intros H t Ht.
    destruct (index (images st) t) as [s|] eqn:Hs; [by eexists | exfalso].
    assert (existsb (fun i => (i <? 0)
              || negb (bool_decide (is_Some (index (images st) i))))
              (batchTargets all st) = true) as Habs; [|congruence].
    apply existsb_exists. exists t. split; [by apply list_elem_of_In |].
    rewrite Hs. apply orb_true_iff. right.
    rewrite bool_decide_eq_false_2; [done | by intros [??]].
  - intros H. apply not_true_is_false. intros (t & Ht & Hbad)%existsb_exists.
    apply list_elem_of_In, H in Ht. pose proof Ht as [Hge _]%index_is_Some.
    apply orb_true_iff in Hbad as [Hneg%Z.ltb_lt | Hnone]; [lia |].
    by rewrite bool_decide_eq_true_2 in Hnone.
Qed.

Lemma someInvalidTarget_all st : someInvalidTarget true st = false.
Proof.
  apply someInvalidTarget_false. intros t Ht.
  rewrite batchTargets_all in Ht.
  apply list_elem_of_fmap in Ht as (n & -> & Hn).
  apply elem_of_seq in Hn. apply index_is_Some. lia.
Qed.

Lemma someInvalidTarget_single st :
  someInvalidTarget false st = true <->
  activeImageState st = None.
Proof.
  destruct (someInvalidTarget false st) eqn:E.
  - split; [intros _ | done].
    destruct (activeImageState st) as [s|] eqn:Hs; [exfalso | done].
    assert (someInvalidTarget false st = false) as E'; [|congruence].
    apply someInvalidTarget_false. intros t Ht. unfold batchTargets in Ht.
    apply list_elem_of_singleton in Ht as ->. by exists s.
  - split; [done | intros Hn; exfalso].
    apply (proj1 (someInvalidTarget_false _ _)) with (t := activeImageIndex st) in E.
    + unfold activeImageState in Hn. rewrite Hn in E. by destruct E.
    + unfold batchTargets. by apply list_elem_of_singleton.
Qed.

Lemma batchTargets_NoDup all st : NoDup (batchTargets all st).
Proof.
  destruct all.
  - rewrite batchTargets_all. apply NoDup_fmap; [|apply NoDup_seq].
    intros ???. lia.
  - apply NoDup_singleton.
Qed.

(** *** One iteration *)
Lemma settle_Ok i img f :
  settle operation now promptArg operationName i img = Ok f ->
  exists url, operation i img promptArg = Ok url /\
              dataURLtoFile url (resultFileName now operationName i) = Ok f.
Proof.
  unfold settle, bind. destruct (operation i img promptArg) as [url|]; [|done].
  intros H. by exists url.
Qed.

Lemma settle_Throw i img e :
  settle operation now promptArg operationName i img = Throw e ->
  operation i img promptArg = Throw e \/
  exists url, operation i img promptArg = Ok url /\
              dataURLtoFile url (resultFileName now operationName i) = Throw e.
Proof.
  unfold settle, bind. destruct (operation i img promptArg) as [url|e'].
  - intros H. right. by exists url.
  - intros [= ->]. by left.
Qed.

Lemma shownAt_Some st t img :
  shownAt st t = Some img ->
  exists s, index (images st) t = Some s /\
            index (history s) (historyIndex s) = Some img /\
            cursorInRange s.
Proof.
  unfold shownAt. destruct (index (images st) t) as [s|]; [|done].
  simpl. intros H. exists s. split; [done |]. split; [done |].
  by eapply index_lt.
Qed.

Lemma targetInput_Some all st j img :
  targetInput all st j = Some img ->
  exists t, batchTargets all st !! j = Some t /\ shownAt st t = Some img.
Proof.
  unfold targetInput. destruct (batchTargets all st !! j) as [t|]; [|done].
  simpl. intros H. by exists t.
Qed.

(** *** The loop, when iteration [k] is the first to fail *)
Lemma batchLoop_first_failure all snap total (files : nat -> File) (e : exn) :
  forall targets i cur calls k,
    NoDup targets ->
    (forall t, t ∈ targets -> index (images cur) t = index (images snap) t) ->
    (forall j, (j < k)%nat ->
       exists t img, targets !! j = Some t /\ shownAt snap t = Some img /\
         settle operation now promptArg operationName (i + j) img
         = Ok (files (i + j)%nat)) ->
    (exists t img, targets !! k = Some t /\ shownAt snap t = Some img /\
       settle operation now promptArg operationName (i + k) img = Throw e) ->
    let r := batchLoop operation now promptArg operationName all
               snap total targets i cur calls in
    endThrown r = Some e
    /\ length (endCalls r) = (length calls + k + 1)%nat
    /\ (forall j t s, (j < k)%nat -> targets !! j = Some t ->
          index (images snap) t = Some s ->
          index (images (endState r)) t = Some (appended s (files (i + j)%nat)))
    /\ (forall t, t ∉ take k targets ->
          index (images (endState r)) t = index (images cur) t)
    /\ length (images (endState r)) = length (images cur).
Proof.
  induction targets as [|t rest IH]; intros i cur calls k Hnd Hcur Hok Hfail.
  { by destruct Hfail as (t & img & Ht & _). }
  apply NoDup_cons in Hnd as [Hnotin Hnd].
  assert (exists img, shownAt snap t = Some img /\
            match k with
            | O => settle operation now promptArg operationName i img = Throw e
            | S _ => settle operation now promptArg operationName i img = Ok (files i)
            end) as (img & Himg & Hsettle).
  { destruct k as [|k].
    - destruct Hfail as (t' & img & [= <-] & Himg & Hs). exists img.
      by rewrite Nat.add_0_r in Hs.
    - destruct (Hok 0%nat ltac:(lia)) as (t' & img & [= <-] & Himg & Hs).
      exists img. by rewrite Nat.add_0_r in Hs. }
  destruct (shownAt_Some _ _ _ Himg) as (s & Hs & Hshown & Hc).
  cbn [batchLoop]. rewrite Hs, Hshown.
  destruct k as [|k].
  - (* the first iteration fails *)
    apply settle_Throw in Hsettle as [Hop | (url & Hop & Hdec)]; rewrite Hop;
      [|rewrite Hdec]; simpl.
    all: split; [done |]; split; [rewrite length_app; simpl; lia |].
    all: split; [intros; lia |]; done.
  - (* the first iteration succeeds *)
    apply settle_Ok in Hsettle as (url & Hop & Hdec). rewrite Hop, Hdec.
    set (cur' := addImageToHistory (activeImageIndex snap) (files i) t
                   (setLoadingMessage
                      (Some (progressMessage operationName all i total)) cur)).
    set (calls' := calls ++ [mkCall img promptArg]).
    assert (forall t', t' <> t -> index (images cur') t' = index (images cur) t')
      as Hother.
    { intros t' Hne. unfold cur'. by rewrite index_addImageToHistory_ne. }
    destruct (IH (S i) cur' calls' k Hnd) as (Hthrown & Hcalls & Hdone & Hrest & Hlen).
    + intros t' Ht'. rewrite Hother; [apply Hcur; by right |]. by intros ->.
    + intros j Hj. destruct (Hok (S j) ltac:(lia)) as (t' & img' & Ht' & Himg' & Hs').
      exists t', img'. replace (S i + j)%nat with (i + S j)%nat by lia. done.
    + destruct Hfail as (t' & img' & Ht' & Himg' & Hs').
      exists t', img'. replace (S i + k)%nat with (i + S k)%nat by lia. done.
    + split; [done |]. split.
      { rewrite Hcalls. unfold calls'. rewrite length_app. simpl. lia. }
      split; [|split].
      * intros [|j] t' s' Hj Ht' Hs''; simpl in Ht'.
        -- injection Ht' as <-. rewrite Nat.add_0_r.
           assert (s' = s) as -> by congruence.
           rewrite Hrest.
           ++ unfold cur'. apply index_addImageToHistory_eq; [|done].
              change (index (images cur) t = Some s).
              rewrite Hcur; [done | by left].
           ++ intros Hin'%elem_of_take. destruct Hin' as (n & Hn & _).
              apply Hnotin. by eapply list_elem_of_lookup_2.
        -- replace (i + S j)%nat with (S i + j)%nat by lia.
           apply Hdone; [lia | done | done].
      * intros t' Ht'. simpl in Ht'. apply not_elem_of_cons in Ht' as [Hne Ht'].
        rewrite Hrest by done. by apply Hother.
      * rewrite Hlen. unfold cur'.
        by rewrite length_images_addImageToHistory.
Qed.

(** When the operation is handed an image at some position, the guard has
    let the batch through. *)
Lemma guard_passes_when_called all st k img :
  targetInput all st k = Some img -> someInvalidTarget all st = false.
Proof.
  intros (t & Ht & Himg)%targetInput_Some. destruct all.
  - apply someInvalidTarget_all.
  - apply not_true_is_false. intros Hbad%someInvalidTarget_single.
    unfold batchTargets in Ht. destruct k as [|k]; [|done].
    injection Ht as <-. apply shownAt_Some in Himg as (s & Hs & _).
    unfold activeImageState in Hbad. congruence.
Qed.

(** C4.  Take a batch in which the operation is applied with success to the
    targets 0..k-1 and fails on target k.  The batch halts at k: each of
    the first k targets has its history cut after the cursor and exactly
    one new entry appended, target k and all later targets (and every image
    that is no target) are unchanged, nothing is rolled back, no call is
    made after the failing one, and the failure is reported. *)
Theorem batch_halts_at_first_failure
    (applyToAll : bool) (st : AppState) (k : nat) (files : nat -> File) (e : exn) :
  (forall j, (j < k)%nat ->
     exists img, targetInput applyToAll st j = Some img /\
       settle operation now promptArg operationName j img = Ok (files j)) ->
  (exists img, targetInput applyToAll st k = Some img /\
     settle operation now promptArg operationName k img = Throw e) ->
  let targets := batchTargets applyToAll st in
  let st' := (handleApplyBatchOperation operation now promptArg operationName
                applyToAll st).1 in
  let calls := (handleApplyBatchOperation operation now promptArg operationName
                  applyToAll st).2 in
  (forall j t s, (j < k)%nat -> targets !! j = Some t ->
     index (images st) t = Some s ->
     index (images st') t = Some (appended s (files j)))
  /\ (forall j t, (k <= j)%nat -> targets !! j = Some t ->
       index (images st') t = index (images st) t)
  /\ (forall t, t ∉ targets -> index (images st') t = index (images st) t)
  /\ length (images st') = length (images st)
  /\ error st' = Some (failureMessage operationName e)
  /\ length calls = (k + 1)%nat.
Proof.
  intros Hok Hfail targets st' calls.
  subst st' calls. unfold handleApplyBatchOperation.
  destruct Hfail as (imgk & Hk & Hfail).
  rewrite (guard_passes_when_called _ _ _ _ Hk).
  fold targets.
  pose proof (batchTargets_NoDup applyToAll st) as Hnd. fold targets in Hnd.
  destruct (batchLoop_first_failure applyToAll st (length targets) files e
              targets 0%nat (setError None st) [] k Hnd)
    as (Hthrown & Hcalls & Hdone & Hrest & Hlen).
  - done.
  - intros j Hj. destruct (Hok j Hj) as (img & (t & Ht & Himg)%targetInput_Some & Hs).
    by exists t, img.
  - apply targetInput_Some in Hk as (t & Ht & Himg). by exists t, imgk.
  - rewrite Hthrown. cbn [fst snd].
    split; [|split; [|split; [|split; [|split]]]].
    + intros j t s Hj Ht Hs. by apply (Hdone j t s).
    + intros j t Hj Ht. apply Hrest.
      intros (n & Hn & Hlt)%elem_of_take.
      pose proof (NoDup_lookup _ _ _ _ Hnd Hn Ht). lia.
    + intros t Ht. apply Hrest. intros (n & Hn & _)%elem_of_take. apply Ht.
      by eapply list_elem_of_lookup_2.
    + done.
    + done.
    + done.
Qed.

(** *** What the loop and the catch block never write *)
Lemma error_batchLoop all snap total :
  forall targets i cur calls,
    error (endState (batchLoop operation now promptArg operationName all
                       snap total targets i cur calls))
    = error cur.
Proof.
  induction targets as [|t rest IH]; intros i cur calls; [done |].
  cbn [batchLoop].
  destruct (index (images snap) t) as [s|]; [|done].
  destruct (index (history s) (historyIndex s)) as [img|]; [|by apply IH].
  destruct (operation i img promptArg) as [url|e]; [|done].
  destruct (dataURLtoFile url _) as [f|e]; [|done].
  rewrite IH. unfold addImageToHistory. by destruct (t =? activeImageIndex snap).
Qed.

Lemma failureMessage_not_noTargetMessage (err : exn) :
  failureMessage operationName err <> noTargetMessage operationName.
Proof. unfold failureMessage, noTargetMessage. simpl. discriminate. Qed.

(** Past the guard, the error the handler leaves is never the no-target
    message: it is the failure message of the catch block, or none. *)
Lemma error_past_guard (applyToAll : bool) (st : AppState) :
  someInvalidTarget applyToAll st = false ->
  error (handleApplyBatchOperation operation now promptArg operationName
           applyToAll st).1
  <> Some (noTargetMessage operationName).
Proof.
  intros Hguard. unfold handleApplyBatchOperation. rewrite Hguard. cbn [fst].
  destruct (endThrown _) as [err|].
  - change (error (setLoadingMessage None (setError ?m ?x))) with m.
    intros H. apply (failureMessage_not_noTargetMessage err). congruence.
  - change (error (setLoadingMessage None ?x)) with (error x).
    by rewrite error_batchLoop.
Qed.

(** C6, as the code has it.  The batch reports the no-target error exactly
    when the batch is for the active image alone and the active index is
    negative or is no index of the collection (an empty collection
    included), which is when the guard finds an invalid target; it then
    makes no remote call and changes no state but the error.  With the flag
    apply-to-all every target is an index of the collection, so the error
    is never reported, whatever the operation does; on an empty collection
    the batch then makes no remote call, changes no image and reports no
    error. *)
Theorem batch_no_target_selected (applyToAll : bool) (st : AppState) :
  let r := handleApplyBatchOperation operation now promptArg operationName
             applyToAll st in
  let invalid :=
    activeImageIndex st < 0 \/ Z.of_nat (length (images st)) <= activeImageIndex st in
  (error r.1 = Some (noTargetMessage operationName) <-> applyToAll = false /\ invalid)
  /\ (someInvalidTarget applyToAll st = true <-> applyToAll = false /\ invalid)
  /\ (applyToAll = false /\ invalid ->
        r = (setError (Some (noTargetMessage operationName)) st, []))
  /\ (applyToAll = true -> error r.1 <> Some (noTargetMessage operationName))
  /\ (applyToAll = true -> images st = [] ->
        r = (setLoadingMessage None (setError None st), [])).
Proof.
  intros r invalid.
  assert (someInvalidTarget applyToAll st = true <-> applyToAll = false /\ invalid)
    as Hguard.
  { unfold invalid. destruct applyToAll.
    + rewrite someInvalidTarget_all. split; [done | by intros [? _]].
    + rewrite someInvalidTarget_single. unfold activeImageState.
      rewrite eq_None_not_Some, index_is_Some. split.
      * intros H. split; [done | lia].
      * intros [_ H]. lia. }
  assert (someInvalidTarget applyToAll st = true ->
          r = (setError (Some (noTargetMessage operationName)) st, [])) as Hfast.
  { intros H. unfold r, handleApplyBatchOperation. by rewrite H. }
  split; [|split; [done |split; [|split]]].
  - split.
    + intros Herr. apply Hguard.
      destruct (someInvalidTarget applyToAll st) eqn:Hg; [done |].
      by apply error_past_guard in Herr.
    + intros H%Hguard. by rewrite (Hfast H).
  - intros H%Hguard. by apply Hfast.
  - intros ->. apply error_past_guard, someInvalidTarget_all.
  - intros -> Hempty. unfold r, handleApplyBatchOperation.
    rewrite someInvalidTarget_all. unfold batchTargets. rewrite Hempty. done.
Qed.

End Controller.

End BatchFacts.

(** ** Base64 *)
Module Base64Facts.
Import Base64.

(** Induction over octets, three at a time. *)
Lemma octets_ind3 (P : list N -> Prop) :
  P [] ->
  (forall a, P [a]) ->
  (forall a b, P [a; b]) ->
  (forall a b c rest, P rest -> P (a :: b :: c :: rest)) ->
  forall octets, P octets.
Proof.
  intros H0 H1 H2 H3 octets.
  assert (P octets /\ (forall a, P (a :: octets)) /\ (forall a b, P (a :: b :: octets)))
    as [H _]; [|done].
  induction octets as [|c rest (IH0 & IH1 & IH2)]; [by auto |].
  split; [by apply IH1 |]. split; [by intros; apply IH2 |].
  intros a b. by apply H3.
Qed.

(** *** The alphabet *)
Lemma b64char_cases (P : ascii -> Prop) :
  (forall n, (n < 64)%nat -> P (b64char (N.of_nat n))) ->
  P "/"%char ->
  forall v, P (b64char v).
Proof.
  intros Hlt Hdef v.
  destruct (decide (N.to_nat v < 64)%nat) as [H|H].
  - rewrite <- (N2Nat.id v). by apply Hlt.
  - unfold b64char.
    assert (String.get (N.to_nat v) alphabet = None) as ->; [|done].
    replace (N.to_nat v) with (64 + (N.to_nat v - 64))%nat by lia.
    done.
Qed.

Lemma below_64 (p : nat -> bool) :
  forallb p (seq 0 64) = true -> forall n, (n < 64)%nat -> p n = true.
Proof.
  intros H n Hn. rewrite forallb_forall in H. apply H, in_seq. lia.
Qed.

Lemma b64char_not_pad v : isPad (b64char v) = false.
Proof.
  apply b64char_cases; [|done]. intros n Hn. apply negb_true_iff.
  by apply (below_64 (fun n => negb (isPad (b64char (N.of_nat n))))).
Qed.

Lemma b64char_not_whitespace v : isAsciiWhitespace (b64char v) = false.
Proof.
  apply b64char_cases; [|done]. intros n Hn. apply negb_true_iff.
  by apply (below_64 (fun n => negb (isAsciiWhitespace (b64char (N.of_nat n))))).
Qed.

Lemma b64char_not_comma v : Js.isComma (b64char v) = false.
Proof.
  apply b64char_cases; [|done]. intros n Hn. apply negb_true_iff.
  by apply (below_64 (fun n => negb (Js.isComma (b64char (N.of_nat n))))).
Qed.

Lemma b64val_b64char v : (v < 64)%N -> b64val (b64char v) = Some v.
Proof.
  intros Hv. rewrite <- (N2Nat.id v).
  assert (forallb (fun n => bool_decide (b64val (b64char (N.of_nat n)) = Some (N.of_nat n)))
            (seq 0 64) = true) as Hall by by vm_compute.
  pose proof (below_64 _ Hall (N.to_nat v) ltac:(lia)) as H.
  by apply bool_decide_eq_true in H.
Qed.

(** *** Sextets and octets *)
Lemma sextets_bounded (a b : N) :
  (a < 256 -> b < 256 ->
   sextet0 a < 64 /\ sextet1 a b < 64 /\ sextet2 a b < 64 /\ sextet3 a < 64)%N.
Proof.
  unfold sextet0, sextet1, sextet2, sextet3. intros Ha Hb.
  zify. Z.to_euclidean_division_equations. lia.
Qed.

Lemma octet0_sextets (a b : N) :
  (a < 256 -> b < 256 -> octet0 (sextet0 a) (sextet1 a b) = a)%N.
Proof.
  unfold octet0, sextet0, sextet1. intros Ha Hb.
  zify. Z.to_euclidean_division_equations. lia.
Qed.

Lemma octet1_sextets (a b c : N) :
  (a < 256 -> b < 256 -> c < 256 ->
   octet1 (sextet1 a b) (sextet2 b c) = b)%N.
Proof.
  unfold octet1, sextet1, sextet2. intros Ha Hb Hc.
  zify. Z.to_euclidean_division_equations. lia.
Qed.

Lemma octet2_sextets (b c : N) :
  (b < 256 -> c < 256 -> octet2 (sextet2 b c) (sextet3 c) = c)%N.
Proof.
  unfold octet2, sextet2, sextet3. intros Hb Hc.
  zify. Z.to_euclidean_division_equations. lia.
Qed.

Lemma sextetsOf_bounded octets :
  Forall isOctet octets -> Forall (fun v => (v < 64)%N) (sextetsOf octets).
Proof.
  unfold isOctet.
  induction octets as [|a|a b|a b c rest IH] using octets_ind3; intros H; simpl.
  - done.
  - apply Forall_cons in H as [Ha _].
    destruct (sextets_bounded a 0 Ha ltac:(lia)) as (? & ? & _).
    by repeat constructor.
  - apply Forall_cons in H as [Ha [Hb _]%Forall_cons].
    destruct (sextets_bounded a b Ha Hb) as (? & ? & _).
    destruct (sextets_bounded b 0 Hb ltac:(lia)) as (_ & _ & ? & _).
    by repeat constructor.
  - apply Forall_cons in H as [Ha [Hb [Hc Hrest]%Forall_cons]%Forall_cons].
    destruct (sextets_bounded a b Ha Hb) as (? & ? & _).
    destruct (sextets_bounded b c Hb Hc) as (_ & _ & ? & _).
    destruct (sextets_bounded c 0 Hc ltac:(lia)) as (_ & _ & _ & ?).
    repeat (constructor; [done |]). by apply IH.
Qed.

Lemma decodeSextets_sextetsOf octets :
  Forall isOctet octets -> decodeSextets (sextetsOf octets) = octets.
Proof.
  unfold isOctet.
  induction octets as [|a|a b|a b c rest IH] using octets_ind3; intros H; simpl.
  - done.
  - apply Forall_cons in H as [Ha _].
    by rewrite octet0_sextets by lia.
  - apply Forall_cons in H as [Ha [Hb _]%Forall_cons].
    by rewrite octet0_sextets, (octet1_sextets a b 0) by lia.
  - apply Forall_cons in H as [Ha [Hb [Hc Hrest]%Forall_cons]%Forall_cons].
    rewrite octet0_sextets, (octet1_sextets a b c), octet2_sextets by lia.
    by rewrite IH.
Qed.

(** The number of sextets is never 1 modulo 4, and with the padding the
    length is a multiple of 4. *)
Lemma length_sextetsOf octets :
  (length (sextetsOf octets) mod 4 <> 1
   /\ (length (sextetsOf octets) + length (padding (length octets))) mod 4 = 0)%nat.
Proof.
  induction octets as [|a|a b|a b c rest [IH1 IH2]] using octets_ind3.
  - done.
  - done.
  - done.
  - assert (padding (length (a :: b :: c :: rest)) = padding (length rest)) as ->.
    { unfold padding. simpl length.
      by replace (S (S (S (length rest)))) with (length rest + 1 * 3)%nat
        by lia; rewrite Nat.Div0.mod_add. }
    simpl length.
    replace (S (S (S (S (length (sextetsOf rest))))))
      with (length (sextetsOf rest) + 1 * 4)%nat by lia.
    replace (length (sextetsOf rest) + 1 * 4 + length (padding (length rest)))%nat
      with (length (sextetsOf rest) + length (padding (length rest)) + 1 * 4)%nat
      by lia.
    by rewrite !Nat.Div0.mod_add.
Qed.

(** *** Decoding what was encoded *)
Lemma rev_fmap {A B} (f : A -> B) (l : list A) : rev (f <$> l) = f <$> rev l.
Proof.
  induction l as [|x l IH]; [done |].
  rewrite fmap_cons. cbn [rev]. by rewrite IH, fmap_app.
Qed.

Lemma filter_all {A} (p : A -> bool) (l : list A) :
  Forall (fun x => p x = true) l -> filter (fun x => p x) l = l.
Proof.
  induction 1 as [|x l Hx _ IH]; [done |].
  rewrite filter_cons_True by by rewrite Hx. by rewrite IH.
Qed.

Lemma padding_cases n :
  padding n = [] \/ padding n = [pad] \/ padding n = [pad; pad].
Proof.
  unfold padding. destruct (n mod 3)%nat as [|[|[|?]]]; auto.
Qed.

Lemma removePadding_encoded (sextets : list N) (n : nat) :
  removePadding ((b64char <$> sextets) ++ padding n) = b64char <$> sextets.
Proof.
  unfold removePadding. rewrite rev_app_distr, rev_fmap.
  remember (rev sextets) as r eqn:E.
  assert (sextets = rev r) as -> by (subst r; by rewrite rev_involutive).
  clear E.
  destruct r as [|v r].
  - destruct (padding_cases n) as [-> | [-> | ->]]; done.
  - rewrite fmap_cons.
    assert (rev (b64char v :: (b64char <$> r)) = b64char <$> rev (v :: r)) as Hr.
    { by rewrite <- rev_fmap, fmap_cons. }
    destruct (padding_cases n) as [-> | [-> | ->]]; cbn [rev app].
    + rewrite b64char_not_pad. apply app_nil_r.
    + change (isPad pad) with true. cbn iota. by rewrite b64char_not_pad.
    + change (isPad pad) with true. cbn iota. by rewrite fmap_app, rev_fmap.
Qed.

Lemma encoded_no_whitespace (sextets : list N) (n : nat) :
  Forall (fun c => negb (isAsciiWhitespace c) = true)
         ((b64char <$> sextets) ++ padding n).
Proof.
  apply Forall_app. split.
  - apply Forall_fmap, Forall_forall. intros v _. simpl.
    by rewrite b64char_not_whitespace.
  - destruct (padding_cases n) as [-> | [-> | ->]]; by repeat constructor.
Qed.

Theorem atob_btoa (octets : list N) :
  Forall isOctet octets -> atob (btoa octets) = Some octets.
Proof.
  intros Hoct. unfold atob, btoa.
  rewrite list_ascii_of_string_of_list_ascii.
  rewrite (filter_all (fun c => negb (isAsciiWhitespace c)))
    by apply encoded_no_whitespace.
  destruct (length_sextetsOf octets) as [Hne Hzero].
  rewrite length_app, length_fmap, Hzero.
  change (0 =? 0)%nat with true. cbn iota.
  rewrite removePadding_encoded, length_fmap.
  destruct (Nat.eqb_spec (length (sextetsOf octets) mod 4) 1) as [E|_]; [done |].
  rewrite mapM_fmap_Forall_Some.
  - cbn [fmap option_fmap option_map]. by rewrite decodeSextets_sextetsOf.
  - eapply Forall_impl; [by apply sextetsOf_bounded |].
    intros v Hv. by apply b64val_b64char.
Qed.

(** The payload of an encoded blob holds no comma. *)
Lemma allChars_of_list (p : ascii -> bool) (l : list ascii) :
  Js.allChars p (string_of_list_ascii l) = forallb p l.
Proof. induction l as [|c l IH]; simpl; [done | by rewrite IH]. Qed.

Lemma btoa_noComma (octets : list N) : Encoder.noComma (btoa octets) = true.
Proof.
  unfold btoa, Encoder.noComma. rewrite allChars_of_list, forallb_app.
  apply andb_true_iff. split.
  - induction (sextetsOf octets) as [|v sextets IH]; [done |].
    rewrite fmap_cons. cbn [forallb]. by rewrite b64char_not_comma, IH.
  - by destruct (padding_cases (length octets)) as [-> | [-> | ->]].
Qed.

End Base64Facts.

(** ** The data-URL codec *)
Module CodecFacts.
Import Js JsFacts Encoder Base64Facts.

(** *** Splitting at commas *)
Lemma split_comma_nonempty (s : string) : split_comma s <> [].
Proof.
  destruct s as [|c s]; simpl; [done |].
  destruct (isComma c); [done |]. by destruct (split_comma s).
Qed.

Lemma split_comma_noComma (s : string) :
  noComma s = true -> split_comma s = [s].
Proof.
  unfold noComma. induction s as [|c s IH]; simpl; [done |].
  intros [Hc Hs]%andb_true_iff. apply negb_true_iff in Hc.
  by rewrite Hc, IH.
Qed.

Lemma split_comma_app (head tail : string) :
  noComma head = true ->
  split_comma (head +:+ String "," tail) = head :: split_comma tail.
Proof.
  unfold noComma. induction head as [|c head IH]; simpl; [done |].
  intros [Hc Hs]%andb_true_iff. apply negb_true_iff in Hc.
  by rewrite Hc, IH.
Qed.

Lemma split_comma_inv (s head : string) (segs : list string) :
  split_comma s = head :: segs ->
  noComma head = true /\
  ((segs = [] /\ s = head) \/
   exists tail, s = head +:+ String "," tail /\ segs = split_comma tail).
Proof.
  unfold noComma. revert head segs.
  induction s as [|c s IH]; intros head segs; simpl.
  - intros [= <- <-]. split; [done | by left].
  - destruct (isComma c) eqn:Hc.
    + intros [= <- <-]. split; [done |]. right. exists s.
      apply Ascii.eqb_eq in Hc. by subst.
    + destruct (split_comma s) as [|seg segs'] eqn:Hsp;
        [by apply split_comma_nonempty in Hsp |].
      intros [= <- <-]. destruct (IH seg segs' eq_refl) as [Hno Hcases].
      split; [simpl; by rewrite Hc, Hno |].
      destruct Hcases as [[-> ->] | (tail & -> & ->)]; [by left |].
      right. by exists tail.
Qed.

Lemma allChars_append (p : ascii -> bool) (s t : string) :
  allChars p (s +:+ t) = allChars p s && allChars p t.
Proof.
  induction s as [|c s IH]; simpl; [done |]. by rewrite IH, andb_assoc.
Qed.

Lemma allChars_impl (p q : ascii -> bool) (s : string) :
  (forall c, p c = true -> q c = true) ->
  allChars p s = true -> allChars q s = true.
Proof.
  intros Hpq. induction s as [|c s IH]; simpl; [done |].
  intros [Hc Hs]%andb_true_iff. by rewrite (Hpq _ Hc), IH.
Qed.

(** *** The media type between the colon and the semicolon *)
Lemma lazy_to_semi_app (t rest : string) :
  allChars (fun c => negb (isSemi c) && negb (isLineTerminator c)) t = true ->
  lazy_to_semi (t +:+ String ";" rest) = Some t.
Proof.
  induction t as [|c t IH]; simpl; [done |].
  intros [[Hs Hl]%andb_true_iff Ht]%andb_true_iff.
  apply negb_true_iff in Hs, Hl. by rewrite Hs, Hl, IH.
Qed.

Lemma lazy_to_semi_inv (s g : string) :
  lazy_to_semi s = Some g -> exists post, s = g +:+ String ";" post.
Proof.
  revert g. induction s as [|c s IH]; intros g; simpl; [done |].
  destruct (isSemi c) eqn:Hs.
  - intros [= <-]. exists s. apply Ascii.eqb_eq in Hs. by subst.
  - destruct (isLineTerminator c); [done |].
    destruct (lazy_to_semi s) as [g'|]; simpl; [|done].
    intros [= <-]. destruct (IH g' eq_refl) as [post ->]. by exists post.
Qed.

Lemma match_colon_semi_inv (s g : string) :
  match_colon_semi s = Some g ->
  exists pre post, s = pre +:+ String ":" (g +:+ String ";" post).
Proof.
  induction s as [|c s IH]; simpl; [done |].
  destruct (isColon c) eqn:Hc.
  - destruct (lazy_to_semi s) as [g'|] eqn:Hl.
    + intros [= ->]. apply lazy_to_semi_inv in Hl as [post ->].
      exists EmptyString, post. apply Ascii.eqb_eq in Hc. by subst.
    + intros (pre & post & ->)%IH. by exists (String c pre), post.
  - intros (pre & post & ->)%IH. by exists (String c pre), post.
Qed.

Lemma lazy_to_semi_no_semi (s : string) :
  allChars (fun c => negb (isSemi c)) s = true -> lazy_to_semi s = None.
Proof.
  induction s as [|c s IH]; simpl; [done |].
  intros [Hs Ht]%andb_true_iff. apply negb_true_iff in Hs. rewrite Hs.
  destruct (isLineTerminator c); [done |]. by rewrite IH.
Qed.

Lemma match_colon_semi_no_semi (s : string) :
  allChars (fun c => negb (isSemi c)) s = true -> match_colon_semi s = None.
Proof.
  induction s as [|c s IH]; simpl; [done |].
  intros [Hs Ht]%andb_true_iff.
  rewrite (lazy_to_semi_no_semi _ Ht), (IH Ht). by destruct (isColon c).
Qed.

Lemma match_colon_semi_no_colon (s : string) :
  allChars (fun c => negb (isColon c)) s = true -> match_colon_semi s = None.
Proof.
  induction s as [|c s IH]; simpl; [done |].
  intros [Hs Ht]%andb_true_iff. apply negb_true_iff in Hs. by rewrite Hs, IH.
Qed.

(** *** Media types *)
Lemma isTypeChar_spec (c : ascii) :
  isTypeChar c = true ->
  isPrintable c = true /\ toLower c = c /\ isComma c = false /\ isSemi c = false
  /\ isLineTerminator c = false.
Proof.
  unfold isTypeChar.
  intros [[[Hp Hl]%andb_true_iff Hc]%andb_true_iff Hs]%andb_true_iff.
  apply negb_true_iff in Hc, Hs. apply Ascii.eqb_eq in Hl.
  repeat split; try done.
  unfold isLineTerminator.
  destruct (Ascii.eqb_spec c "010") as [->|_]; [done |].
  destruct (Ascii.eqb_spec c "013") as [->|_]; done.
Qed.

Lemma normalizeType_parseable (t : string) :
  allChars isTypeChar t = true -> normalizeType t = t.
Proof.
  intros Ht. unfold normalizeType.
  assert (allChars isPrintable t = true) as ->.
  { apply (allChars_impl isTypeChar); [|done].
    by intros c (? & _)%isTypeChar_spec. }
  induction t as [|c t IH]; simpl in *; [done |].
  apply andb_true_iff in Ht as [Hc Ht].
  apply isTypeChar_spec in Hc as (_ & -> & _). by rewrite IH.
Qed.

(** The two halves of the data URL of a blob. *)
Lemma dataUrl_parts (t payload : string) :
  allChars isTypeChar t = true ->
  noComma payload = true ->
  split_comma ("data:" +:+ t +:+ ";base64," +:+ payload)
    = ["data:" +:+ t +:+ ";base64"; payload]
  /\ match_colon_semi ("data:" +:+ t +:+ ";base64") = Some t.
Proof.
  intros Ht Hp. split.
  - replace ("data:" +:+ t +:+ ";base64," +:+ payload)
      with (("data:" +:+ t +:+ ";base64") +:+ String "," payload).
    + rewrite split_comma_app, split_comma_noComma; [done | done |].
      unfold noComma. rewrite !allChars_append.
      rewrite (allChars_impl isTypeChar (fun c => negb (isComma c)) t); [done | | done].
      intros c (_ & _ & -> & _)%isTypeChar_spec. done.
    + rewrite !append_assoc. by simpl.
  - simpl. rewrite lazy_to_semi_app; [done |].
    apply (allChars_impl isTypeChar); [|done].
    intros c (_ & _ & _ & -> & ->)%isTypeChar_spec. done.
Qed.

(** *** Filling the octet array *)
Lemma fillFromEnd_spec (bstr : list N) :
  forall (n : nat) (u8arr : list Byte.byte),
    (n <= length bstr)%nat -> length u8arr = length bstr ->
    fillFromEnd bstr n u8arr
    = take n ((fun code => default Byte.x00 (Byte.of_N (code mod 256)%N)) <$> bstr)
        ++ drop n u8arr.
Proof.
  induction n as [|n IH]; intros u8arr Hn Hlen; [done |].
  cbn [fillFromEnd]. rewrite IH by (rewrite ?length_insert; lia).
  destruct (lookup_lt_is_Some_2 bstr n ltac:(lia)) as [code Hcode].
  rewrite Hcode. cbn [default].
  rewrite (take_S_r _ n (default Byte.x00 (Byte.of_N (code mod 256)%N)))
    by by rewrite list_lookup_fmap, Hcode.
  rewrite <- app_assoc. f_equal.
  rewrite insert_take_drop by lia.
  rewrite drop_app_length'; [done |]. rewrite length_take. lia.
Qed.

Lemma fillFromEnd_octets (octets : list Byte.byte) :
  let bstr := Byte.to_N <$> octets in
  fillFromEnd bstr (length bstr) (replicate (length bstr) Byte.x00) = octets.
Proof.
  intros bstr. rewrite fillFromEnd_spec by (rewrite ?length_replicate; lia).
  rewrite take_ge by (rewrite length_fmap; lia).
  rewrite drop_ge by (rewrite length_replicate; lia).
  rewrite app_nil_r.
  unfold bstr. rewrite <- list_fmap_compose.
  rewrite <- (list_fmap_id octets) at 2. apply list_fmap_ext.
  intros _ b _. simpl.
  pose proof (Byte.to_N_bounded b).
  rewrite N.mod_small by lia. by rewrite Byte.of_to_N.
Qed.

Lemma octets_of_bytes (octets : list Byte.byte) :
  Forall Base64.isOctet (Byte.to_N <$> octets).
Proof.
  apply Forall_fmap, Forall_forall. intros b _. simpl.
  pose proof (Byte.to_N_bounded b). unfold Base64.isOctet. lia.
Qed.

(** *** Encoding, then decoding *)
Lemma fileToPart_parseable (file : File) :
  parseableType (type file) = true ->
  fileToPart file
  = Ok {| mimeType := type file; data := Base64.btoa (Byte.to_N <$> bytes file) |}.
Proof.
  intros [Hne Ht]%andb_true_iff. apply negb_true_iff in Hne.
  unfold fileToPart, readAsDataURL. rewrite Hne. cbv zeta.
  destruct (dataUrl_parts (type file) (Base64.btoa (Byte.to_N <$> bytes file)) Ht
              (btoa_noComma _)) as [-> Hm].
  simpl in Hm |- *. by rewrite Hm, Hne.
Qed.

Lemma dataURLtoFile_encoded (t : string) (octets : list Byte.byte) (filename : string) :
  parseableType t = true ->
  dataURLtoFile ("data:" +:+ t +:+ ";base64," +:+ Base64.btoa (Byte.to_N <$> octets))
                filename
  = Ok {| name := filename; type := t; bytes := octets |}.
Proof.
  intros [Hne Ht]%andb_true_iff. apply negb_true_iff in Hne.
  unfold dataURLtoFile.
  destruct (dataUrl_parts t (Base64.btoa (Byte.to_N <$> octets)) Ht
              (btoa_noComma _)) as [-> Hm].
  simpl in Hm |- *. rewrite Hm, Hne.
  rewrite atob_btoa by apply octets_of_bytes.
  unfold newFile. by rewrite fillFromEnd_octets, normalizeType_parseable.
Qed.

(** C5.  Take an image resource whose media type is parseable.  Encoding it
    with fileToPart succeeds and yields its media type and the base64 of its
    octets; decoding the data URL data:MIME;base64,DATA built from the two
    with dataURLtoFile succeeds and yields a resource with the original
    media type and the same octets. *)
Theorem encode_decode_roundtrip (file : File) (filename : string) :
  parseableType (type file) = true ->
  exists part,
    fileToPart file = Ok part
    /\ mimeType part = type file
    /\ dataURLtoFile ("data:" +:+ mimeType part +:+ ";base64," +:+ data part) filename
       = Ok {| name := filename; type := type file; bytes := bytes file |}.
Proof.
  intros Hp. eexists. split; [by apply fileToPart_parseable |].
  split; [done |]. by apply dataURLtoFile_encoded.
Qed.

(** The hypothesis on the media type is needed: a type with a parameter is
    cut at its first semicolon. *)
Example fileToPart_type_with_parameter :
  fileToPart {| name := "a.png"; type := "image/png;charset=utf-8"; bytes := [] |}
  = Ok {| mimeType := "image/png"; data := EmptyString |}.
Proof. reflexivity. Qed.

(** *** What decoding requires *)
Lemma dataURLtoFile_no_comma (dataurl filename : string) :
  noComma dataurl = true ->
  dataURLtoFile dataurl filename = Throw (Error "Invalid data URL").
Proof.
  intros H. unfold dataURLtoFile. by rewrite split_comma_noComma.
Qed.

Lemma dataURLtoFile_no_mime (head tail filename : string) :
  noComma head = true ->
  match_colon_semi head = None ->
  dataURLtoFile (head +:+ String "," tail) filename
  = Throw (Error "Could not parse MIME type from data URL").
Proof.
  intros Hh Hm. unfold dataURLtoFile. rewrite split_comma_app by done.
  destruct (split_comma tail) as [|seg segs] eqn:Hsp;
    [by apply split_comma_nonempty in Hsp |].
  simpl. by rewrite Hm.
Qed.

(** C7, as the code has it.  Decoding fails with the invalid-data-URL error
    when the string holds no comma, and with the MIME error when the part
    before the first comma holds no colon or no semicolon.  It succeeds
    only if, before the first comma, the string holds a colon, then a
    non-empty media type, then a semicolon; the resource made has the given
    name and that media type in the form a File stores: in ASCII lower case
    when every character lies in U+0020..U+007E, empty otherwise.  So the
    type of the resource is the text between colon and semicolon exactly
    when that text is printable ASCII with no upper-case letter.  Neither
    the scheme data nor the marker base64 is required. *)
Theorem dataURLtoFile_requirements (dataurl filename : string) :
  (noComma dataurl = true ->
     dataURLtoFile dataurl filename = Throw (Error "Invalid data URL"))
  /\ (forall head tail,
        dataurl = head +:+ String "," tail -> noComma head = true ->
        allChars (fun c => negb (isColon c)) head = true
          \/ allChars (fun c => negb (isSemi c)) head = true ->
        dataURLtoFile dataurl filename
        = Throw (Error "Could not parse MIME type from data URL"))
  /\ (forall file,
        dataURLtoFile dataurl filename = Ok file ->
        exists pre mime post tail,
          dataurl = pre +:+ String ":" (mime +:+ String ";" (post +:+ String "," tail))
          /\ mime <> EmptyString
          /\ noComma pre = true /\ noComma mime = true /\ noComma post = true
          /\ type file = normalizeType mime
          /\ type file
             = (if allChars isPrintable mime then mapChars toLower mime
                else EmptyString)
          /\ (type file = mime <->
                allChars isPrintable mime = true /\ mapChars toLower mime = mime)
          /\ name file = filename).
Proof.
  split; [apply dataURLtoFile_no_comma | split].
  - intros head tail -> Hh [Hc|Hs]; apply dataURLtoFile_no_mime; try done.
    + by apply match_colon_semi_no_colon.
    + by apply match_colon_semi_no_semi.
  - intros file. unfold dataURLtoFile.
    destruct (split_comma dataurl) as [|head [|seg segs]] eqn:Hsp; try done.
    apply split_comma_inv in Hsp as [Hh [[? _] | (tail & -> & Hsegs)]]; [done |].
    simpl.
    destruct (match_colon_semi head) as [mime|] eqn:Hm; [|done].
    destruct (String.eqb mime EmptyString) eqn:Hne; [done |].
    apply String.eqb_neq in Hne.
    destruct (Base64.atob seg) as [bstr|]; [|done].
    intros [= <-].
    apply match_colon_semi_inv in Hm as (pre & post & ->).
    exists pre, mime, post, tail.
    unfold noComma in Hh. rewrite allChars_append in Hh. simpl in Hh.
    rewrite allChars_append in Hh. simpl in Hh.
    apply andb_true_iff in Hh as [Hpre [Hmime Hpost]%andb_true_iff].
    split; [rewrite append_assoc; simpl; by rewrite append_assoc |].
    do 6 (split; [done |]). split; [|done].
    cbn [type newFile]. unfold normalizeType.
    destruct (allChars isPrintable mime).
    + split; [by intros H | by intros [_ H]].
    + split; [intros H; by symmetry in H | by intros [? _]].
Qed.

End CodecFacts.

(** ** The theorems at concrete inputs *)
Module Runs.
Import Js Samples.

(** The validator on a blocked response that holds an image, and on an
    image that comes with a refusal. *)
Lemma handleApiResponse_priority_witness :
  Validator.handleApiResponse blockedWithImage "edit"
    = Throw (Error (Validator.blockedMessage "SAFETY" None))
  /\ Validator.handleApiResponse imageWithRefusal "edit"
    = Ok "data:image/png;base64,QUJD".
Proof.
  split.
  - apply (proj1 (ValidatorFacts.handleApiResponse_priority blockedWithImage "edit")
             "SAFETY"); [reflexivity | discriminate].
  - apply (proj1 (proj2 (ValidatorFacts.handleApiResponse_priority imageWithRefusal "edit"))
             (Validator.mkBlob (Some "image/png") (Some "QUJD"))); reflexivity.
Defined.

Lemma handleApiResponse_first_candidate_only_witness :
  Validator.isBlocked imageInSecondCandidate = false
  /\ (~ Validator.firstCandidateHasImage imageInSecondCandidate ->
      (exists fr,
          (Validator.candidates imageInSecondCandidate ≫= head)
            ≫= Validator.finishReason = Some fr /\
          Validator.handleApiResponse imageInSecondCandidate "edit"
          = Throw (Error (Validator.refusedMessage "edit" fr)))
      \/ Validator.handleApiResponse imageInSecondCandidate "edit"
         = Throw (Error (Validator.noImageMessage "edit"
                           (trim <$> Validator.text imageInSecondCandidate)))).
Proof.
  split; [reflexivity |].
  apply (ValidatorFacts.handleApiResponse_first_candidate_only
           imageInSecondCandidate "edit"); reflexivity.
Defined.

Lemma generateRandomPrompt_empty_suggestion_witness :
  Suggest.generateRandomPrompt Suggest.background (fun _ => Suggest.Resolves (Some "   "))
  = Throw (Error ("Gagal mendapatkan ide dari AI. " +:+ "AI tidak mengembalikan saran.")).
Proof.
  apply (SuggestFacts.generateRandomPrompt_empty_suggestion Suggest.background
           (fun _ => Suggest.Resolves (Some "   ")) "   "); [reflexivity |].
  left. reflexivity.
Defined.

Lemma history_cursor_invariant_witness :
  Forall cursorInRange
    (images (run (handleImageUpload [fileA] initialState)
                 [AppendHistory fileB 0; Undo; AppendHistory fileC 0])).
Proof.
  apply (SessionFacts.history_cursor_invariant [fileA] initialState
           [AppendHistory fileB 0; Undo; AppendHistory fileC 0; Redo; Undo; Undo]).
  exists [Redo; Undo; Undo]. reflexivity.
Defined.

Lemma addImageToHistory_truncates_then_appends_witness :
  index (images editedThenUndone) 0 = Some (mkImageState fileA [fileA; fileB] 0)
  /\ exists s',
       index (images (addImageToHistory 0 fileC 0 editedThenUndone)) 0 = Some s' /\
       original s' = fileA /\
       history s' = [fileA; fileC] /\
       Z.of_nat (length (history s')) = 2 /\
       historyIndex s' = Z.of_nat (length (history s')) - 1.
Proof.
  split; [reflexivity |].
  apply (SessionFacts.addImageToHistory_truncates_then_appends 0 fileC 0
           editedThenUndone (mkImageState fileA [fileA; fileB] 0)).
  - reflexivity.
  - unfold cursorInRange. simpl. lia.
Defined.

Lemma reset_then_redo_witness :
  activeImageState editedTwice = Some (mkImageState fileA [fileA; fileB; fileC] 2)
  /\ currentImage (Nat.iter 2 handleRedo (handleReset editedTwice))
     = currentImage editedTwice.
Proof.
  split; [reflexivity |].
  apply (SessionFacts.reset_then_redo editedTwice
           (mkImageState fileA [fileA; fileB; fileC] 2)).
  - reflexivity.
  - unfold cursorInRange. simpl. lia.
Defined.

Lemma encode_decode_roundtrip_witness :
  exists part,
    fileToPart fileA = Ok part
    /\ Encoder.mimeType part = "image/png"
    /\ dataURLtoFile ("data:" +:+ Encoder.mimeType part +:+ ";base64,"
                        +:+ Encoder.data part) "edited.png"
       = Ok {| name := "edited.png"; type := "image/png";
               bytes := [Byte.x41; Byte.x42; Byte.x43] |}.
Proof.
  apply (CodecFacts.encode_decode_roundtrip fileA "edited.png"). reflexivity.
Defined.

(** A batch over three images in which the second call fails. *)
Lemma batch_halts_at_first_failure_witness :
  let st' := (handleApplyBatchOperation firstCallOnly clock "warmer" "filter" true
                threeImages).1 in
  index (images st') 0 = Some (mkImageState fileA [fileA; firstResult] 1)
  /\ index (images st') 1 = Some (mkImageState fileB [fileB] 0)
  /\ index (images st') 2 = Some (mkImageState fileC [fileC] 0)
  /\ error st' = Some "Gagal menerapkan filter. quota exceeded".
Proof.
  intros st'.
  destruct (BatchFacts.batch_halts_at_first_failure firstCallOnly clock "warmer" "filter"
              true threeImages 1 (fun _ => firstResult) (Error "quota exceeded"))
    as (Hdone & Hlater & _ & _ & Herr & _).
  - intros j Hj. assert (j = 0%nat) as -> by lia. exists fileA. split; reflexivity.
  - exists fileB. split; reflexivity.
  - split; [|split; [|split]].
    + apply (Hdone 0%nat 0 (mkImageState fileA [fileA] 0)); [lia | reflexivity | reflexivity].
    + apply (Hlater 1%nat 1); [lia | reflexivity].
    + apply (Hlater 2%nat 2); [lia | reflexivity].
    + apply Herr.
Defined.

(** The guard of the batch, for the active image of an empty collection. *)
Lemma batch_no_target_selected_witness :
  handleApplyBatchOperation firstCallOnly clock "warmer" "filter" false initialState
  = (setError (Some "Tidak ada gambar yang dipilih untuk menerapkan filter.") initialState,
     []).
Proof.
  apply (BatchFacts.batch_no_target_selected firstCallOnly clock "warmer" "filter"
           false initialState).
  split; [reflexivity |]. left. reflexivity.
Defined.

(** With apply-to-all on an empty collection the target set is empty, and
    no error is reported. *)
Lemma batch_apply_to_all_on_empty_collection :
  images initialState = []
  /\ error (handleApplyBatchOperation firstCallOnly clock "warmer" "filter" true
              initialState).1 = None
  /\ error (handleApplyBatchOperation firstCallOnly clock "warmer" "filter" true
              initialState).1 <> Some (noTargetMessage "filter").
Proof. split; [reflexivity | split; [reflexivity | discriminate]]. Qed.

(** Decoding a well-formed data URL. *)
Lemma dataURLtoFile_requirements_witness :
  exists pre mime post tail,
    "data:image/png;base64,QUJD"
      = pre +:+ String ":" (mime +:+ String ";" (post +:+ String "," tail))
    /\ mime <> EmptyString
    /\ noComma pre = true /\ noComma mime = true /\ noComma post = true
    /\ type firstResult = normalizeType mime
    /\ type firstResult
       = (if allChars isPrintable mime then mapChars toLower mime else EmptyString)
    /\ (type firstResult = mime <->
          allChars isPrintable mime = true /\ mapChars toLower mime = mime)
    /\ name firstResult = "filter-1700000000000.png".
Proof.
  apply (CodecFacts.dataURLtoFile_requirements "data:image/png;base64,QUJD"
           "filter-1700000000000.png" : _ /\ _ /\ _).
  reflexivity.
Defined.

(** A string with neither the scheme data nor the marker base64 decodes. *)
Lemma dataURLtoFile_without_data_url_prefix :
  dataURLtoFile looseUrl "a.png" = Ok fileA
  /\ ~ hasDataUrlPrefix looseUrl.
Proof.
  split; [reflexivity |].
  intros (mime & payload & H). unfold looseUrl in H. simpl in H. discriminate H.
Qed.

End Runs.

(** ** The platform functions on small inputs *)
Module PlatformChecks.
Import Js Base64 Encoder.

Example btoa_three_octets : btoa [77; 97; 110]%N = "TWFu".
Proof. reflexivity. Qed.

Example btoa_two_octets : btoa [77; 97]%N = "TWE=".
Proof. reflexivity. Qed.

Example btoa_one_octet : btoa [77]%N = "TQ==".
Proof. reflexivity. Qed.

Example atob_padded : atob "TQ==" = Some [77%N].
Proof. reflexivity. Qed.

Example atob_unpadded : atob "TQ" = Some [77%N].
Proof. reflexivity. Qed.

Example atob_skips_whitespace : atob " TW Fu " = Some [77; 97; 110]%N.
Proof. reflexivity. Qed.

Example atob_rejects_length_one : atob "T" = None.
Proof. reflexivity. Qed.

Example atob_rejects_stray_padding : atob "TQ=" = None.
Proof. reflexivity. Qed.

Example atob_rejects_other_characters : atob "TW-u" = None.
Proof. reflexivity. Qed.

Example split_comma_keeps_empty_segments : split_comma "a,b,,c" = ["a"; "b"; EmptyString; "c"].
Proof. reflexivity. Qed.

Example match_is_lazy : match_colon_semi "a:b:c;d;e" = Some "b:c".
Proof. reflexivity. Qed.

Example match_is_leftmost : match_colon_semi ":;x:y;" = Some EmptyString.
Proof. reflexivity. Qed.

Example trim_both_ends : trim "  a b  " = "a b".
Proof. reflexivity. Qed.

Example slice0_negative_end : slice0 [1; 2; 3; 4]%nat (-1) = [1; 2; 3]%nat.
Proof. reflexivity. Qed.

Example dataURLtoFile_ignores_later_segments :
  dataURLtoFile "data:image/png;base64,QUJD,zzz" "x.png"
  = Ok {| name := "x.png"; type := "image/png";
          bytes := [Byte.x41; Byte.x42; Byte.x43] |}.
Proof. reflexivity. Qed.

Example dataURLtoFile_lowercases_type :
  type <$> (match dataURLtoFile "data:IMAGE/PNG;base64,QUJD" "x.png" with
            | Ok f => Some f
            | Throw _ => None
            end) = Some "image/png".
Proof. reflexivity. Qed.

End PlatformChecks.

(* ================================================================== *)
(** * Part III.  Further properties of the code                        *)
(* ================================================================== *)

(** ** The parser of data URLs *)
Module ParserFacts.
Import Js JsFacts Encoder Base64Facts CodecFacts.

(** The group that the pattern captures holds no semicolon and no line
    terminator. *)
Lemma lazy_to_semi_chars (s g : string) :
  lazy_to_semi s = Some g ->
  allChars (fun c => negb (isSemi c) && negb (isLineTerminator c)) g = true.
Proof.
  revert g. induction s as [|c s IH]; intros g; simpl; [done |].
  destruct (isSemi c) eqn:Hs; [by intros [= <-] |].
  destruct (isLineTerminator c) eqn:Hl; [done |].
  destruct (lazy_to_semi s) as [g'|]; simpl; [|done].
  intros [= <-]. simpl. by rewrite Hs, Hl, (IH g' eq_refl).
Qed.

Lemma match_colon_semi_chars (s g : string) :
  match_colon_semi s = Some g ->
  allChars (fun c => negb (isSemi c) && negb (isLineTerminator c)) g = true.
Proof.
  induction s as [|c s IH]; simpl; [done |].
  destruct (isColon c).
  - destruct (lazy_to_semi s) as [g'|] eqn:Hl; [|done].
    intros [= ->]. by eapply lazy_to_semi_chars.
  - done.
Qed.

(** The segments of a split hold no comma. *)
Lemma split_comma_segments (s : string) :
  Forall (fun seg => noComma seg = true) (split_comma s).
Proof.
  unfold noComma. induction s as [|c s IH]; simpl; [by repeat constructor |].
  destruct (isComma c) eqn:Hc; [by constructor |].
  destruct (split_comma s) as [|seg segs]; [by repeat constructor; simpl; rewrite Hc |].
  apply Forall_cons in IH as [Hseg Hsegs].
  constructor; [simpl; by rewrite Hc, Hseg | done].
Qed.

Lemma noComma_of_parts (pre mime post : string) :
  noComma (pre +:+ String ":" (mime +:+ String ";" post)) = true ->
  noComma mime = true.
Proof.
  unfold noComma. rewrite allChars_append. simpl. rewrite allChars_append.
  intros [_ [H _]%andb_true_iff]%andb_true_iff. done.
Qed.

(** X1.  Whatever the data URL of a file is, a part that fileToPart returns
    has a media type that is not empty and holds no semicolon, no line
    terminator and no comma, and a payload that holds no comma. *)
Theorem fileToPart_result_shape (file : File) (part : InlineData) :
  fileToPart file = Ok part ->
  mimeType part <> EmptyString
  /\ allChars (fun c => negb (isSemi c) && negb (isLineTerminator c)) (mimeType part) = true
  /\ noComma (mimeType part) = true
  /\ noComma (data part) = true.
Proof.
  unfold fileToPart.
  pose proof (split_comma_segments (readAsDataURL file)) as Hsegs.
  destruct (split_comma (readAsDataURL file)) as [|head [|seg segs]]; try done.
  apply Forall_cons in Hsegs as [Hhead [Hseg _]%Forall_cons].
  simpl.
  destruct (match_colon_semi head) as [g|] eqn:Hm; [|done].
  destruct (String.eqb g EmptyString) eqn:Hne; [done |].
  apply String.eqb_neq in Hne. intros [= <-]. simpl.
  split; [done |]. split; [by eapply match_colon_semi_chars |]. split; [|done].
  apply match_colon_semi_inv in Hm as (pre & post & ->).
  by eapply noComma_of_parts.
Qed.

(** X2.  dataURLtoFile reads the part before the first comma and the part
    between the first and the second comma; whatever follows a second comma
    changes nothing. *)
Theorem dataURLtoFile_ignores_after_second_comma
    (head payload rest filename : string) :
  noComma head = true ->
  noComma payload = true ->
  dataURLtoFile (head +:+ String "," (payload +:+ String "," rest)) filename
  = dataURLtoFile (head +:+ String "," payload) filename.
Proof.
  intros Hh Hp. unfold dataURLtoFile.
  rewrite !split_comma_app by done. rewrite (split_comma_noComma payload) by done.
  destruct (split_comma rest) as [|seg segs] eqn:Hsp;
    [by apply split_comma_nonempty in Hsp |].
  done.
Qed.

End ParserFacts.

(** ** More on the response validator *)
Module ValidatorMore.
Import Js JsFacts Validator ValidatorFacts.

Lemma find_first {A} (p : A -> bool) (before after : list A) (x : A) :
  Forall (fun y => p y = false) before -> p x = true ->
  List.find p (before ++ x :: after) = Some x.
Proof.
  induction 1 as [|y before Hy _ IH]; intros Hx; simpl.
  - by rewrite Hx.
  - rewrite Hy. by apply IH.
Qed.

(** X3.  When the first candidate of a response that is not blocked holds
    several parts, the validator returns the data URL of the first part that
    has inline data: parts before it without inline data (text) are skipped,
    parts after it are not read. *)
Theorem handleApiResponse_first_image_part
    (response : GenerateContentResponse) (context : string)
    (c : Candidate) (others : list Candidate)
    (before after : list Part) (p : Part) (blob : Blob) :
  isBlocked response = false ->
  candidates response = Some (c :: others) ->
  content c ≫= parts = Some (before ++ p :: after) ->
  Forall (fun q => inlineData q = None) before ->
  inlineData p = Some blob ->
  handleApiResponse response context
  = Ok ("data:" +:+ tmpl (mimeType blob) +:+ ";base64," +:+ tmpl (data blob)).
Proof.
  intros Hb Hc Hps Hbefore Hp.
  apply (handleApiResponse_image response context blob Hb).
  unfold inlineImageOf, imagePartFromResponse, firstCandidate.
  rewrite Hc. simpl. rewrite Hps. simpl.
  rewrite (find_first _ before after p).
  - done.
  - eapply Forall_impl; [done |]. intros q Hq. simpl. rewrite Hq.
    apply bool_decide_eq_false. by intros [??].
  - rewrite Hp. by apply bool_decide_eq_true.
Qed.

(** X4.  A response that is not blocked and has no candidate (the list is
    missing or empty) fails with the no-image error; when its text is missing
    or all white space the message is the generic one, as if there were no
    text. *)
Theorem handleApiResponse_no_candidates
    (response : GenerateContentResponse) (context : string) :
  isBlocked response = false ->
  candidates response = None \/ candidates response = Some [] ->
  handleApiResponse response context
    = Throw (Error (noImageMessage context (trim <$> text response)))
  /\ ((forall t, text response = Some t -> allChars isTrimSpace t = true) ->
      handleApiResponse response context
      = Throw (Error ("Model AI tidak mengembalikan gambar untuk " +:+ context +:+ ". "
                        +:+ "Ini bisa terjadi karena filter keamanan atau jika permintaan terlalu rumit. Coba ulangi perintah Anda agar lebih lugas."))).
Proof.
  intros Hb Hc.
  assert (handleApiResponse response context
          = Throw (Error (noImageMessage context (trim <$> text response)))) as H.
  { apply handleApiResponse_noImage; [done | |].
    - unfold inlineImageOf, imagePartFromResponse, firstCandidate.
      by destruct Hc as [-> | ->].
    - unfold finishReasonOf, firstCandidate. by destruct Hc as [-> | ->]. }
  split; [done |]. intros Htext. rewrite H. do 2 f_equal.
  unfold noImageMessage.
  destruct (text response) as [t|]; simpl; [|done].
  by rewrite (SuggestFacts.trim_all_space t (Htext t eq_refl)).
Qed.

(** X5.  From the response to the file: when a response that is not blocked
    holds, as its first inline image, a blob with a parseable media type and
    the base64 of some octets, decoding the URL the validator returns gives a
    file with that media type and those octets. *)
Theorem validated_url_decodes
    (response : GenerateContentResponse) (context filename : string)
    (mime : string) (octets : list Byte.byte) :
  isBlocked response = false ->
  inlineImageOf response
    = Some (mkBlob (Some mime) (Some (Base64.btoa (Byte.to_N <$> octets)))) ->
  Encoder.parseableType mime = true ->
  bind (handleApiResponse response context)
       (fun url => Encoder.dataURLtoFile url filename)
  = Ok {| Encoder.name := filename; Encoder.type := mime; Encoder.bytes := octets |}.
Proof.
  intros Hb Himg Hm.
  rewrite (handleApiResponse_image _ _ _ Hb Himg). simpl.
  by apply CodecFacts.dataURLtoFile_encoded.
Qed.

End ValidatorMore.

(** ** The operations of the service module *)
Module ServiceFacts.
Import Js JsFacts Service CodecFacts.

Lemma png_url_decodes (payload filename : string) :
  (exists octets,
      dataURLtoFile ("data:image/png;base64," +:+ payload) filename
      = Ok {| name := filename; type := "image/png"; bytes := octets |})
  \/ dataURLtoFile ("data:image/png;base64," +:+ payload) filename
     = Throw InvalidCharacterError.
Proof.
  unfold dataURLtoFile.
  replace ("data:image/png;base64," +:+ payload)
    with ("data:image/png;base64" +:+ String "," payload) by done.
  rewrite split_comma_app by done.
  destruct (split_comma payload) as [|seg segs] eqn:Hsp;
    [by apply split_comma_nonempty in Hsp |].
  simpl.
  destruct (Base64.atob seg) as [bstr|]; [left | by right].
  eexists. reflexivity.
Qed.

(** X6.  A URL that generateBackgroundImage returns always carries the media
    type image/png: decoding it with dataURLtoFile yields a PNG file with
    the given name, or fails because the payload is no base64; it never
    fails on the shape of the URL. *)
Theorem generateBackgroundImage_url_decodes
    (generateImages : ImagesService) (prompt : string) (aspect : AspectRatio)
    (url filename : string) :
  generateBackgroundImage generateImages prompt aspect = Ok url ->
  (exists octets,
      dataURLtoFile url filename
      = Ok {| name := filename; type := "image/png"; bytes := octets |})
  \/ dataURLtoFile url filename = Throw InvalidCharacterError.
Proof.
  unfold generateBackgroundImage, generateBackgroundBody, bind.
  destruct (generateImages _) as [response|e]; [|done].
  destruct (generatedImages response) as [[|first rest]|]; try done.
  destruct (image first) as [img|]; [|done].
  intros Hurl.
  assert (url = "data:image/png;base64," +:+ tmpl (imageBytes img)) as ->
    by congruence.
  apply png_url_decodes.
Qed.

(** X7.  generateBackgroundImage throws Error objects only.  When the
    service resolves with no image (the list is missing or empty) the message
    is the fixed one; when the service rejects, the message of the rejection
    is kept, and a rejection that is no Error gets the default message. *)
Theorem generateBackgroundImage_failures
    (generateImages : ImagesService) (prompt : string) (aspect : AspectRatio) :
  let request :=
    {| imagesModel := "imagen-4.0-generate-001";
       imagesPrompt := backgroundPromptText prompt;
       numberOfImages := 1; outputMimeType := "image/png";
       aspectRatio := aspectTag aspect |} in
  (forall response,
      generateImages request = Ok response ->
      generatedImages response = None \/ generatedImages response = Some [] ->
      generateBackgroundImage generateImages prompt aspect
      = Throw (Error "Pembuatan latar belakang gagal: Model AI tidak mengembalikan gambar."))
  /\ (forall e,
        generateImages request = Throw e ->
        generateBackgroundImage generateImages prompt aspect
        = Throw (Error (messageOr
                          "Terjadi kesalahan tidak dikenal saat pembuatan latar belakang." e)))
  /\ (forall e,
        generateBackgroundImage generateImages prompt aspect = Throw e ->
        exists m, e = Error m).
Proof.
  intros request. unfold generateBackgroundImage, generateBackgroundBody, bind.
  fold request. split; [|split].
  - intros response -> [-> | ->]; done.
  - by intros e ->.
  - intros e. destruct (generateImages request) as [response|e'].
    + destruct (generatedImages response) as [[|first rest]|];
        try (intros [= <-]; by eexists).
      destruct (image first); [done |]. intros [= <-]. by eexists.
    + intros [= <-]. by eexists.
Qed.

(** X8.  The wire format is consistent: when the service sends back, as the
    image of its answer, the very inline part it was sent first, each of the
    four image operations returns a URL that decodes to the media type and
    the octets of the image that was sent (of the subject, for the
    composition). *)
Theorem operations_round_trip_through_echo
    (image background : File) (prompt filename : string) (hotspots : list (Z * Z)) :
  parseableType (type image) = true ->
  parseableType (type background) = true ->
  let same := Ok {| name := filename; type := type image; bytes := bytes image |} in
  let decode := fun url => dataURLtoFile url filename in
  bind (generateEditedImage MoreSamples.echoService image prompt hotspots) decode = same
  /\ bind (generateFilteredImage MoreSamples.echoService image prompt) decode = same
  /\ bind (generateAdjustedImage MoreSamples.echoService image prompt) decode = same
  /\ bind (applyBackgroundToImage MoreSamples.echoService image background) decode = same.
Proof.
  intros Hi Hb same decode.
  unfold generateEditedImage, generateFilteredImage, generateAdjustedImage,
    applyBackgroundToImage.
  rewrite (fileToPart_parseable image Hi), (fileToPart_parseable background Hb).
  unfold same, decode. cbn [bind MoreSamples.echoService requestParts].
  cbn [Validator.handleApiResponse].
  repeat split; by apply dataURLtoFile_encoded.
Qed.

End ServiceFacts.

(** ** More on the idea suggestion *)
Module SuggestMore.
Import Js JsFacts Suggest.

Lemma stripQuotes_no_quote (s : string) :
  allChars (fun c => negb (isQuote c)) (stripQuotes s) = true.
Proof.
  induction s as [|c s IH]; simpl; [done |].
  destruct (isQuote c) eqn:Hc; [done |]. simpl. by rewrite Hc, IH.
Qed.

(** X9.  A suggestion that generateRandomPrompt returns is never empty and
    holds no quote character, double or single. *)
Theorem generateRandomPrompt_result_shape
    (context : Context) (remote : Context -> Remote) (text : string) :
  generateRandomPrompt context remote = Ok text ->
  text <> EmptyString /\ allChars (fun c => negb (isQuote c)) text = true.
Proof.
  unfold generateRandomPrompt, suggestion.
  destruct (remote context) as [e|[t|]]; try done.
  destruct (String.eqb (stripQuotes (trim t)) EmptyString) eqn:E; [done |].
  intros [= <-]. split; [by apply String.eqb_neq | apply stripQuotes_no_quote].
Qed.

(** X10.  generateRandomPrompt wraps the errors of its try block, and
    those only.  What the construction of the client throws, before the try
    block, is thrown as it is, with no prefix.  Once the client exists the
    function throws Error objects only, and every message starts with the
    same sentence; when the remote call rejects, the rest of the message is
    the message of the rejection, or the default text when the rejection is
    no Error.  So a value the function throws is what the construction
    threw, or an Error whose message starts with that sentence. *)
Theorem generateRandomPrompt_failures
    (client : Client.Construction) (context : Context) (remote : Context -> Remote) :
  (forall e, client = Client.ConstructionThrows e ->
     Client.generateRandomPrompt client context remote = Throw e)
  /\ (client = Client.Constructed ->
      (forall e0, remote context = Rejects e0 ->
         Client.generateRandomPrompt client context remote
         = Throw (Error ("Gagal mendapatkan ide dari AI. "
                           +:+ messageOr "Terjadi kesalahan tidak dikenal." e0)))
      /\ (forall e, Client.generateRandomPrompt client context remote = Throw e ->
            exists m, e = Error ("Gagal mendapatkan ide dari AI. " +:+ m)))
  /\ (forall e, Client.generateRandomPrompt client context remote = Throw e ->
        client = Client.ConstructionThrows e
        \/ exists m, e = Error ("Gagal mendapatkan ide dari AI. " +:+ m)).
Proof.
  assert (forall e, generateRandomPrompt context remote = Throw e ->
            exists m, e = Error ("Gagal mendapatkan ide dari AI. " +:+ m)) as Hwrapped.
  { intros e. unfold generateRandomPrompt.
    destruct (suggestion (remote context)) as [text|err]; [done |].
    intros [= <-]. by eexists. }
  split; [by intros e -> | split].
  - intros ->. cbn [Client.generateRandomPrompt]. split; [|done].
    intros e0 H. unfold generateRandomPrompt. by rewrite H.
  - intros e. destruct client as [|e']; cbn [Client.generateRandomPrompt].
    + intros H. right. by apply Hwrapped.
    + intros [= ->]. by left.
Qed.

End SuggestMore.

(** ** More on the history *)
Module HistoryMore.
Import Js JsFacts Observations HistoryFacts SessionFacts.

Lemma trim_blank (s : string) : blank s = true <-> trim s = EmptyString.
Proof.
  split; [apply SuggestFacts.trim_all_space |].
  unfold blank, trim. intros H.
  assert (forall t, trimEnd t = EmptyString -> allChars isTrimSpace t = true) as Hend.
  { induction t as [|c t IH]; simpl; [done |].
    destruct (trimEnd t) as [|d u] eqn:E; [|done].
    destruct (isTrimSpace c); [|done]. intros _. by rewrite IH. }
  induction s as [|c s IH]; simpl in *; [done |].
  destruct (isTrimSpace c) eqn:Hc; [by apply IH |].
  apply Hend in H. simpl in H. by rewrite Hc in H.
Qed.

(** *** The upload *)

(** X11.  handleFileSelect does nothing for a missing or empty list of
    files.  For a list that is not empty it starts a session: one image per
    file, in order, each with the file as original and as the only entry of
    the history, cursor 0; the first image is active and shown, and neither
    undo nor redo is possible. *)
Theorem handleFileSelect_starts_session (files : option (list File)) (st : AppState) :
  (files = None \/ files = Some [] -> handleFileSelect files st = st)
  /\ (forall f fs, files = Some (f :: fs) ->
        let st' := handleFileSelect files st in
        images st' = (fun file => mkImageState file [file] 0) <$> (f :: fs)
        /\ activeImageIndex st' = 0
        /\ currentImage st' = Some f
        /\ canUndo st' = false /\ canRedo st' = false
        /\ error st' = None
        /\ editHotspots st' = [] /\ displayHotspots st' = []
        /\ generatedBackground st' = None).
Proof.
  split.
  - by intros [-> | ->].
  - intros f fs ->. simpl. repeat split.
Qed.

(** *** Undo and redo *)
Lemma activeImageState_handleUndo st s :
  activeImageState st = Some s ->
  0 < historyIndex s ->
  activeImageState (handleUndo st) = Some (withCursor s (historyIndex s - 1)).
Proof.
  intros Hs Hlt. unfold handleUndo.
  rewrite Hs, (proj2 (canUndo_true _ _ Hs) Hlt).
  unfold activeImageState in *.
  change (index (images (updateImageState (activeImageIndex st)
                           (onlyHistoryIndex (historyIndex s - 1)) st))
                (activeImageIndex st) = Some (withCursor s (historyIndex s - 1))).
  rewrite index_updateImageState, Hs. simpl. by rewrite Z.eqb_refl.
Qed.

Lemma activeImageIndex_handleUndo st : activeImageIndex (handleUndo st) = activeImageIndex st.
Proof.
  unfold handleUndo. destruct (activeImageState st); [|done]. by destruct (canUndo st).
Qed.

Lemma activeImageIndex_handleRedo st : activeImageIndex (handleRedo st) = activeImageIndex st.
Proof.
  unfold handleRedo. destruct (activeImageState st); [|done]. by destruct (canRedo st).
Qed.

Lemma activeImageIndex_handleReset st : activeImageIndex (handleReset st) = activeImageIndex st.
Proof. unfold handleReset. by destruct (activeImageState st). Qed.

(** Two states with the same images at every index have the same list. *)
Lemma images_eq_by_index (l k : list ImageState) :
  (forall j, index k j = index l j) -> k = l.
Proof.
  intros H. apply list_eq. intros n. specialize (H (Z.of_nat n)).
  unfold index in H. destruct (Z.ltb_spec (Z.of_nat n) 0); [lia |].
  by rewrite Nat2Z.id in H.
Qed.

Lemma index_handleUndo st j :
  index (images (handleUndo st)) j
  = if (j =? activeImageIndex st) && canUndo st
    then (fun s => withCursor s (historyIndex s - 1)) <$> index (images st) j
    else index (images st) j.
Proof.
  unfold handleUndo, canUndo. destruct (activeImageState st) as [s|] eqn:Hs.
  - destruct (0 <? historyIndex s) eqn:Hlt; [|by rewrite andb_false_r].
    change (images (clearHotspots ?x)) with (images x).
    rewrite index_updateImageState, andb_true_r.
    destruct (Z.eqb_spec j (activeImageIndex st)) as [->|Hne].
    + unfold activeImageState in Hs. by rewrite Hs.
    + by destruct (index (images st) j).
  - by rewrite andb_false_r.
Qed.

Lemma index_handleRedo st j :
  index (images (handleRedo st)) j
  = if (j =? activeImageIndex st) && canRedo st
    then (fun s => withCursor s (historyIndex s + 1)) <$> index (images st) j
    else index (images st) j.
Proof.
  unfold handleRedo, canRedo. destruct (activeImageState st) as [s|] eqn:Hs.
  - destruct (historyIndex s <? Z.of_nat (length (history s)) - 1) eqn:Hlt;
      [|by rewrite andb_false_r].
    change (images (clearHotspots ?x)) with (images x).
    rewrite index_updateImageState, andb_true_r.
    destruct (Z.eqb_spec j (activeImageIndex st)) as [->|Hne].
    + unfold activeImageState in Hs. by rewrite Hs.
    + by destruct (index (images st) j).
  - by rewrite andb_false_r.
Qed.

Lemma index_handleReset st j :
  index (images (handleReset st)) j
  = if j =? activeImageIndex st
    then (fun s => withCursor s 0) <$> index (images st) j
    else index (images st) j.
Proof.
  unfold handleReset. destruct (activeImageState st) as [s|] eqn:Hs.
  - change (images (clearGeneratedBackground ?x)) with (images x).
    change (images (clearHotspots ?x)) with (images x).
    change (images (setError ?e ?x)) with (images x).
    rewrite index_updateImageState.
    destruct (Z.eqb_spec j (activeImageIndex st)) as [->|Hne].
    + unfold activeImageState in Hs. by rewrite Hs.
    + by destruct (index (images st) j).
  - destruct (Z.eqb_spec j (activeImageIndex st)) as [->|Hne]; [|done].
    unfold activeImageState in Hs. by rewrite Hs.
Qed.

(** X12.  Undo and redo undo each other.  In a state whose cursors are in
    range, redo after an undo that was possible, and undo after a redo that
    was possible, give back the same collection of images and the same
    active index. *)
Theorem undo_redo_inverse (st : AppState) :
  wellFormed st ->
  (canUndo st = true ->
     images (handleRedo (handleUndo st)) = images st
     /\ activeImageIndex (handleRedo (handleUndo st)) = activeImageIndex st)
  /\ (canRedo st = true ->
        images (handleUndo (handleRedo st)) = images st
        /\ activeImageIndex (handleUndo (handleRedo st)) = activeImageIndex st).
Proof.
  intros Hwf. split.
  - intros Hu. unfold canUndo in Hu.
    destruct (activeImageState st) as [s|] eqn:Hs; [|done].
    apply Z.ltb_lt in Hu.
    assert (cursorInRange s) as Hc.
    { apply index_Some in Hs as [_ Hs]. by eapply Forall_lookup_1. }
    unfold cursorInRange in Hc.
    pose proof (activeImageState_handleUndo _ _ Hs Hu) as Hs'.
    split; [|by rewrite activeImageIndex_handleRedo, activeImageIndex_handleUndo].
    apply images_eq_by_index. intros j.
    rewrite index_handleRedo, activeImageIndex_handleUndo.
    unfold canRedo. rewrite Hs'. simpl.
    destruct (Z.ltb_spec (historyIndex s - 1) (Z.of_nat (length (history s)) - 1));
      [|lia].
    rewrite andb_true_r, index_handleUndo. unfold canUndo. rewrite Hs.
    destruct (Z.ltb_spec 0 (historyIndex s)); [|lia]. rewrite andb_true_r.
    destruct (Z.eqb_spec j (activeImageIndex st)) as [->|Hne]; [|done].
    unfold activeImageState in Hs. rewrite Hs. simpl. f_equal.
    unfold withCursor. simpl. destruct s; simpl. f_equal. lia.
  - intros Hr. unfold canRedo in Hr.
    destruct (activeImageState st) as [s|] eqn:Hs; [|done].
    apply Z.ltb_lt in Hr.
    assert (cursorInRange s) as Hc.
    { apply index_Some in Hs as [_ Hs]. by eapply Forall_lookup_1. }
    unfold cursorInRange in Hc.
    pose proof (activeImageState_handleRedo _ _ Hs Hr) as Hs'.
    split; [|by rewrite activeImageIndex_handleUndo, activeImageIndex_handleRedo].
    apply images_eq_by_index. intros j.
    rewrite index_handleUndo, activeImageIndex_handleRedo.
    unfold canUndo. rewrite Hs'. simpl.
    destruct (Z.ltb_spec 0 (historyIndex s + 1)); [|lia].
    rewrite andb_true_r, index_handleRedo. unfold canRedo. rewrite Hs.
    destruct (Z.ltb_spec (historyIndex s) (Z.of_nat (length (history s)) - 1)); [|lia].
    rewrite andb_true_r.
    destruct (Z.eqb_spec j (activeImageIndex st)) as [->|Hne]; [|done].
    unfold activeImageState in Hs. rewrite Hs. simpl. f_equal.
    unfold withCursor. simpl. destruct s; simpl. f_equal. lia.
Qed.

(** X13.  Undo, redo and reset act on the active image alone: every other
    image of the collection is left as it is, and the active index and the
    number of images do not change. *)
Theorem cursor_moves_touch_active_image_only (st : AppState) :
  (sameElsewhere (activeImageIndex st) st (handleUndo st)
   /\ sameElsewhere (activeImageIndex st) st (handleRedo st)
   /\ sameElsewhere (activeImageIndex st) st (handleReset st))
  /\ (activeImageIndex (handleUndo st) = activeImageIndex st
      /\ activeImageIndex (handleRedo st) = activeImageIndex st
      /\ activeImageIndex (handleReset st) = activeImageIndex st)
  /\ (length (images (handleUndo st)) = length (images st)
      /\ length (images (handleRedo st)) = length (images st)
      /\ length (images (handleReset st)) = length (images st)).
Proof.
  split; [|split].
  - unfold sameElsewhere. repeat split; intros j Hj.
    + rewrite index_handleUndo. by destruct (Z.eqb_spec j (activeImageIndex st)).
    + rewrite index_handleRedo. by destruct (Z.eqb_spec j (activeImageIndex st)).
    + rewrite index_handleReset. by destruct (Z.eqb_spec j (activeImageIndex st)).
  - split; [apply activeImageIndex_handleUndo |].
    split; [apply activeImageIndex_handleRedo | apply activeImageIndex_handleReset].
  - pose proof (f_equal length (histories_handleUndo st)) as H1.
    pose proof (f_equal length (histories_handleRedo st)) as H2.
    pose proof (f_equal length (histories_handleReset st)) as H3.
    by rewrite !length_fmap in H1, H2, H3.
Qed.

End HistoryMore.

(** ** New edits and the anchors of the history *)
Module EditFacts.
Import Js JsFacts Observations HistoryFacts SessionFacts HistoryMore.

Lemma activeImageState_addImageToHistory st s f :
  activeImageState st = Some s ->
  cursorInRange s ->
  activeImageState (addImageToHistory (activeImageIndex st) f (activeImageIndex st) st)
  = Some (appended s f).
Proof.
  intros Hs Hc. unfold activeImageState in *.
  assert (activeImageIndex
            (addImageToHistory (activeImageIndex st) f (activeImageIndex st) st)
          = activeImageIndex st) as ->.
  { unfold addImageToHistory. by rewrite Z.eqb_refl. }
  by apply index_addImageToHistory_eq.
Qed.

Lemma lookup_appended_last s f :
  cursorInRange s ->
  index (history (appended s f)) (historyIndex (appended s f)) = Some f.
Proof.
  unfold cursorInRange, appended. simpl. intros Hc.
  unfold index. destruct (Z.ltb_spec (historyIndex s + 1) 0); [lia |].
  rewrite lookup_app_r; rewrite length_take; [|lia].
  replace (Z.to_nat (historyIndex s + 1)
           - (Z.to_nat (historyIndex s) + 1) `min` length (history s))%nat
    with 0%nat by lia.
  done.
Qed.

Lemma lookup_appended_before s f (i : Z) :
  cursorInRange s -> 0 <= i <= historyIndex s ->
  index (history (appended s f)) i = index (history s) i.
Proof.
  unfold cursorInRange, appended. simpl. intros Hc Hi.
  unfold index. destruct (Z.ltb_spec i 0); [lia |].
  rewrite lookup_app_l by (rewrite length_take; lia).
  apply lookup_take_lt. lia.
Qed.

(** X14.  A new edit of the active image, whose cursor is in range, becomes
    the image shown and ends every redo: after it redo is not possible and
    undo is, the crop selection is cleared, and undo shows again the image
    that was shown before the edit. *)
Theorem new_edit_ends_redo (st : AppState) (s : ImageState) (newImageFile : File) :
  activeImageState st = Some s ->
  cursorInRange s ->
  let st' := addImageToHistory (activeImageIndex st) newImageFile
               (activeImageIndex st) st in
  currentImage st' = Some newImageFile
  /\ canRedo st' = false
  /\ canUndo st' = true
  /\ crop st' = None /\ completedCrop st' = None
  /\ currentImage (handleUndo st') = currentImage st.
Proof.
  intros Hs Hc st'.
  pose proof (activeImageState_addImageToHistory st s newImageFile Hs Hc) as Hs'.
  fold st' in Hs'. pose proof Hc as Hc'. unfold cursorInRange in Hc'.
  assert (Z.of_nat (length (history (appended s newImageFile))) = historyIndex s + 2)
    as Hlen.
  { unfold appended. simpl. rewrite length_app, length_take. simpl. lia. }
  split; [|split; [|split; [|split; [|split]]]].
  - unfold currentImage. rewrite Hs'. simpl. by apply lookup_appended_last.
  - unfold canRedo. rewrite Hs'. apply Z.ltb_ge. rewrite Hlen.
    unfold appended. simpl. lia.
  - unfold canUndo. rewrite Hs'. apply Z.ltb_lt. unfold appended. simpl. lia.
  - unfold st', addImageToHistory. by rewrite Z.eqb_refl.
  - unfold st', addImageToHistory. by rewrite Z.eqb_refl.
  - unfold currentImage.
    rewrite (activeImageState_handleUndo st' (appended s newImageFile) Hs')
      by (unfold appended; simpl; lia).
    rewrite Hs. simpl.
    replace (historyIndex s + 1 - 1) with (historyIndex s) by lia.
    apply lookup_appended_before; [done | lia].
Qed.

(** *** The anchors *)
Lemma anchors_updateImageState idx i st :
  anchors (updateImageState idx (onlyHistoryIndex i) st) = anchors st.
Proof.
  unfold anchors. rewrite images_updateImageState.
  apply list_eq. intros n. rewrite !list_lookup_fmap, list_lookup_imap.
  destruct (images st !! n) as [img|]; simpl; [|done].
  by destruct (Z.of_nat n =? idx).
Qed.

Lemma head_slice0_app {A} (l : list A) (i : Z) (x : A) :
  0 <= i < Z.of_nat (length l) ->
  head (slice0 l (i + 1) ++ [x]) = head l.
Proof.
  intros Hi. rewrite slice0_in_range by done.
  destruct l as [|y l]; simpl in *; [lia |].
  by replace (Z.to_nat i + 1)%nat with (S (Z.to_nat i)) by lia.
Qed.

Lemma anchors_addImageToHistory closure f idx st :
  wellFormed st -> anchors (addImageToHistory closure f idx st) = anchors st.
Proof.
  intros Hwf. unfold anchors. rewrite images_addImageToHistory.
  destruct (index (images st) idx) as [s|] eqn:Hs; [|done].
  apply index_Some in Hs as [Hidx Hs].
  assert (cursorInRange s) as Hc by by eapply Forall_lookup_1.
  apply list_eq. intros n. rewrite !list_lookup_fmap.
  destruct (decide (n = Z.to_nat idx)) as [->|Hne].
  - rewrite list_lookup_insert_eq by by eapply lookup_lt_Some.
    rewrite Hs. simpl. by rewrite head_slice0_app.
  - by rewrite list_lookup_insert_ne.
Qed.

Lemma anchors_step st a : wellFormed st -> anchors (step st a) = anchors st.
Proof.
  intros Hwf. destruct a; simpl.
  - by apply anchors_addImageToHistory.
  - unfold handleUndo. destruct (activeImageState st); [|done].
    destruct (canUndo st); [|done]. apply anchors_updateImageState.
  - unfold handleRedo. destruct (activeImageState st); [|done].
    destruct (canRedo st); [|done]. apply anchors_updateImageState.
  - unfold handleReset. destruct (activeImageState st); [|done].
    apply anchors_updateImageState.
  - done.
Qed.

Lemma anchors_run actions : forall st, wellFormed st -> anchors (run st actions) = anchors st.
Proof.
  unfold run. induction actions as [|a actions IH]; intros st Hwf; simpl; [done |].
  rewrite IH by by apply wellFormed_step. by apply anchors_step.
Qed.

(** X15.  After an upload and any sequence of new edits, undos, redos,
    resets and changes of the active image, the collection still has one
    image per uploaded file, in order; the original of each image is the
    uploaded file and so is the first entry of its history.  Hence a reset
    shows the uploaded file of the active image. *)
Theorem history_stays_anchored
    (files : list File) (st0 : AppState) (actions : list Action) :
  let st := run (handleImageUpload files st0) actions in
  anchors st = uploadAnchors files
  /\ (forall s, activeImageState st = Some s ->
        currentImage (handleReset st) = Some (original s)).
Proof.
  intros st.
  assert (anchors st = uploadAnchors files) as Ha.
  { unfold st. rewrite anchors_run by apply wellFormed_handleImageUpload.
    unfold anchors, uploadAnchors, handleImageUpload. simpl.
    rewrite <- list_fmap_compose. done. }
  split; [done |]. intros s Hs.
  unfold currentImage. rewrite (activeImageState_handleReset _ _ Hs). simpl.
  pose proof Hs as [Hidx Hl]%index_Some.
  assert (anchors st !! Z.to_nat (activeImageIndex st)
          = Some (original s, head (history s))) as Hn.
  { unfold anchors. by rewrite list_lookup_fmap, Hl. }
  rewrite Ha in Hn. unfold uploadAnchors in Hn. rewrite list_lookup_fmap in Hn.
  destruct (files !! Z.to_nat (activeImageIndex st)) as [f|]; [|done].
  simpl in Hn. injection Hn as Ho Hh. rewrite <- Ho.
  destruct (history s) as [|h0 hs]; [done |]. simpl in Hh. by injection Hh as ->.
Qed.

End EditFacts.

(** ** The localized edit *)
Module GenerateFacts.
Import Js JsFacts Observations HistoryFacts SessionFacts HistoryMore EditFacts.

(** X16.  handleGenerate validates before it calls anything, in this order:
    no image shown, then a prompt that is empty or all white space, then no
    hotspot.  In each case it makes no call, sets the matching message and
    changes nothing else. *)
Theorem handleGenerate_validation
    (generateContent : Service.ContentService) (now : Z) (st : AppState) :
  (currentImage st = None ->
     handleGenerate generateContent now st
     = (setError (Some "Tidak ada gambar yang dimuat untuk diedit.") st, []))
  /\ (forall image, currentImage st = Some image ->
        blank (prompt st) = true ->
        handleGenerate generateContent now st
        = (setError (Some "Silakan masukkan deskripsi untuk editan Anda.") st, []))
  /\ (forall image, currentImage st = Some image ->
        blank (prompt st) = false ->
        editHotspots st = [] ->
        handleGenerate generateContent now st
        = (setError (Some "Silakan klik pada gambar untuk memilih area yang akan diedit.") st,
           [])).
Proof.
  unfold handleGenerate. split; [|split].
  - by intros ->.
  - intros image -> Hb. apply trim_blank in Hb. by rewrite Hb.
  - intros image -> Hb Hh.
    assert (trim (prompt st) <> EmptyString) as Hne.
    { intros H. apply trim_blank in H. congruence. }
    apply String.eqb_neq in Hne. by rewrite Hne, Hh.
Qed.

(** X17.  Past the validation, handleGenerate makes exactly one call, for
    the image shown with the prompt and the hotspots of the state, and is all
    or nothing.  When the call and the decoding of its URL succeed, the
    active image gets the new file appended after its cursor, the other
    images stay, the hotspots are cleared and no error is set.  When either
    fails, the images and the hotspots are as before and the error is the
    failure message.  The loading message is cleared in both cases. *)
Theorem handleGenerate_all_or_nothing
    (generateContent : Service.ContentService) (now : Z)
    (st : AppState) (s : ImageState) (image : File) :
  activeImageState st = Some s ->
  index (history s) (historyIndex s) = Some image ->
  blank (prompt st) = false ->
  editHotspots st <> [] ->
  let st' := (handleGenerate generateContent now st).1 in
  (handleGenerate generateContent now st).2
    = [mkEditCall image (prompt st) (editHotspots st)]
  /\ loadingMessage st' = None
  /\ (forall newImageFile,
        editAttempt generateContent now st image = Ok newImageFile ->
        activeImageState st' = Some (appended s newImageFile)
        /\ sameElsewhere (activeImageIndex st) st st'
        /\ editHotspots st' = [] /\ displayHotspots st' = []
        /\ error st' = None)
  /\ (forall err,
        editAttempt generateContent now st image = Throw err ->
        images st' = images st
        /\ editHotspots st' = editHotspots st
        /\ displayHotspots st' = displayHotspots st
        /\ error st' = Some ("Gagal menghasilkan gambar. "
                               +:+ messageOr "Terjadi kesalahan tidak dikenal." err)).
Proof.
  intros Hs Himg Hb Hh st'.
  assert (currentImage st = Some image) as Hcur.
  { unfold currentImage. by rewrite Hs. }
  assert (cursorInRange s) as Hc by by eapply index_lt.
  assert (trim (prompt st) <> EmptyString) as Hne.
  { intros H. apply trim_blank in H. congruence. }
  apply String.eqb_neq in Hne.
  assert ((length (editHotspots st) =? 0)%nat = false) as Hlen.
  { destruct (editHotspots st); [done | done]. }
  unfold st', handleGenerate. rewrite Hcur, Hne, Hlen.
  change (bind (Service.generateEditedImage generateContent image _ _) _)
    with (editAttempt generateContent now st image).
  cbn [fst snd].
  split; [done |]. split; [by destruct (editAttempt _ _ _ _) |]. split.
  - intros newImageFile ->.
    repeat split.
    + set (started := setError None (setLoadingMessage (Some "AI sedang bekerja...") st)).
      change (activeImageState
                (addImageToHistory (activeImageIndex started) newImageFile
                   (activeImageIndex started) started)
              = Some (appended s newImageFile)).
      by apply activeImageState_addImageToHistory.
    + intros j Hj.
      change (index (images (addImageToHistory (activeImageIndex st) newImageFile
                               (activeImageIndex st)
                               (setError None
                                  (setLoadingMessage (Some "AI sedang bekerja...") st)))) j
              = index (images st) j).
      by rewrite index_addImageToHistory_ne.
    + unfold addImageToHistory. by rewrite Z.eqb_refl.
  - by intros err ->.
Qed.

End GenerateFacts.

(** ** More on the batch controller *)
Module BatchMore.
Import Js JsFacts Observations HistoryFacts SessionFacts EditFacts BatchFacts.

Section Controller.
Variable operation : nat -> File -> string -> result string.
Variable now : nat -> Z.
Variable promptArg : string.
Variable operationName : string.

(** *** The loop, when every iteration succeeds *)
Lemma batchLoop_all_succeed all snap total (files : nat -> File) :
  forall targets i cur calls,
    NoDup targets ->
    (forall t, t ∈ targets -> index (images cur) t = index (images snap) t) ->
    (forall j, (j < length targets)%nat ->
       exists t img, targets !! j = Some t /\ shownAt snap t = Some img /\
         settle operation now promptArg operationName (i + j) img
         = Ok (files (i + j)%nat)) ->
    let r := batchLoop operation now promptArg operationName all
               snap total targets i cur calls in
    endThrown r = None
    /\ length (endCalls r) = (length calls + length targets)%nat
    /\ (forall j t s, targets !! j = Some t ->
          index (images snap) t = Some s ->
          index (images (endState r)) t = Some (appended s (files (i + j)%nat)))
    /\ (forall t, t ∉ targets ->
          index (images (endState r)) t = index (images cur) t)
    /\ error (endState r) = error cur.
Proof.
  induction targets as [|t rest IH]; intros i cur calls Hnd Hcur Hok.
  { simpl. repeat split; try done; lia. }
  apply NoDup_cons in Hnd as [Hnotin Hnd].
  destruct (Hok 0%nat ltac:(simpl; lia)) as (t' & img & [= <-] & Himg & Hsettle).
  rewrite Nat.add_0_r in Hsettle.
  destruct (shownAt_Some _ _ _ Himg) as (s & Hs & Hshown & Hc).
  cbn [batchLoop]. rewrite Hs, Hshown.
  apply settle_Ok in Hsettle as (url & Hop & Hdec). rewrite Hop, Hdec.
  set (cur' := addImageToHistory (activeImageIndex snap) (files i) t
                 (setLoadingMessage
                    (Some (progressMessage operationName all i total)) cur)).
  set (calls' := calls ++ [mkCall img promptArg]).
  assert (forall t', t' <> t -> index (images cur') t' = index (images cur) t')
    as Hother.
  { intros t' Hne. unfold cur'. by rewrite index_addImageToHistory_ne. }
  destruct (IH (S i) cur' calls' Hnd) as (Hthrown & Hcalls & Hdone & Hrest & Herr).
  - intros t' Ht'. rewrite Hother; [apply Hcur; by right |]. by intros ->.
  - intros j Hj. destruct (Hok (S j) ltac:(simpl; lia)) as (t' & img' & Ht' & Himg' & Hs').
    exists t', img'. replace (S i + j)%nat with (i + S j)%nat by lia. done.
  - split; [done |]. split.
    { rewrite Hcalls. unfold calls'. rewrite length_app. simpl. lia. }
    split; [|split].
    + intros [|j] t' s' Ht' Hs''; simpl in Ht'.
      * injection Ht' as <-. rewrite Nat.add_0_r.
        assert (s' = s) as -> by congruence.
        rewrite Hrest by done.
        unfold cur'. apply index_addImageToHistory_eq; [|done].
        change (index (images cur) t = Some s). rewrite Hcur; [done | by left].
      * replace (i + S j)%nat with (S i + j)%nat by lia. by apply Hdone.
    + intros t' Ht'. apply not_elem_of_cons in Ht' as [Hne Ht'].
      rewrite Hrest by done. by apply Hother.
    + rewrite Herr. unfold cur', addImageToHistory.
      by destruct (t =? activeImageIndex snap).
Qed.

(** X18.  When the operation succeeds on every target of a batch, every
    target has its history cut after the cursor and the one new file
    appended, every image that is no target is unchanged, one call is made
    per target, and the batch ends with no error and no loading message. *)
Theorem batch_all_succeed (applyToAll : bool) (st : AppState) (files : nat -> File) :
  (forall j, (j < length (batchTargets applyToAll st))%nat ->
     exists img, targetInput applyToAll st j = Some img /\
       settle operation now promptArg operationName j img = Ok (files j)) ->
  let targets := batchTargets applyToAll st in
  let st' := (handleApplyBatchOperation operation now promptArg operationName
                applyToAll st).1 in
  let calls := (handleApplyBatchOperation operation now promptArg operationName
                  applyToAll st).2 in
  (forall j t s, targets !! j = Some t -> index (images st) t = Some s ->
     index (images st') t = Some (appended s (files j)))
  /\ (forall t, t ∉ targets -> index (images st') t = index (images st) t)
  /\ error st' = None
  /\ loadingMessage st' = None
  /\ length calls = length targets.
Proof.
  intros Hok targets st' calls.
  assert (someInvalidTarget applyToAll st = false) as Hguard.
  { destruct applyToAll; [apply someInvalidTarget_all |].
    destruct (Hok 0%nat ltac:(simpl; lia)) as (img & Himg & _).
    by eapply guard_passes_when_called. }
  subst st' calls. unfold handleApplyBatchOperation. rewrite Hguard. fold targets.
  pose proof (batchTargets_NoDup applyToAll st) as Hnd. fold targets in Hnd.
  destruct (batchLoop_all_succeed applyToAll st (length targets) files
              targets 0%nat (setError None st) [] Hnd)
    as (Hthrown & Hcalls & Hdone & Hrest & Herr).
  - done.
  - intros j Hj. destruct (Hok j Hj) as (img & (t & Ht & Himg)%targetInput_Some & Hs).
    by exists t, img.
  - rewrite Hthrown. cbn [fst snd].
    split; [|split; [|split; [|split]]]; [|done..].
    intros j t s Ht Hs. by apply (Hdone j t s).
Qed.

(** *** What the loop keeps, whatever the operation does *)
Lemma batchLoop_keeps all snap total :
  forall targets i cur calls,
    wellFormed cur ->
    let r := batchLoop operation now promptArg operationName all
               snap total targets i cur calls in
    wellFormed (endState r)
    /\ anchors (endState r) = anchors cur
    /\ activeImageIndex (endState r) = activeImageIndex cur.
Proof.
  induction targets as [|t rest IH]; intros i cur calls Hwf; [done |].
  cbn [batchLoop].
  destruct (index (images snap) t) as [s|]; [|done].
  destruct (index (history s) (historyIndex s)) as [img|]; [|by apply IH].
  destruct (operation i img promptArg) as [url|e]; [|done].
  destruct (dataURLtoFile url _) as [f|e]; [|done].
  set (cur' := addImageToHistory _ _ _ _).
  assert (wellFormed cur') as Hwf' by by apply wellFormed_addImageToHistory.
  destruct (IH (S i) cur' (calls ++ [mkCall img promptArg]) Hwf') as (H1 & H2 & H3).
  split; [done |]. split.
  - rewrite H2. unfold cur'. by rewrite anchors_addImageToHistory.
  - rewrite H3. unfold cur', addImageToHistory.
    by destruct (t =? activeImageIndex snap).
Qed.

(** X19.  Whatever the remote operation does, a batch keeps the history
    invariant and the shape of the collection: in a state whose cursors are
    in range, the state after the batch has its cursors in range, the same
    number of images with the same originals and the same first history
    entries, and the same active index. *)
Theorem batch_keeps_invariant (applyToAll : bool) (st : AppState) :
  wellFormed st ->
  let st' := (handleApplyBatchOperation operation now promptArg operationName
                applyToAll st).1 in
  wellFormed st'
  /\ anchors st' = anchors st
  /\ length (images st') = length (images st)
  /\ activeImageIndex st' = activeImageIndex st.
Proof.
  intros Hwf st'. subst st'. unfold handleApplyBatchOperation.
  destruct (someInvalidTarget applyToAll st); [done |].
  destruct (batchLoop_keeps applyToAll st (length (batchTargets applyToAll st))
              (batchTargets applyToAll st) 0%nat (setError None st) [] Hwf)
    as (H1 & H2 & H3).
  cbn [fst].
  assert (forall x, wellFormed x /\ anchors x = anchors st
                    /\ activeImageIndex x = activeImageIndex st ->
            wellFormed x /\ anchors x = anchors st
            /\ length (images x) = length (images st)
            /\ activeImageIndex x = activeImageIndex st) as Hlen.
  { intros x (? & Ha & ?). repeat split; try done.
    apply (f_equal length) in Ha. unfold anchors in Ha. by rewrite !length_fmap in Ha. }
  destruct (endThrown _); apply Hlen; done.
Qed.

(** *** The calls of the loop *)
Lemma batchLoop_calls all snap total :
  forall targets i cur calls,
    (forall t, t ∈ targets -> is_Some (shownAt snap t)) ->
    let r := batchLoop operation now promptArg operationName all
               snap total targets i cur calls in
    exists (m : nat) (made : list Call),
      (m <= length targets)%nat
      /\ endCalls r = calls ++ made
      /\ Forall2 (fun t call => shownAt snap t = Some (callImage call)
                                /\ callPrompt call = promptArg)
                 (take m targets) made
      /\ (endThrown r = None -> m = length targets).
Proof.
  induction targets as [|t rest IH]; intros i cur calls Hshown.
  { exists 0%nat, []. simpl. rewrite app_nil_r. repeat split; try done. }
  destruct (Hshown t ltac:(by left)) as [img Himg].
  destruct (shownAt_Some _ _ _ Himg) as (s & Hs & Hsh & _).
  cbn [batchLoop]. rewrite Hs, Hsh.
  assert (Forall2 (fun t call => shownAt snap t = Some (callImage call)
                                 /\ callPrompt call = promptArg)
                  (take 1 (t :: rest)) [mkCall img promptArg]) as Hone.
  { simpl. rewrite take_0. by repeat constructor. }
  destruct (operation i img promptArg) as [url|e].
  2:{ exists 1%nat, [mkCall img promptArg]. simpl. repeat split; try done. lia. }
  destruct (dataURLtoFile url _) as [f|e].
  2:{ exists 1%nat, [mkCall img promptArg]. simpl. repeat split; try done. lia. }
  edestruct (IH (S i)) as (m & made & Hm & Hcalls & Hall & Hnone).
  { intros t' Ht'. apply Hshown. by right. }
  exists (S m), (mkCall img promptArg :: made). split; [simpl; lia |]. split.
  - rewrite Hcalls. by rewrite <- app_assoc.
  - split; [|intros H; simpl; f_equal; by apply Hnone].
    simpl. constructor; [done | done].
Qed.

(** X20.  The calls of a batch follow the targets.  In a state whose
    cursors are in range, the calls made are, in order, one call for each of
    the first m targets, for some m; each call is given the image shown of
    its target and the prompt of the batch.  No target is called twice, and
    none is called out of turn. *)
Theorem batch_calls_follow_targets (applyToAll : bool) (st : AppState) :
  wellFormed st ->
  let targets := batchTargets applyToAll st in
  let calls := (handleApplyBatchOperation operation now promptArg operationName
                  applyToAll st).2 in
  exists m : nat,
    (m <= length targets)%nat
    /\ Forall2 (fun t call => shownAt st t = Some (callImage call)
                              /\ callPrompt call = promptArg)
               (take m targets) calls.
Proof.
  intros Hwf targets calls. subst calls. unfold handleApplyBatchOperation.
  destruct (someInvalidTarget applyToAll st) eqn:Hguard.
  { exists 0%nat. simpl. split; [lia |]. rewrite take_0. constructor. }
  fold targets.
  destruct (batchLoop_calls applyToAll st (length targets) targets 0%nat
              (setError None st) [])
    as (m & made & Hm & Hcalls & Hall & _).
  - intros t Ht.
    destruct (proj1 (someInvalidTarget_false _ _) Hguard t Ht) as [s Hs].
    unfold shownAt. rewrite Hs. simpl. apply index_is_Some.
    apply index_Some in Hs as [_ Hs]. by eapply (Forall_lookup_1 _ _ _ _ Hwf).
  - exists m. split; [done |]. cbn [snd]. by rewrite Hcalls.
Qed.

End Controller.

End BatchMore.

(** ** Applying the generated background *)
Module BackgroundFacts.
Import Js JsFacts Pipeline HistoryFacts SessionFacts BatchFacts.

Section ApplyBackground.
Variable generateContent : nat -> Service.ContentService.
Variable now : nat -> Z.

Lemma addImageToHistory_setLoadingMessage c f idx m st :
  addImageToHistory c f idx (setLoadingMessage m st)
  = setLoadingMessage m (addImageToHistory c f idx st).
Proof. unfold addImageToHistory. by destruct (idx =? c). Qed.

(** The loop of handleApplyBackground is the loop of the batch controller
    for the composite operation: the two end with the same state up to the
    loading message, the same thrown value and as many calls. *)
Lemma backgroundLoop_as_batchLoop all background snap total :
  forall targets i cur cur2 calls calls2,
    setLoadingMessage None cur = setLoadingMessage None cur2 ->
    let rb := backgroundLoop generateContent now all background snap total
                targets i cur calls in
    let r := batchLoop (compositeOperation generateContent background) now EmptyString "bg-applied" all
               snap total targets i cur2 calls2 in
    setLoadingMessage None (bgEndState rb) = setLoadingMessage None (endState r)
    /\ bgEndThrown rb = endThrown r
    /\ (length (bgEndCalls rb) + length calls2 = length (endCalls r) + length calls)%nat.
Proof.
  induction targets as [|t rest IH]; intros i cur cur2 calls calls2 Hcur.
  { simpl. repeat split; try done; lia. }
  cbn [backgroundLoop batchLoop].
  destruct (index (images snap) t) as [s|]; [|simpl; repeat split; try done; lia].
  destruct (index (history s) (historyIndex s)) as [img|]; [|by apply IH].
  change (compositeOperation generateContent background i img EmptyString)
    with (Service.applyBackgroundToImage (generateContent i) img background).
  change (resultFileName now "bg-applied" i)
    with ("bg-applied-" +:+ showZ (now i) +:+ ".png").
  destruct (Service.applyBackgroundToImage (generateContent i) img background)
    as [url|e].
  2:{ cbn [bgEndState bgEndThrown bgEndCalls endState endThrown endCalls].
      rewrite !length_app. simpl length.
      split; [exact Hcur | split; [done | lia]]. }
  destruct (dataURLtoFile url _) as [f|e].
  2:{ cbn [bgEndState bgEndThrown bgEndCalls endState endThrown endCalls].
      rewrite !length_app. simpl length.
      split; [exact Hcur | split; [done | lia]]. }
  destruct (IH (S i)
              (addImageToHistory (activeImageIndex snap) f t
                 (setLoadingMessage (Some (backgroundProgress all i total)) cur))
              (addImageToHistory (activeImageIndex snap) f t
                 (setLoadingMessage
                    (Some (progressMessage "bg-applied" all i total)) cur2))
              (calls ++ [mkBackgroundCall img background])
              (calls2 ++ [mkCall img EmptyString])) as (H1 & H2 & H3).
  { rewrite !addImageToHistory_setLoadingMessage.
    change (setLoadingMessage None (setLoadingMessage ?m ?x))
      with (setLoadingMessage None x).
    rewrite <- !addImageToHistory_setLoadingMessage. by rewrite Hcur. }
  split; [exact H1 |]. split; [exact H2 |].
  rewrite !length_app in H3. simpl in H3. lia.
Qed.

(** X21.  handleApplyBackground checks the background before the targets.
    Without a generated background it reports that there is none; with one,
    when the batch is for the active image alone and the active index is no
    index of the collection, it reports that no image is selected.  In both
    cases it makes no call and changes nothing but the error. *)
Theorem handleApplyBackground_guards (applyToAll : bool) (st : AppState) :
  (generatedBackground st = None ->
     handleApplyBackground generateContent now applyToAll st
     = (setError (Some "Tidak ada latar belakang yang dibuat untuk diterapkan.") st, []))
  /\ (forall background,
        generatedBackground st = Some background ->
        applyToAll = false ->
        activeImageIndex st < 0 \/ Z.of_nat (length (images st)) <= activeImageIndex st ->
        handleApplyBackground generateContent now applyToAll st
        = (setError (Some "Tidak ada gambar yang dipilih untuk menerapkan latar belakang.") st,
           [])).
Proof.
  unfold handleApplyBackground. split.
  - by intros ->.
  - intros background -> -> Hbad.
    assert (someInvalidTarget false st = true) as ->; [|done].
    apply someInvalidTarget_single. unfold activeImageState.
    rewrite eq_None_not_Some, index_is_Some. lia.
Qed.

(** X22.  The background batch halts at the first failure like the batch
    controller.  With a generated background, when the composition succeeds
    on the targets 0..k-1 and fails on target k, each of the first k targets
    has its history cut after the cursor and the one new file appended,
    target k, the later targets and every other image are unchanged, one
    call is made for each of the targets 0..k, and the failure is
    reported. *)
Theorem background_halts_at_first_failure
    (applyToAll : bool) (st : AppState) (background : File)
    (k : nat) (files : nat -> File) (e : exn) :
  generatedBackground st = Some background ->
  (forall j, (j < k)%nat ->
     exists img, targetInput applyToAll st j = Some img /\
       settleBackground generateContent now background j img = Ok (files j)) ->
  (exists img, targetInput applyToAll st k = Some img /\
     settleBackground generateContent now background k img = Throw e) ->
  let targets := batchTargets applyToAll st in
  let st' := (handleApplyBackground generateContent now applyToAll st).1 in
  let calls := (handleApplyBackground generateContent now applyToAll st).2 in
  (forall j t s, (j < k)%nat -> targets !! j = Some t ->
     index (images st) t = Some s ->
     index (images st') t = Some (appended s (files j)))
  /\ (forall j t, (k <= j)%nat -> targets !! j = Some t ->
       index (images st') t = index (images st) t)
  /\ (forall t, t ∉ targets -> index (images st') t = index (images st) t)
  /\ error st' = Some ("Gagal menerapkan latar belakang. "
                         +:+ messageOr "Terjadi kesalahan tidak dikenal." e)
  /\ loadingMessage st' = None
  /\ length calls = (k + 1)%nat.
Proof.
  intros Hbg Hok Hfail targets st' calls.
  subst st' calls. unfold handleApplyBackground. rewrite Hbg.
  destruct Hfail as (imgk & Hk & Hfail).
  rewrite (guard_passes_when_called _ _ _ _ Hk). fold targets.
  pose proof (batchTargets_NoDup applyToAll st) as Hnd. fold targets in Hnd.
  destruct (backgroundLoop_as_batchLoop applyToAll background st (length targets)
              targets 0%nat (setError None st) (setError None st) [] [] eq_refl)
    as (Hstate & Hthrown & Hlen).
  destruct (batchLoop_first_failure (compositeOperation generateContent background) now EmptyString
              "bg-applied" applyToAll st (length targets) files e
              targets 0%nat (setError None st) [] k Hnd)
    as (Hthrown' & Hcalls & Hdone & Hrest & _).
  - done.
  - intros j Hj. destruct (Hok j Hj) as (img & (t & Ht & Himg)%targetInput_Some & Hs).
    by exists t, img.
  - apply targetInput_Some in Hk as (t & Ht & Himg). by exists t, imgk.
  - rewrite Hthrown, Hthrown'. cbn [fst snd].
    assert (images (bgEndState
                      (backgroundLoop generateContent now applyToAll background st
                         (length targets) targets 0 (setError None st) []))
            = images (endState
                        (batchLoop (compositeOperation generateContent background) now EmptyString
                           "bg-applied" applyToAll st (length targets) targets 0
                           (setError None st) []))) as Himages.
    { by apply (f_equal images) in Hstate. }
    change (images (setLoadingMessage None (setError ?m ?x))) with (images x).
    rewrite Himages.
    split; [|split; [|split; [|split; [|split]]]].
    + intros j t s Hj Ht Hs. by apply (Hdone j t s).
    + intros j t Hj Ht. apply Hrest.
      intros (n & Hn & Hlt)%elem_of_take.
      pose proof (NoDup_lookup _ _ _ _ Hnd Hn Ht). lia.
    + intros t Ht. apply Hrest. intros (n & Hn & _)%elem_of_take. apply Ht.
      by eapply list_elem_of_lookup_2.
    + done.
    + done.
    + simpl in Hlen, Hcalls. lia.
Qed.

End ApplyBackground.

End BackgroundFacts.

(** ** From a panel to the history *)
Module PipelineFacts.
Import Js JsFacts Pipeline HistoryFacts SessionFacts BatchFacts CodecFacts.

Lemma settle_filter_echo now filterPrompt j img :
  parseableType (type img) = true ->
  settle (filterOperation (fun _ => MoreSamples.echoService)) now filterPrompt
    "filter" j img
  = Ok (echoed "filter" now j img).
Proof.
  intros Ht. unfold settle, filterOperation, Service.generateFilteredImage.
  rewrite (fileToPart_parseable img Ht).
  cbn [bind MoreSamples.echoService Service.requestParts].
  cbn [Validator.handleApiResponse].
  by apply dataURLtoFile_encoded.
Qed.

(** X23.  A filter batch against a service that sends every image back as
    it got it stores, for every target, a file with the media type and the
    octets of the image the target showed, named after the clock of its
    iteration: encoding, request, validation, decoding and the history
    update compose without loss.  The batch ends with no error and one call
    per target. *)
Theorem filter_batch_through_echo
    (now : nat -> Z) (filterPrompt : string) (applyToAll : bool) (st : AppState) :
  (forall j, (j < length (batchTargets applyToAll st))%nat ->
     exists img, targetInput applyToAll st j = Some img /\
       parseableType (type img) = true) ->
  let targets := batchTargets applyToAll st in
  let r := handleApplyFilter (filterOperation (fun _ => MoreSamples.echoService))
             now filterPrompt applyToAll st in
  (forall j t s img, targets !! j = Some t -> index (images st) t = Some s ->
     index (history s) (historyIndex s) = Some img ->
     index (images r.1) t = Some (appended s (echoed "filter" now j img)))
  /\ (forall t, t ∉ targets -> index (images r.1) t = index (images st) t)
  /\ error r.1 = None
  /\ loadingMessage r.1 = None
  /\ length r.2 = length targets.
Proof.
  intros Hok targets r.
  assert (someInvalidTarget applyToAll st = false) as Hguard.
  { destruct applyToAll; [apply someInvalidTarget_all |].
    destruct (Hok 0%nat ltac:(simpl; lia)) as (img & Himg & _).
    by eapply guard_passes_when_called. }
  subst r. unfold handleApplyFilter, handleApplyBatchOperation.
  rewrite Hguard. fold targets.
  pose proof (batchTargets_NoDup applyToAll st) as Hnd. fold targets in Hnd.
  destruct (BatchMore.batchLoop_all_succeed
              (filterOperation (fun _ => MoreSamples.echoService)) now filterPrompt
              "filter" applyToAll st (length targets)
              (echoedAt "filter" now applyToAll st)
              targets 0%nat (setError None st) [] Hnd)
    as (Hthrown & Hcalls & Hdone & Hrest & Herr).
  - done.
  - intros j Hj. destruct (Hok j Hj) as (img & Himg & Ht).
    destruct (targetInput_Some _ _ _ _ Himg) as (t & Htj & Hshown).
    exists t, img. split; [done |]. split; [done |].
    simpl. unfold echoedAt. rewrite Himg. by apply settle_filter_echo.
  - rewrite Hthrown. cbn [fst snd].
    split; [|split; [|split; [|split]]]; [|done..].
    intros j t s img Ht Hs Himg.
    replace (echoed "filter" now j img)
      with (echoedAt "filter" now applyToAll st j); [by apply (Hdone j t s) |].
    unfold echoedAt, targetInput. fold targets. rewrite Ht. simpl.
    unfold shownAt. rewrite Hs. simpl. by rewrite Himg.
Qed.

(** X24.  A blocked prompt stops a filter batch at its first image.  When
    the service answers the request for the first target with a response
    that carries a block reason, the handler makes that one call, stores
    nothing, and reports the message of the validator behind the prefix of
    the batch; the loading message is cleared. *)
Theorem filter_batch_blocked
    (generateContent : nat -> Service.ContentService) (now : nat -> Z)
    (filterPrompt : string) (applyToAll : bool) (st : AppState)
    (img : File) (part : Encoder.InlineData)
    (response : Validator.GenerateContentResponse) (reason : string) :
  targetInput applyToAll st 0 = Some img ->
  Encoder.fileToPart img = Ok part ->
  generateContent 0%nat (filterRequest part filterPrompt) = Ok response ->
  Validator.blockReasonOf response = Some reason ->
  reason <> EmptyString ->
  let r := handleApplyFilter (filterOperation generateContent)
             now filterPrompt applyToAll st in
  images r.1 = images st
  /\ error r.1
     = Some ("Gagal menerapkan filter. "
               +:+ Validator.blockedMessage reason
                     (Validator.blockReasonMessageOf response))
  /\ loadingMessage r.1 = None
  /\ r.2 = [mkCall img filterPrompt].
Proof.
  intros Himg Hpart Hresp Hreason Hne r.
  subst r. unfold handleApplyFilter, handleApplyBatchOperation.
  rewrite (guard_passes_when_called _ _ _ _ Himg).
  destruct (targetInput_Some _ _ _ _ Himg) as (t & Ht & Hshown).
  destruct (shownAt_Some _ _ _ Hshown) as (s & Hs & Hh & _).
  destruct (batchTargets applyToAll st) as [|t' rest] eqn:Htargets; [done |].
  injection Ht as ->.
  cbn [batchLoop]. rewrite Hs, Hh.
  assert (filterOperation generateContent 0%nat img filterPrompt
          = Throw (Error (Validator.blockedMessage reason
                            (Validator.blockReasonMessageOf response)))) as ->.
  { unfold filterOperation, Service.generateFilteredImage. rewrite Hpart.
    cbn [bind]. fold (filterRequest part filterPrompt). rewrite Hresp.
    cbn [bind]. unfold Validator.handleApiResponse.
    unfold Validator.blockReasonOf in Hreason. rewrite Hreason.
    apply truthy_Some in Hne. by rewrite Hne. }
  done.
Qed.

End PipelineFacts.

(** ** The prompt panels *)
Module PanelFacts.
Import Js JsFacts Observations Panels Suggest.

Lemma activePrompt_panelStep (p : PanelState) (a : PromptInput) :
  activePrompt (panelStep p a) = inputValue a.
Proof.
  destruct a as [prompt|value]; [|done].
  unfold panelStep, handlePresetClick, activePrompt. simpl.
  by destruct prompt.
Qed.

Lemma exclusive_panelStep (p : PanelState) (a : PromptInput) :
  exclusive (panelStep p a).
Proof. destruct a; [by right | by left]. Qed.

(** X25.  In a prompt panel the last input wins.  After any sequence of
    preset clicks and edits of the custom text, the preset and the custom
    text exclude each other, the prompt in force is the value of the last
    input, and Apply passes exactly that value on, or nothing when it is
    empty. *)
Theorem panel_last_input_wins
    (inputs : list PromptInput) (a : PromptInput) (applyToAll : bool) (p : PanelState) :
  let p' := fold_left panelStep (inputs ++ [a]) p in
  exclusive p'
  /\ activePrompt p' = inputValue a
  /\ handleApply applyToAll p'
     = if String.eqb (inputValue a) EmptyString then None
       else Some (inputValue a, applyToAll).
Proof.
  intros p'. subst p'. rewrite fold_left_app. cbn [fold_left].
  split; [apply exclusive_panelStep |].
  unfold handleApply. by rewrite activePrompt_panelStep.
Qed.

(** X26.  An idea for a filter or an adjustment becomes the prompt in force.
    When the panel is not already waiting for an idea and the remote answer,
    trimmed and stripped of quotes, is not empty, that text replaces preset
    and custom text, Apply passes it on, and the error is cleared.  When the
    remote call rejects, the prompt of the panel is as before and the error
    is the message of generateRandomPrompt.  While the panel is waiting for
    an idea, a second request changes nothing. *)
Theorem panel_idea_becomes_prompt
    (context : Context) (remote : Context -> Remote) (applyToAll : bool)
    (p : PanelState) :
  let r := handleGenerateRandomPrompt context remote p in
  (isGeneratingIdea p = true -> r = (p, KeepError))
  /\ (isGeneratingIdea p = false ->
      isGeneratingIdea r.1 = false
      /\ backgroundPrompt r.1 = backgroundPrompt p
      /\ (forall t, remote context = Resolves (Some t) ->
            stripQuotes (trim t) <> EmptyString ->
            activePrompt r.1 = stripQuotes (trim t)
            /\ exclusive r.1
            /\ handleApply applyToAll r.1 = Some (stripQuotes (trim t), applyToAll)
            /\ r.2 = SetError None)
      /\ (forall e, remote context = Rejects e ->
            selectedPresetPrompt r.1 = selectedPresetPrompt p
            /\ customPrompt r.1 = customPrompt p
            /\ r.2 = SetError
                       (Some ("Gagal mendapatkan ide dari AI. "
                                +:+ messageOr "Terjadi kesalahan tidak dikenal." e)))).
Proof.
  intros r. subst r. unfold handleGenerateRandomPrompt. split.
  - by intros ->.
  - intros ->. unfold generateRandomPrompt, suggestion.
    split; [by destruct (remote context) as [e|[t|]];
              [| destruct (String.eqb _ _) |] |].
    split; [by destruct (remote context) as [e|[t|]];
              [| destruct (String.eqb _ _) |] |].
    split.
    + intros t -> Hne. apply String.eqb_neq in Hne. rewrite Hne.
      cbn [fst snd]. unfold handleApply, activePrompt. cbn.
      rewrite Hne. repeat split; by left.
    + by intros e ->.
Qed.

(** X27.  An idea for a background fills the background prompt only.  When
    the panel is not already waiting for one and the remote answer, trimmed
    and stripped of quotes, is not empty, Generate passes that text on and
    the prompt of the adjustment is as before; when the remote call rejects,
    the background prompt is as before and the error is the message of
    generateRandomPrompt. *)
Theorem panel_background_idea
    (remote : Context -> Remote) (p : PanelState) :
  isGeneratingBgIdea p = false ->
  let r := handleGenerateRandomBgPrompt remote p in
  isGeneratingBgIdea r.1 = false
  /\ activePrompt r.1 = activePrompt p
  /\ (forall t, remote background = Resolves (Some t) ->
        stripQuotes (trim t) <> EmptyString ->
        handleGenerateBackground r.1 = Some (stripQuotes (trim t))
        /\ r.2 = SetError None)
  /\ (forall e, remote background = Rejects e ->
        backgroundPrompt r.1 = backgroundPrompt p
        /\ r.2 = SetError
                   (Some ("Gagal mendapatkan ide dari AI. "
                            +:+ messageOr "Terjadi kesalahan tidak dikenal." e))).
Proof.
  intros Hidle r. subst r. unfold handleGenerateRandomBgPrompt. rewrite Hidle.
  unfold generateRandomPrompt, suggestion.
  split; [by destruct (remote background) as [e|[t|]];
            [| destruct (String.eqb _ _) |] |].
  split; [by destruct (remote background) as [e|[t|]];
            [| destruct (String.eqb _ _) |] |].
  split.
  - intros t -> Hne. apply String.eqb_neq in Hne. rewrite Hne.
    cbn [fst snd]. unfold handleGenerateBackground. cbn. by rewrite Hne.
  - by intros e ->.
Qed.

End PanelFacts.

(** ** The idea for the retouch prompt *)
Module IdeaFacts.
Import Js JsFacts Observations Suggest.

(** X28.  An idea for a retouch becomes the prompt of the editor and leaves
    the session alone.  When no idea is being awaited and the remote answer,
    trimmed and stripped of quotes, is not empty, that text is the prompt and
    the error is cleared; when the remote call rejects, the prompt is as
    before and the error is the message of generateRandomPrompt.  In both
    cases the images, the active index and the hotspots are as before.
    While an idea is being awaited, a second request changes nothing. *)
Theorem retouch_idea_becomes_prompt
    (remote : Context -> Remote) (st : IdeaState) :
  let st' := handleGenerateRandomRetouchPrompt remote st in
  (isGeneratingIdea st = true -> st' = st)
  /\ (isGeneratingIdea st = false ->
      isGeneratingIdea st' = false
      /\ images (app st') = images (app st)
      /\ activeImageIndex (app st') = activeImageIndex (app st)
      /\ editHotspots (app st') = editHotspots (app st)
      /\ (forall t, remote retouch = Resolves (Some t) ->
            stripQuotes (trim t) <> EmptyString ->
            prompt (app st') = stripQuotes (trim t) /\ error (app st') = None)
      /\ (forall e, remote retouch = Rejects e ->
            prompt (app st') = prompt (app st)
            /\ error (app st')
               = Some ("Gagal mendapatkan ide dari AI. "
                         +:+ messageOr "Terjadi kesalahan tidak dikenal." e))).
Proof.
  intros st'. subst st'. unfold handleGenerateRandomRetouchPrompt. split.
  - by intros ->.
  - intros ->. unfold generateRandomPrompt, suggestion.
    split; [done |].
    do 3 (split; [by destruct (remote retouch) as [e|[t|]];
                    [| destruct (String.eqb _ _) |] |]).
    split.
    + intros t -> Hne. apply String.eqb_neq in Hne. by rewrite Hne.
    + by intros e ->.
Qed.

End IdeaFacts.

(** ** The calls of the background batch *)
Module BackgroundCalls.
Import Js JsFacts Pipeline HistoryFacts SessionFacts BatchFacts.

Section ApplyBackground.
Variable generateContent : nat -> Service.ContentService.
Variable now : nat -> Z.

Lemma backgroundLoop_calls all background snap total :
  forall targets i cur calls,
    (forall t, t ∈ targets -> is_Some (shownAt snap t)) ->
    let r := backgroundLoop generateContent now all background snap total
               targets i cur calls in
    exists (m : nat) (made : list BackgroundCall),
      (m <= length targets)%nat
      /\ bgEndCalls r = calls ++ made
      /\ Forall2 (fun t call => shownAt snap t = Some (subjectOfCall call)
                                /\ backgroundOfCall call = background)
                 (take m targets) made
      /\ (bgEndThrown r = None -> m = length targets).
Proof.
  induction targets as [|t rest IH]; intros i cur calls Hshown.
  { exists 0%nat, []. simpl. rewrite app_nil_r. repeat split; try done. }
  destruct (Hshown t ltac:(by left)) as [img Himg].
  destruct (shownAt_Some _ _ _ Himg) as (s & Hs & Hsh & _).
  cbn [backgroundLoop]. rewrite Hs, Hsh.
  assert (Forall2 (fun t call => shownAt snap t = Some (subjectOfCall call)
                                 /\ backgroundOfCall call = background)
                  (take 1 (t :: rest)) [mkBackgroundCall img background]) as Hone.
  { simpl. rewrite take_0. by repeat constructor. }
  destruct (Service.applyBackgroundToImage (generateContent i) img background)
    as [url|e].
  2:{ exists 1%nat, [mkBackgroundCall img background]. simpl.
      repeat split; try done. lia. }
  destruct (dataURLtoFile url _) as [f|e].
  2:{ exists 1%nat, [mkBackgroundCall img background]. simpl.
      repeat split; try done. lia. }
  edestruct (IH (S i)) as (m & made & Hm & Hcalls & Hall & Hnone).
  { intros t' Ht'. apply Hshown. by right. }
  exists (S m), (mkBackgroundCall img background :: made).
  split; [simpl; lia |]. split.
  - rewrite Hcalls. by rewrite <- app_assoc.
  - split; [|intros H; simpl; f_equal; by apply Hnone].
    simpl. constructor; [done | done].
Qed.

(** X29.  The calls of the background batch follow the targets and all
    carry the generated background.  In a state whose cursors are in range
    and that holds a generated background, the calls made are, in order, one
    call for each of the first m targets, for some m; each call composes the
    image shown of its target with that background, and when the batch ends
    with no error every target was called. *)
Theorem background_calls_follow_targets
    (applyToAll : bool) (st : AppState) (background : File) :
  wellFormed st ->
  generatedBackground st = Some background ->
  let targets := batchTargets applyToAll st in
  let r := handleApplyBackground generateContent now applyToAll st in
  exists m : nat,
    (m <= length targets)%nat
    /\ Forall2 (fun t call => shownAt st t = Some (subjectOfCall call)
                              /\ backgroundOfCall call = background)
               (take m targets) r.2
    /\ (error r.1 = None -> m = length targets).
Proof.
  intros Hwf Hbg targets r. subst r. unfold handleApplyBackground. rewrite Hbg.
  destruct (someInvalidTarget applyToAll st) eqn:Hguard.
  { exists 0%nat. simpl. split; [lia |]. rewrite take_0. split; [constructor | done]. }
  fold targets.
  destruct (backgroundLoop_calls applyToAll background st (length targets) targets
              0%nat (setError None st) [])
    as (m & made & Hm & Hcalls & Hall & Hnone).
  - intros t Ht.
    destruct (proj1 (someInvalidTarget_false _ _) Hguard t Ht) as [s Hs].
    unfold shownAt. rewrite Hs. simpl. apply index_is_Some.
    apply index_Some in Hs as [_ Hs]. by eapply (Forall_lookup_1 _ _ _ _ Hwf).
  - exists m. split; [done |]. cbn [fst snd]. rewrite Hcalls. split; [done |].
    destruct (bgEndThrown _) as [e|]; [done | by intros _; apply Hnone].
Qed.

End ApplyBackground.

End BackgroundCalls.

(** ** Leaving the session *)
Module SessionEndFacts.
Import Js JsFacts Pipeline HistoryFacts SessionFacts BatchFacts.

(** X30.  Upload New ends the session whatever the state was: afterwards no
    image is shown, undo, redo and reset change nothing, and every editing
    handler returns without a remote call: handleGenerate reports that no
    image is loaded, a batch for the active image reports that no image is
    selected, a batch for all images does nothing, handleApplyBackground
    reports that there is no background. *)
Theorem handleUploadNew_ends_session
    (st : AppState) (generateContent : Service.ContentService)
    (generateContentAt : nat -> Service.ContentService)
    (operation : nat -> File -> string -> result string) (now : nat -> Z)
    (promptArg operationName : string) (applyToAll : bool) :
  let st0 := handleUploadNew st in
  currentImage st0 = None
  /\ (handleUndo st0 = st0 /\ handleRedo st0 = st0 /\ images (handleReset st0) = [])
  /\ handleGenerate generateContent (now 0%nat) st0
     = (setError (Some "Tidak ada gambar yang dimuat untuk diedit.") st0, [])
  /\ handleApplyBatchOperation operation now promptArg operationName false st0
     = (setError (Some (noTargetMessage operationName)) st0, [])
  /\ handleApplyBatchOperation operation now promptArg operationName true st0
     = (setLoadingMessage None st0, [])
  /\ handleApplyBackground generateContentAt now applyToAll st0
     = (setError (Some "Tidak ada latar belakang yang dibuat untuk diterapkan.") st0, []).
Proof.
  intros st0. subst st0. repeat split.
Qed.

End SessionEndFacts.

(** ** The further properties at concrete inputs *)
Module MoreRuns.
Import Js RunInputs.

Lemma fileToPart_result_shape_witness :
  fileToPart fileA = Ok partA
  /\ (mimeType partA <> EmptyString
      /\ allChars (fun c => negb (isSemi c) && negb (isLineTerminator c))
           (mimeType partA) = true
      /\ noComma (mimeType partA) = true
      /\ noComma (data partA) = true).
Proof.
  split; [reflexivity |].
  apply (ParserFacts.fileToPart_result_shape fileA partA). reflexivity.
Defined.

Lemma dataURLtoFile_ignores_after_second_comma_witness :
  dataURLtoFile ("data:image/png;base64" +:+ String "," ("QUJD" +:+ String "," "tail"))
    "a.png"
  = dataURLtoFile ("data:image/png;base64" +:+ String "," "QUJD") "a.png".
Proof.
  apply (ParserFacts.dataURLtoFile_ignores_after_second_comma
           "data:image/png;base64" "QUJD" "tail" "a.png"); reflexivity.
Defined.

Lemma handleApiResponse_first_image_part_witness :
  Validator.handleApiResponse imageWithRefusal "edit" = Ok "data:image/png;base64,QUJD".
Proof.
  apply (ValidatorMore.handleApiResponse_first_image_part imageWithRefusal "edit"
           (candidateWith [textPart; imagePart] "SAFETY") [] [textPart] [] imagePart
           (Validator.mkBlob (Some "image/png") (Some "QUJD"))); try reflexivity.
  repeat constructor.
Defined.

Lemma handleApiResponse_no_candidates_witness :
  Validator.handleApiResponse emptyAnswer "filter"
  = Throw (Error ("Model AI tidak mengembalikan gambar untuk " +:+ "filter" +:+ ". "
                    +:+ "Ini bisa terjadi karena filter keamanan atau jika permintaan terlalu rumit. Coba ulangi perintah Anda agar lebih lugas.")).
Proof.
  apply (proj2 (ValidatorMore.handleApiResponse_no_candidates emptyAnswer "filter"
                  eq_refl (or_introl eq_refl))).
  intros t [= <-]. reflexivity.
Defined.

Lemma validated_url_decodes_witness :
  bind (Validator.handleApiResponse imageOnly "edit")
       (fun url => dataURLtoFile url "edited.png")
  = Ok {| name := "edited.png"; type := "image/png";
          bytes := [Byte.x41; Byte.x42; Byte.x43] |}.
Proof.
  apply (ValidatorMore.validated_url_decodes imageOnly "edit" "edited.png"
           "image/png" [Byte.x41; Byte.x42; Byte.x43]); reflexivity.
Defined.

Lemma generateBackgroundImage_url_decodes_witness :
  Service.generateBackgroundImage oneImage "a beach" Service.Ratio1x1
  = Ok "data:image/png;base64,QUJD"
  /\ ((exists octets,
         dataURLtoFile "data:image/png;base64,QUJD" "bg.png"
         = Ok {| name := "bg.png"; type := "image/png"; bytes := octets |})
      \/ dataURLtoFile "data:image/png;base64,QUJD" "bg.png"
         = Throw InvalidCharacterError).
Proof.
  split; [reflexivity |].
  apply (ServiceFacts.generateBackgroundImage_url_decodes oneImage "a beach"
           Service.Ratio1x1 "data:image/png;base64,QUJD" "bg.png").
  reflexivity.
Defined.

Lemma generateBackgroundImage_failures_witness :
  Service.generateBackgroundImage noImages "a beach" Service.Ratio1x1
  = Throw (Error "Pembuatan latar belakang gagal: Model AI tidak mengembalikan gambar.").
Proof.
  apply (proj1 (ServiceFacts.generateBackgroundImage_failures noImages "a beach"
                  Service.Ratio1x1)
           (Service.mkImagesResponse (Some []))); [reflexivity |].
  right. reflexivity.
Defined.

Lemma operations_round_trip_through_echo_witness :
  let same := Ok {| name := "out.png"; type := "image/png";
                    bytes := [Byte.x41; Byte.x42; Byte.x43] |} in
  let decode := fun url => dataURLtoFile url "out.png" in
  bind (Service.generateEditedImage echoService fileA "warm" [(1, 2)]) decode = same
  /\ bind (Service.generateFilteredImage echoService fileA "warm") decode = same
  /\ bind (Service.generateAdjustedImage echoService fileA "warm") decode = same
  /\ bind (Service.applyBackgroundToImage echoService fileA fileB) decode = same.
Proof.
  apply (ServiceFacts.operations_round_trip_through_echo fileA fileB "warm" "out.png"
           [(1, 2)]); reflexivity.
Defined.

Lemma generateRandomPrompt_result_shape_witness :
  Suggest.generateRandomPrompt Suggest.filter quotedIdea = Ok "neon glow"
  /\ ("neon glow" <> EmptyString
      /\ allChars (fun c => negb (isQuote c)) "neon glow" = true).
Proof.
  split; [reflexivity |].
  apply (SuggestMore.generateRandomPrompt_result_shape Suggest.filter quotedIdea
           "neon glow").
  reflexivity.
Defined.

Lemma generateRandomPrompt_failures_witness :
  Client.generateRandomPrompt (Client.ConstructionThrows noApiKey) Suggest.retouch
    offline
  = Throw noApiKey
  /\ Client.generateRandomPrompt Client.Constructed Suggest.retouch offline
     = Throw (Error ("Gagal mendapatkan ide dari AI. "
                       +:+ "Terjadi kesalahan tidak dikenal.")).
Proof.
  split.
  - apply (proj1 (SuggestMore.generateRandomPrompt_failures
                    (Client.ConstructionThrows noApiKey) Suggest.retouch offline)
             noApiKey).
    reflexivity.
  - apply (proj1 (proj1 (proj2 (SuggestMore.generateRandomPrompt_failures
                                  Client.Constructed Suggest.retouch offline))
                    eq_refl)
             NonError).
    reflexivity.
Defined.

(** A file with no type is read as application/octet-stream. *)
Lemma fileToPart_untyped_file :
  fileToPart untyped = Ok {| mimeType := "application/octet-stream"; data := "AA==" |}.
Proof. reflexivity. Qed.

Lemma handleFileSelect_starts_session_witness :
  let st' := handleFileSelect (Some [fileA; fileB]) initialState in
  images st' = [mkImageState fileA [fileA] 0; mkImageState fileB [fileB] 0]
  /\ activeImageIndex st' = 0
  /\ currentImage st' = Some fileA
  /\ canUndo st' = false /\ canRedo st' = false
  /\ error st' = None
  /\ editHotspots st' = [] /\ displayHotspots st' = []
  /\ generatedBackground st' = None.
Proof.
  apply (proj2 (HistoryMore.handleFileSelect_starts_session (Some [fileA; fileB])
                  initialState) fileA [fileB]).
  reflexivity.
Defined.

Lemma undo_redo_inverse_witness :
  canUndo editedTwice = true
  /\ images (handleRedo (handleUndo editedTwice)) = images editedTwice
  /\ activeImageIndex (handleRedo (handleUndo editedTwice))
     = activeImageIndex editedTwice.
Proof.
  split; [reflexivity |].
  apply (proj1 (HistoryMore.undo_redo_inverse editedTwice
                  ltac:(repeat constructor; simpl; lia))).
  reflexivity.
Defined.

Lemma new_edit_ends_redo_witness :
  let st' := addImageToHistory 0 fileC 0 editedThenUndone in
  currentImage st' = Some fileC
  /\ canRedo st' = false
  /\ canUndo st' = true
  /\ crop st' = None /\ completedCrop st' = None
  /\ currentImage (handleUndo st') = Some fileA.
Proof.
  apply (EditFacts.new_edit_ends_redo editedThenUndone
           (mkImageState fileA [fileA; fileB] 0) fileC).
  - reflexivity.
  - unfold cursorInRange. simpl. lia.
Defined.

Lemma handleGenerate_validation_witness :
  handleGenerate echoService 1700000000000 blankPrompt
  = (setError (Some "Silakan masukkan deskripsi untuk editan Anda.") blankPrompt, []).
Proof.
  apply (proj1 (proj2 (GenerateFacts.handleGenerate_validation echoService
                         1700000000000 blankPrompt)) fileA); reflexivity.
Defined.

Lemma handleGenerate_all_or_nothing_witness :
  let st' := (handleGenerate echoService 1700000000000 readyToEdit).1 in
  (handleGenerate echoService 1700000000000 readyToEdit).2
    = [mkEditCall fileA "add a hat" [(10, 20)]]
  /\ activeImageState st' = Some (mkImageState fileA [fileA; editedA] 1)
  /\ editHotspots st' = []
  /\ error st' = None.
Proof.
  intros st'.
  destruct (GenerateFacts.handleGenerate_all_or_nothing echoService 1700000000000
              readyToEdit (mkImageState fileA [fileA] 0) fileA)
    as (Hcall & _ & Hok & _); try reflexivity; [discriminate |].
  destruct (Hok editedA) as (Hs & _ & Hh & _ & He); [reflexivity |].
  split; [exact Hcall |]. split; [exact Hs |]. split; [exact Hh | exact He].
Defined.

Lemma batch_all_succeed_witness :
  let st' := (handleApplyBatchOperation alwaysImage clock "warmer" "filter" true
                threeImages).1 in
  index (images st') 1 = Some (mkImageState fileB [fileB; resultAt 1] 1)
  /\ error st' = None.
Proof.
  intros st'.
  destruct (BatchMore.batch_all_succeed alwaysImage clock "warmer" "filter" true
              threeImages resultAt)
    as (Hdone & _ & Herr & _).
  - intros [|[|[|j]]] Hj; [exists fileA | exists fileB | exists fileC |];
      try (split; reflexivity).
    simpl in Hj. lia.
  - split; [|exact Herr].
    apply (Hdone 1%nat 1 (mkImageState fileB [fileB] 0)); reflexivity.
Defined.

Lemma batch_keeps_invariant_witness :
  let st' := (handleApplyBatchOperation firstCallOnly clock "warmer" "filter" true
                threeImages).1 in
  wellFormed st'
  /\ anchors st' = anchors threeImages
  /\ length (images st') = length (images threeImages)
  /\ activeImageIndex st' = activeImageIndex threeImages.
Proof.
  apply (BatchMore.batch_keeps_invariant firstCallOnly clock "warmer" "filter" true
           threeImages).
  repeat constructor; simpl; lia.
Defined.

Lemma batch_calls_follow_targets_witness :
  let targets := batchTargets true threeImages in
  let calls := (handleApplyBatchOperation firstCallOnly clock "warmer" "filter" true
                  threeImages).2 in
  exists m : nat,
    (m <= length targets)%nat
    /\ Forall2 (fun t call => shownAt threeImages t = Some (callImage call)
                              /\ callPrompt call = "warmer")
               (take m targets) calls.
Proof.
  apply (BatchMore.batch_calls_follow_targets firstCallOnly clock "warmer" "filter" true
           threeImages).
  repeat constructor; simpl; lia.
Defined.

Lemma handleApplyBackground_guards_witness :
  handleApplyBackground echoOnce clock false initialState
  = (setError (Some "Tidak ada latar belakang yang dibuat untuk diterapkan.")
       initialState, []).
Proof.
  apply (proj1 (BackgroundFacts.handleApplyBackground_guards echoOnce clock false
                  initialState)).
  reflexivity.
Defined.

Lemma background_halts_at_first_failure_witness :
  let st' := (handleApplyBackground echoOnce clock true withBackground).1 in
  index (images st') 0 = Some (mkImageState fileA [fileA; composedA] 1)
  /\ index (images st') 1 = Some (mkImageState fileB [fileB] 0)
  /\ error st' = Some "Gagal menerapkan latar belakang. quota exceeded".
Proof.
  intros st'.
  destruct (BackgroundFacts.background_halts_at_first_failure echoOnce clock true
              withBackground fileC 1 (fun _ => composedA) (Error "quota exceeded"))
    as (Hdone & Hlater & _ & Herr & _).
  - reflexivity.
  - intros j Hj. assert (j = 0%nat) as -> by lia. exists fileA. split; reflexivity.
  - exists fileB. split; reflexivity.
  - split; [|split].
    + apply (Hdone 0%nat 0 (mkImageState fileA [fileA] 0)); [lia | reflexivity | reflexivity].
    + apply (Hlater 1%nat 1); [lia | reflexivity].
    + apply Herr.
Defined.

Lemma filter_batch_through_echo_witness :
  let r := handleApplyFilter (filterOperation (fun _ => echoService)) clock "warmer"
             true threeImages in
  index (images r.1) 2
    = Some (mkImageState fileC
              [fileC; {| name := "filter-1700000000002.png"; type := "image/webp";
                         bytes := [Byte.x52] |}] 1)
  /\ error r.1 = None.
Proof.
  intros r.
  destruct (PipelineFacts.filter_batch_through_echo clock "warmer" true threeImages)
    as (Hdone & _ & Herr & _).
  - intros [|[|[|j]]] Hj; [exists fileA | exists fileB | exists fileC |];
      try (split; reflexivity).
    simpl in Hj. lia.
  - split; [|exact Herr].
    apply (Hdone 2%nat 2 (mkImageState fileC [fileC] 0) fileC); reflexivity.
Defined.

Lemma filter_batch_blocked_witness :
  let r := handleApplyFilter (filterOperation (fun _ => blockingService)) clock
             "warmer" false threeImages in
  images r.1 = images threeImages
  /\ error r.1
     = Some ("Gagal menerapkan filter. " +:+ Validator.blockedMessage "SAFETY" None)
  /\ loadingMessage r.1 = None
  /\ r.2 = [mkCall fileA "warmer"].
Proof.
  apply (PipelineFacts.filter_batch_blocked (fun _ => blockingService) clock "warmer"
           false threeImages fileA partA blockedAnswer "SAFETY");
    try reflexivity.
  discriminate.
Defined.

Lemma panel_idea_becomes_prompt_witness :
  let r := Panels.handleGenerateRandomPrompt Suggest.filter quotedIdea
             Panels.initialPanel in
  Panels.activePrompt r.1 = "neon glow"
  /\ Panels.handleApply true r.1 = Some ("neon glow", true)
  /\ r.2 = Panels.SetError None.
Proof.
  intros r.
  destruct (proj2 (PanelFacts.panel_idea_becomes_prompt Suggest.filter quotedIdea true
                     Panels.initialPanel) eq_refl)
    as (_ & _ & Hok & _).
  destruct (Hok " 'neon glow' ") as (Ha & _ & Hp & He); [reflexivity | discriminate |].
  split; [exact Ha |]. split; [exact Hp | exact He].
Defined.

Lemma panel_background_idea_witness :
  let r := Panels.handleGenerateRandomBgPrompt quotedIdea Panels.initialPanel in
  Panels.handleGenerateBackground r.1 = Some "neon glow"
  /\ r.2 = Panels.SetError None.
Proof.
  intros r.
  destruct (PanelFacts.panel_background_idea quotedIdea Panels.initialPanel eq_refl)
    as (_ & _ & Hok & _).
  apply (Hok " 'neon glow' "); [reflexivity | discriminate].
Defined.

Lemma retouch_idea_becomes_prompt_witness :
  let st' := handleGenerateRandomRetouchPrompt offline (mkIdeaState readyToEdit false) in
  prompt (app st') = "add a hat"
  /\ error (app st')
     = Some ("Gagal mendapatkan ide dari AI. " +:+ "Terjadi kesalahan tidak dikenal.").
Proof.
  intros st'.
  destruct (proj2 (IdeaFacts.retouch_idea_becomes_prompt offline
                     (mkIdeaState readyToEdit false)) eq_refl)
    as (_ & _ & _ & _ & _ & Hfail).
  apply (Hfail NonError). reflexivity.
Defined.

Lemma background_calls_follow_targets_witness :
  let targets := batchTargets true withBackground in
  let r := handleApplyBackground echoOnce clock true withBackground in
  exists m : nat,
    (m <= length targets)%nat
    /\ Forall2 (fun t call => shownAt withBackground t = Some (subjectOfCall call)
                              /\ backgroundOfCall call = fileC)
               (take m targets) r.2
    /\ (error r.1 = None -> m = length targets).
Proof.
  apply (BackgroundCalls.background_calls_follow_targets echoOnce clock true
           withBackground fileC); [|reflexivity].
  repeat constructor; simpl; lia.
Defined.

End MoreRuns.
